(** * SoundPad: audio codec and playback engine

    A shallow embedding of [src/components/audio-edit-modal.tsx]
    (silence trimmer and PCM container encoder) and of
    [src/components/audio-provider.tsx] (slot store, playback engine,
    resource ledger, archive import), with the properties of the
    specification stated over it.

    Conventions.
    - JavaScript numbers are modelled by exact rationals ([Q]) or, where the
      code only counts, by integers ([Z]); NaN and the infinities are not
      represented, and rounding of binary floating point is not modelled.
    - A [Record<string, T>] is a [gmap string T].
    - Audio elements are browser objects that the engine aliases (the cached
      element of a slot also sits in its instance list), so they live in an
      explicit store indexed by an element handle. *)

From Stdlib Require Import ZArith QArith Qround Qabs Qminmax Qpower Lia Ascii String
  DecimalString DecimalNat.
From stdpp Require Import base option gmap strings list.

(** ** Audio codec *)

Module Codec.

(** A [Blob]: its bytes (each in [0, 255]) and its MIME type. *)
Record Blob := mkBlob { blobBytes : list Z; blobType : string }.

(** An [AudioBuffer]: sample rate in Hz, [buffer.length] in frames and one
    sample list per channel ([getChannelData]). *)
Record AudioBuffer := mkBuffer {
  sampleRate : Z;
  bufferLength : nat;
  channels : list (list Q)
}.

Definition numberOfChannels (b : AudioBuffer) : nat := length (channels b).

(** [data[i]] on a typed array; an index outside the array reads
    [undefined], which every use below turns into the number 0. *)
Definition getSample (ch : list Q) (i : Z) : Q :=
  if (i <? 0)%Z then 0%Q else nth (Z.to_nat i) ch 0%Q.

(** *** trimSilence *)

Definition threshold : Q := 5 # 1000.

(** [Math.abs(x) > threshold] *)
Definition isLoud (x : Q) : bool := negb (Qle_bool (Qabs x) threshold).

(** The scanning loop of [trimSilence]: the index of the first sample above
    the threshold, if the loop reaches its [break]. *)
Fixpoint firstLoud (i : nat) (data : list Q) : option nat :=
  match data with
  | [] => None
  | x :: rest => if isLoud x then Some i else firstLoud (S i) rest
  end.

(** [startSample] after the scan and the forced 100 ms trim. *)
Definition startSample (rate : Z) (channelData : list Q) : Z :=
  let s := match firstLoud 0 channelData with
           | Some i => Z.of_nat i
           | None => 0%Z
           end in
  if (s =? 0)%Z && negb (Qle_bool (inject_Z (Z.of_nat (length channelData)))
                                  (inject_Z rate * (1 # 10)))
  then Qfloor (inject_Z rate * (1 # 10))
  else s.

(** [startSample < sampleRate * 0.05]: nothing worth trimming. *)
Definition belowNoop (rate : Z) (s : Z) : bool :=
  negb (Qle_bool (inject_Z rate * (5 # 100)) (inject_Z s)).

(** The copy loop: [trimmedData[i] = originalData[i + startSample]]. *)
Definition copyTail (s : Z) (trimmedLength : nat) (originalData : list Q) : list Q :=
  map (fun i => getSample originalData (Z.of_nat i + s)) (seq 0 trimmedLength).

(** The body of the [try] block after decoding.  [None] stands for
    [resolve(audioBlob)]: the buffer has no channel 0 or [createBuffer]
    refuses an empty buffer (both throw and are caught), or the trim point
    is under 50 ms. *)
Definition trimBuffer (b : AudioBuffer) : option AudioBuffer :=
  match channels b with
  | [] => None
  | channelData :: _ =>
      let s := startSample (sampleRate b) channelData in
      if belowNoop (sampleRate b) s then None
      else
        let trimmedLength := (Z.of_nat (length channelData) - s)%Z in
        if (trimmedLength <=? 0)%Z then None
        else Some {| sampleRate := sampleRate b;
                     bufferLength := Z.to_nat trimmedLength;
                     channels := map (copyTail s (Z.to_nat trimmedLength)) (channels b) |}
  end.

(** *** bufferToWav *)

(** [DataView] writes on an [ArrayBuffer]; a write past the end throws a
    [RangeError], here [None]. *)
Definition setUint8 (offset : nat) (v : Z) (view : list Z) : option (list Z) :=
  if (offset + 1 <=? length view)%nat
  then Some (<[offset := (v mod 256)%Z]> view)
  else None.

Definition setUint16 (offset : nat) (v : Z) (view : list Z) : option (list Z) :=
  if (offset + 2 <=? length view)%nat
  then Some (<[S offset := ((v / 256) mod 256)%Z]> (<[offset := (v mod 256)%Z]> view))
  else None.

Definition setUint32 (offset : nat) (v : Z) (view : list Z) : option (list Z) :=
  if (offset + 4 <=? length view)%nat
  then Some (<[S (S (S offset)) := ((v / 16777216) mod 256)%Z]>
            (<[S (S offset) := ((v / 65536) mod 256)%Z]>
            (<[S offset := ((v / 256) mod 256)%Z]>
            (<[offset := (v mod 256)%Z]> view))))
  else None.

(** Conversion of a number to an integer as [setInt16] does it: the
    fraction is dropped (towards zero); the two's-complement wrap to 16
    bits happens in [setUint16]. *)
Definition truncate (x : Q) : Z := Z.quot (Qnum x) (Z.pos (Qden x)).

Definition setInt16 (offset : nat) (x : Q) (view : list Z) : option (list Z) :=
  setUint16 offset (truncate x) view.

Definition charCode (c : ascii) : Z := Z.of_N (N_of_ascii c).

Fixpoint writeString (offset : nat) (s : string) (view : list Z) : option (list Z) :=
  match s with
  | EmptyString => Some view
  | String c rest => view' ← setUint8 offset (charCode c) view; writeString (S offset) rest view'
  end.

(** [Math.max(-1, Math.min(1, x))] *)
Definition clamp (x : Q) : Q := Qmax (-1) (Qmin 1 x).

(** The inner loop over channels, for frame [i]. *)
Fixpoint writeFrame (i : nat) (chans : list (list Q)) (offset : nat) (view : list Z)
  : option (nat * list Z) :=
  match chans with
  | [] => Some (offset, view)
  | ch :: rest =>
      let sample := clamp (getSample ch (Z.of_nat i)) in
      view' ← setInt16 offset (sample * (32767 # 1))%Q view;
      writeFrame i rest (offset + 2) view'
  end.

(** The outer loop over frames [i, i + count). *)
Fixpoint writeFrames (count : nat) (i : nat) (chans : list (list Q)) (offset : nat)
  (view : list Z) : option (nat * list Z) :=
  match count with
  | O => Some (offset, view)
  | S count' =>
      '(offset', view') ← writeFrame i chans offset view;
      writeFrames count' (S i) chans offset' view'
  end.

Definition writeHeader (length numberOfChannels : nat) (rate : Z) (view : list Z)
  : option (list Z) :=
  let dataBytes := (Z.of_nat length * Z.of_nat numberOfChannels * 2)%Z in
  view ← writeString 0 "RIFF" view;
  view ← setUint32 4 (36 + dataBytes) view;
  view ← writeString 8 "WAVE" view;
  view ← writeString 12 "fmt " view;
  view ← setUint32 16 16 view;
  view ← setUint16 20 1 view;
  view ← setUint16 22 (Z.of_nat numberOfChannels) view;
  view ← setUint32 24 rate view;
  view ← setUint32 28 (rate * Z.of_nat numberOfChannels * 2) view;
  view ← setUint16 32 (Z.of_nat numberOfChannels * 2) view;
  view ← setUint16 34 16 view;
  view ← writeString 36 "data" view;
  setUint32 40 dataBytes view.

Definition bufferToWav (buffer : AudioBuffer) : option Blob :=
  let length := bufferLength buffer in
  let numberOfChannels := numberOfChannels buffer in
  let arrayBuffer := replicate (44 + length * numberOfChannels * 2) 0%Z in
  view ← writeHeader length numberOfChannels (sampleRate buffer) arrayBuffer;
  '(_, view) ← writeFrames length 0 (channels buffer) 44 view;
  Some {| blobBytes := view; blobType := "audio/wav" |}.

(** [trimSilence] on blobs.  [decode] is the platform's [decodeAudioData];
    a rejected decode and a throwing encoder both end in the [catch] arm,
    which resolves with the original blob. *)
Definition trimSilence (decode : Blob -> option AudioBuffer) (audioBlob : Blob) : Blob :=
  match decode audioBlob with
  | None => audioBlob
  | Some audioBuffer =>
      match trimBuffer audioBuffer with
      | None => audioBlob
      | Some trimmedBuffer =>
          match bufferToWav trimmedBuffer with
          | Some wavBlob => wavBlob
          | None => audioBlob
          end
      end
  end.

(** *** Reading the container back

    Little-endian readers ([DataView.getUint16/32(offset, true)]) and a
    decoder for the 16-bit PCM container that [bufferToWav] writes, as the
    platform decodes it: each sample is the signed 16-bit value over
    32768. *)

Definition byteAt (view : list Z) (offset : nat) : Z := nth offset view 0%Z.

Definition getUint16 (view : list Z) (offset : nat) : Z :=
  (byteAt view offset + 256 * byteAt view (S offset))%Z.

Definition getUint32 (view : list Z) (offset : nat) : Z :=
  (byteAt view offset + 256 * byteAt view (S offset)
   + 65536 * byteAt view (S (S offset)) + 16777216 * byteAt view (S (S (S offset))))%Z.

Definition getInt16 (view : list Z) (offset : nat) : Z :=
  let u := getUint16 view offset in
  if (u <? 32768)%Z then u else (u - 65536)%Z.

Definition decodeChannel (view : list Z) (frames nchan : nat) (c : nat) : list Q :=
  map (fun i => (inject_Z (getInt16 view (44 + 2 * (i * nchan + c))) / (32768 # 1))%Q)
      (seq 0 frames).

Definition decodePcm16 (blob : Blob) : option AudioBuffer :=
  let view := blobBytes blob in
  if (length view <? 44)%nat then None
  else
    let nchan := Z.to_nat (getUint16 view 22) in
    let dataBytes := Z.to_nat (getUint32 view 40) in
    if (nchan =? 0)%nat || negb (44 + dataBytes <=? length view)%nat then None
    else
      let frames := (dataBytes / (2 * nchan))%nat in
      if (frames =? 0)%nat then None
      else Some {| sampleRate := getUint32 view 24;
                   bufferLength := frames;
                   channels := map (decodeChannel view frames nchan) (seq 0 nchan) |}.

(** *** The container as a byte layout

    What [bufferToWav] is meant to produce, written as a list: the 44-byte
    header followed by the frames in order, each frame holding one 16-bit
    sample per channel. *)

Definition le16 (v : Z) : list Z := [v mod 256; (v / 256) mod 256]%Z.

Definition le32 (v : Z) : list Z :=
  [v mod 256; (v / 256) mod 256; (v / 65536) mod 256; (v / 16777216) mod 256]%Z.

Definition headerBytes (length numberOfChannels : nat) (rate : Z) : list Z :=
  let dataBytes := (Z.of_nat length * Z.of_nat numberOfChannels * 2)%Z in
  [82; 73; 70; 70]%Z ++ le32 (36 + dataBytes)
  ++ [87; 65; 86; 69]%Z ++ [102; 109; 116; 32]%Z
  ++ le32 16 ++ le16 1 ++ le16 (Z.of_nat numberOfChannels)
  ++ le32 rate ++ le32 (rate * Z.of_nat numberOfChannels * 2)
  ++ le16 (Z.of_nat numberOfChannels * 2) ++ le16 16
  ++ [100; 97; 116; 97]%Z ++ le32 dataBytes.

(** The integer stored for a float sample. *)
Definition pcm16 (x : Q) : Z := truncate (clamp x * (32767 # 1))%Q.

Definition frameBytes (chans : list (list Q)) (i : nat) : list Z :=
  flat_map (fun ch => le16 (pcm16 (getSample ch (Z.of_nat i)))) chans.

Definition pcmBytes (first count : nat) (chans : list (list Q)) : list Z :=
  flat_map (frameBytes chans) (seq first count).

End Codec.

(** ** Playback engine and slot store *)

Module Engine.
Import Codec.

(** *** Data model *)

(** [AudioData], one per pad; [padId] is its field [id].  The TypeScript
    optional fields are options. *)
Record AudioData := mkAudioData {
  padId : string;
  name : string;
  audioBlob : option Blob;
  speed : Q;
  balance : Q;
  echoDelay : option Q;
  echoFeedback : option Q;
  volume : option Q;
  color : option string;
  loop : option bool
}.

(** A property of an object literal passed as [Partial<AudioData>]: left
    out, written with the value [undefined], or given.  Reading the
    property yields [undefined] in the first two cases alike. *)
Inductive Field (A : Type) : Type :=
  | Absent
  | Undefined
  | Given (a : A).
Arguments Absent {A}.
Arguments Undefined {A}.
Arguments Given {A} a.

Definition readField {A : Type} (f : Field A) : option A :=
  match f with
  | Given a => Some a
  | Absent | Undefined => None
  end.

Record PartialAudioData := mkPartial {
  p_name : Field string;
  p_audioBlob : Field Blob;
  p_speed : Field Q;
  p_balance : Field Q;
  p_echoDelay : Field Q;
  p_echoFeedback : Field Q;
  p_volume : Field Q;
  p_color : Field string;
  p_loop : Field bool
}.

(** State of the shared [AudioContext]. *)
Inductive ContextState := running | suspended | closed.

(** The two [onended] closures the engine installs. *)
Inductive EndedHandler :=
  | echoEnded (id : string)
  | cachedEnded (id : string).

(** An [HTMLAudioElement] as far as the engine touches it.  [src] is the
    handle of the object URL it was created from (always a [blob:] URL);
    [elementVolume] and [elementLoop] are its [volume] and [loop]. *)
Record AudioElement := mkAudio {
  src : nat;
  paused : bool;
  currentTime : Q;
  playbackRate : Q;
  elementVolume : Q;
  elementLoop : bool;
  sinkId : string;
  onended : option EndedHandler
}.

(** A pan/gain chain; [mediaElement] is the element behind its source node. *)
Record NodeSet := mkNodeSet {
  mediaElement : nat;
  panValue : Q;
  gainValue : Q
}.

(** [resourceCountRef.current] *)
Record ResourceCount := mkCount {
  audioElements : Z;
  audioNodes : Z;
  objectUrls : Z
}.

(** The provider's state and refs, with the browser objects they point to:
    [elements] is the store of audio elements, [liveUrls] the object URLs
    not yet revoked, [timers] the pending [setTimeout] calls of the echo
    path (delay in ms, element to start). *)
Record Engine := mkEngine {
  audioData : gmap string AudioData;
  isPlaying : gmap string bool;
  buttonOrder : list string;
  outputDeviceId : string;
  audioInstancesRefs : gmap string (list nat);
  audioContextRef : option ContextState;
  audioNodesRef : gmap string (list NodeSet);
  resourceCountRef : ResourceCount;
  cachedAudioRef : gmap string (nat * nat);
  elements : gmap nat AudioElement;
  liveUrls : gset nat;
  nextAudio : nat;
  nextUrl : nat;
  timers : list (Q * nat)
}.

(** What the browser answers during one call: the state of a newly
    constructed context ([None]: the constructor throws), and whether
    [resume], [setSinkId], the node wiring, [play] and the retried [play]
    succeed. *)
Record Browser := mkBrowser {
  createContext : option ContextState;
  resumeOk : bool;
  sinkOk : bool;
  wiringOk : bool;
  playOk : bool;
  retryOk : bool
}.

(** Field updates. *)
Definition setAudioData (v : gmap string AudioData) (e : Engine) : Engine :=
  mkEngine v (isPlaying e) (buttonOrder e) (outputDeviceId e) (audioInstancesRefs e)
    (audioContextRef e) (audioNodesRef e) (resourceCountRef e) (cachedAudioRef e)
    (elements e) (liveUrls e) (nextAudio e) (nextUrl e) (timers e).
Definition setIsPlaying (v : gmap string bool) (e : Engine) : Engine :=
  mkEngine (audioData e) v (buttonOrder e) (outputDeviceId e) (audioInstancesRefs e)
    (audioContextRef e) (audioNodesRef e) (resourceCountRef e) (cachedAudioRef e)
    (elements e) (liveUrls e) (nextAudio e) (nextUrl e) (timers e).
Definition setButtonOrder (v : list string) (e : Engine) : Engine :=
  mkEngine (audioData e) (isPlaying e) v (outputDeviceId e) (audioInstancesRefs e)
    (audioContextRef e) (audioNodesRef e) (resourceCountRef e) (cachedAudioRef e)
    (elements e) (liveUrls e) (nextAudio e) (nextUrl e) (timers e).
Definition setInstances (v : gmap string (list nat)) (e : Engine) : Engine :=
  mkEngine (audioData e) (isPlaying e) (buttonOrder e) (outputDeviceId e) v
    (audioContextRef e) (audioNodesRef e) (resourceCountRef e) (cachedAudioRef e)
    (elements e) (liveUrls e) (nextAudio e) (nextUrl e) (timers e).
Definition setContext (v : option ContextState) (e : Engine) : Engine :=
  mkEngine (audioData e) (isPlaying e) (buttonOrder e) (outputDeviceId e) (audioInstancesRefs e)
    v (audioNodesRef e) (resourceCountRef e) (cachedAudioRef e)
    (elements e) (liveUrls e) (nextAudio e) (nextUrl e) (timers e).
Definition setNodes (v : gmap string (list NodeSet)) (e : Engine) : Engine :=
  mkEngine (audioData e) (isPlaying e) (buttonOrder e) (outputDeviceId e) (audioInstancesRefs e)
    (audioContextRef e) v (resourceCountRef e) (cachedAudioRef e)
    (elements e) (liveUrls e) (nextAudio e) (nextUrl e) (timers e).
Definition setCount (v : ResourceCount) (e : Engine) : Engine :=
  mkEngine (audioData e) (isPlaying e) (buttonOrder e) (outputDeviceId e) (audioInstancesRefs e)
    (audioContextRef e) (audioNodesRef e) v (cachedAudioRef e)
    (elements e) (liveUrls e) (nextAudio e) (nextUrl e) (timers e).
Definition setCached (v : gmap string (nat * nat)) (e : Engine) : Engine :=
  mkEngine (audioData e) (isPlaying e) (buttonOrder e) (outputDeviceId e) (audioInstancesRefs e)
    (audioContextRef e) (audioNodesRef e) (resourceCountRef e) v
    (elements e) (liveUrls e) (nextAudio e) (nextUrl e) (timers e).
Definition setElements (v : gmap nat AudioElement) (e : Engine) : Engine :=
  mkEngine (audioData e) (isPlaying e) (buttonOrder e) (outputDeviceId e) (audioInstancesRefs e)
    (audioContextRef e) (audioNodesRef e) (resourceCountRef e) (cachedAudioRef e)
    v (liveUrls e) (nextAudio e) (nextUrl e) (timers e).
Definition setLiveUrls (v : gset nat) (e : Engine) : Engine :=
  mkEngine (audioData e) (isPlaying e) (buttonOrder e) (outputDeviceId e) (audioInstancesRefs e)
    (audioContextRef e) (audioNodesRef e) (resourceCountRef e) (cachedAudioRef e)
    (elements e) v (nextAudio e) (nextUrl e) (timers e).
Definition setNextAudio (v : nat) (e : Engine) : Engine :=
  mkEngine (audioData e) (isPlaying e) (buttonOrder e) (outputDeviceId e) (audioInstancesRefs e)
    (audioContextRef e) (audioNodesRef e) (resourceCountRef e) (cachedAudioRef e)
    (elements e) (liveUrls e) v (nextUrl e) (timers e).
Definition setNextUrl (v : nat) (e : Engine) : Engine :=
  mkEngine (audioData e) (isPlaying e) (buttonOrder e) (outputDeviceId e) (audioInstancesRefs e)
    (audioContextRef e) (audioNodesRef e) (resourceCountRef e) (cachedAudioRef e)
    (elements e) (liveUrls e) (nextAudio e) v (timers e).
Definition setTimers (v : list (Q * nat)) (e : Engine) : Engine :=
  mkEngine (audioData e) (isPlaying e) (buttonOrder e) (outputDeviceId e) (audioInstancesRefs e)
    (audioContextRef e) (audioNodesRef e) (resourceCountRef e) (cachedAudioRef e)
    (elements e) (liveUrls e) (nextAudio e) (nextUrl e) v.

(** *** JavaScript idioms *)

(** [x || d] on an optional number: [undefined] and 0 are falsy. *)
Definition orNumber (x : option Q) (d : Q) : Q :=
  match x with
  | Some v => if Qeq_bool v 0 then d else v
  | None => d
  end.

(** [x || d] on an optional string: [undefined] and the empty string are
    falsy. *)
Definition orString (x : option string) (d : string) : string :=
  match x with
  | Some EmptyString | None => d
  | Some v => v
  end.

(** [a > b] on numbers. *)
Definition Qgtb (a b : Q) : bool := negb (Qle_bool a b).

(** [`Pad ${id}`] *)
Definition padName (id : string) : string := String.append "Pad " id.

(** *** Browser objects *)

Definition onElement (f : AudioElement -> AudioElement) (audio : nat) (e : Engine) : Engine :=
  setElements (alter f audio (elements e)) e.

(** [audio.pause()] *)
Definition pause (audio : nat) : Engine -> Engine :=
  onElement (fun a => mkAudio (src a) true (currentTime a) (playbackRate a) (elementVolume a)
                        (elementLoop a) (sinkId a) (onended a)) audio.

(** [audio.currentTime = 0] *)
Definition rewind (audio : nat) : Engine -> Engine :=
  onElement (fun a => mkAudio (src a) (paused a) 0 (playbackRate a) (elementVolume a)
                        (elementLoop a) (sinkId a) (onended a)) audio.

(** A successful [audio.play()] *)
Definition start (audio : nat) : Engine -> Engine :=
  onElement (fun a => mkAudio (src a) false (currentTime a) (playbackRate a) (elementVolume a)
                        (elementLoop a) (sinkId a) (onended a)) audio.

(** [URL.revokeObjectURL(url)] *)
Definition revokeObjectURL (url : nat) (e : Engine) : Engine :=
  setLiveUrls (liveUrls e ∖ {[url]}) e.

(** [URL.createObjectURL(blob)]: a fresh URL handle. *)
Definition createObjectURL (e : Engine) : nat * Engine :=
  (nextUrl e, setNextUrl (S (nextUrl e)) (setLiveUrls ({[nextUrl e]} ∪ liveUrls e) e)).

(** *** The resource ledger *)

(** [Math.max(0, n - 1)] *)
Definition decrement (n : Z) : Z := Z.max 0 (n - 1).

Definition countElements (f : Z -> Z) (e : Engine) : Engine :=
  let c := resourceCountRef e in
  setCount (mkCount (f (audioElements c)) (audioNodes c) (objectUrls c)) e.
Definition countNodes (f : Z -> Z) (e : Engine) : Engine :=
  let c := resourceCountRef e in
  setCount (mkCount (audioElements c) (f (audioNodes c)) (objectUrls c)) e.
Definition countUrls (f : Z -> Z) (e : Engine) : Engine :=
  let c := resourceCountRef e in
  setCount (mkCount (audioElements c) (audioNodes c) (f (objectUrls c))) e.

(** [forceCleanupAllAudio] *)
Definition stopAndRevoke (e : Engine) (audio url : nat) : Engine :=
  revokeObjectURL url (rewind audio (pause audio e)).

Definition stopInstance (e : Engine) (audio : nat) : Engine :=
  match elements e !! audio with
  | Some a => stopAndRevoke e audio (src a)
  | None => e
  end.

Definition forceCleanupAllAudio (e : Engine) : Engine :=
  let e := foldl (fun e '(_, (audio, url)) => stopAndRevoke e audio url) e
             (map_to_list (cachedAudioRef e)) in
  let e := setCached ∅ e in
  let e := foldl (fun e '(_, instances) => foldl stopInstance e instances) e
             (map_to_list (audioInstancesRefs e)) in
  let e := setInstances ((fun _ => []) <$> audioInstancesRefs e) e in
  let e := setNodes ((fun _ => []) <$> audioNodesRef e) e in
  let e := setIsPlaying ∅ e in
  setCount (mkCount 0 0 0) e.

(** Sum of the lengths of the lists stored in a record. *)
Definition totalLength {A : Type} (m : gmap string (list A)) : Z :=
  foldr (fun '(_, l) acc => (acc + Z.of_nat (length l))%Z) 0%Z (map_to_list m).

(** [performPeriodicCleanup] *)
Definition performPeriodicCleanup (e : Engine) : Engine :=
  let totalAudioElements := totalLength (audioInstancesRefs e) in
  let totalAudioNodes := totalLength (audioNodesRef e) in
  let e := setCount (mkCount totalAudioElements totalAudioNodes
                       (objectUrls (resourceCountRef e))) e in
  let e := if (50 <? totalAudioElements)%Z || (50 <? totalAudioNodes)%Z
           then forceCleanupAllAudio e else e in
  match audioContextRef e with
  | Some closed => setContext None e
  | _ => e
  end.

(** *** The slot store *)

(** [updateAudioData] *)
Definition updateAudioData (id : string) (data : PartialAudioData) (e : Engine) : Engine :=
  let e := match cachedAudioRef e !! id with
           | Some (audio, url) =>
               setCached (delete id (cachedAudioRef e)) (revokeObjectURL url (pause audio e))
           | None => e
           end in
  let prev := audioData e !! id in
  let updated :=
    {| padId := id;
       name := orString (readField (p_name data)) (orString (name <$> prev) (padName id));
       speed := match readField (p_speed data) with
                | Some v => v
                | None => orNumber (speed <$> prev) 1
                end;
       balance := match readField (p_balance data) with
                  | Some v => v
                  | None => orNumber (balance <$> prev) 0
                  end;
       echoDelay := match readField (p_echoDelay data) with
                    | Some v => Some v
                    | None => match prev ≫= echoDelay with
                              | Some v => Some v
                              | None => Some (1 # 10)
                              end
                    end;
       echoFeedback := match readField (p_echoFeedback data) with
                       | Some v => Some v
                       | None => Some (orNumber (prev ≫= echoFeedback) 0)
                       end;
       volume := match readField (p_volume data) with
                 | Some v => Some v
                 | None => Some (orNumber (prev ≫= volume) (75 # 100))
                 end;
       color := match readField (p_color data) with
                | Some v => Some v
                | None => prev ≫= color
                end;
       loop := match readField (p_loop data) with
               | Some v => Some v
               | None => prev ≫= loop
               end;
       audioBlob := match readField (p_audioBlob data) with
                    | Some v => Some v
                    | None => prev ≫= audioBlob
                    end |} in
  setAudioData (<[id := updated]> (audioData e)) e.

(** The object literal of [handleDelete] in the edit dialog, and the call
    it makes. *)
Definition deletePayload (padId : string) : PartialAudioData :=
  {| p_name := Given (padName padId);
     p_speed := Given 1%Q;
     p_balance := Given 0%Q;
     p_echoDelay := Given 0%Q;
     p_echoFeedback := Given 0%Q;
     p_volume := Given 1%Q;
     p_color := Given "slate";
     p_loop := Given false;
     p_audioBlob := Undefined |}.

Definition handleDelete (padId : string) (e : Engine) : Engine :=
  updateAudioData padId (deletePayload padId) e.

(** *** Playback *)

(** [findIndex] for the node set of an element followed by [splice]:
    [None] when no node set belongs to the element. *)
Fixpoint removeNodeOf (audio : nat) (nodes : list NodeSet) : option (list NodeSet) :=
  match nodes with
  | [] => None
  | nodeSet :: rest =>
      if (mediaElement nodeSet =? audio)%nat then Some rest
      else cons nodeSet <$> removeNodeOf audio rest
  end.

(** [cleanupAudioNodes] *)
Definition cleanupAudioNodes (id : string) (audio : nat) (e : Engine) : Engine :=
  match audioNodesRef e !! id with
  | Some nodes =>
      match removeNodeOf audio nodes with
      | Some nodes' => countNodes decrement (setNodes (<[id := nodes']> (audioNodesRef e)) e)
      | None => e
      end
  | None => e
  end.

(** The release of an element's object URL, guarded by
    [audio.src && audio.src.startsWith("blob:")], which holds of every
    element the engine creates. *)
Definition releaseUrl (audio : nat) (e : Engine) : Engine :=
  match elements e !! audio with
  | Some a => countUrls decrement (revokeObjectURL (src a) e)
  | None => e
  end.

(** One turn of the eviction loop in [limitAudioInstances]. *)
Definition evict (id : string) (e : Engine) (audio : nat) : Engine :=
  countElements decrement (releaseUrl audio (cleanupAudioNodes id audio (pause audio e))).

(** [limitAudioInstances]; [splice(0, length - maxInstances + 1)] takes the
    oldest entries out of the list in place. *)
Definition limitAudioInstances (id : string) (maxInstances : nat) (e : Engine) : Engine :=
  match audioInstancesRefs e !! id with
  | Some instances =>
      if (maxInstances <=? length instances)%nat then
        let count := (length instances - maxInstances + 1)%nat in
        let instancesToRemove := take count instances in
        let e := setInstances (<[id := drop count instances]> (audioInstancesRefs e)) e in
        foldl (evict id) e instancesToRemove
      else e
  | None => e
  end.

(** [list.push(x)] on a record entry that is created when missing. *)
Definition push {A : Type} (id : string) (x : A) (m : gmap string (list A))
  : gmap string (list A) :=
  <[id := default [] (m !! id) ++ [x]]> m.

(** Echo parameters. *)
Definition echoCount (data : AudioData) : Z :=
  Z.min (Qfloor (orNumber (echoFeedback data) 0 * 6)%Q + 3) 6.

Definition delayMs (data : AudioData) : Q :=
  Qmax (orNumber (echoDelay data) 0 * 1000)%Q 100.

Definition echoVolume (data : AudioData) (i : nat) : Q :=
  match i with
  | O => orNumber (volume data) 1
  | S _ =>
      let baseEchoVolume := (orNumber (volume data) 1 * (6 # 10))%Q in
      let decayFactor := Qpower (orNumber (echoFeedback data) (1 # 2)) (Z.of_nat i - 1) in
      (baseEchoVolume * decayFactor)%Q
  end.

(** [setSinkId(device)] behind its guard
    [outputDeviceId && "setSinkId" in HTMLAudioElement.prototype]: the
    element moves to the device when one is selected and the call exists
    and succeeds; otherwise it stays where it is. *)
Definition boundSink (env : Browser) (device current : string) : string :=
  match device with
  | EmptyString => current
  | device => if sinkOk env then device else current
  end.

(** [new Audio(url)] with the given properties. *)
Definition newAudio (url : nat) (rate vol : Q) (looping : bool) (sink : string)
  (handler : option EndedHandler) (e : Engine) : nat * Engine :=
  let audio := nextAudio e in
  (audio,
   setNextAudio (S audio)
     (setElements (<[audio := mkAudio url true 0 rate vol looping sink handler]>
                     (elements e)) e)).

(** Writes of one property of an element.  The playback rate written is
    taken to be one the browser supports, so that its setter does not
    throw. *)
Definition setPlaybackRate (rate : Q) (audio : nat) : Engine -> Engine :=
  onElement (fun a => mkAudio (src a) (paused a) (currentTime a) rate (elementVolume a)
                        (elementLoop a) (sinkId a) (onended a)) audio.

Definition setVolume (v : Q) (audio : nat) : Engine -> Engine :=
  onElement (fun a => mkAudio (src a) (paused a) (currentTime a) (playbackRate a) v
                        (elementLoop a) (sinkId a) (onended a)) audio.

Definition setLoop (looping : bool) (audio : nat) : Engine -> Engine :=
  onElement (fun a => mkAudio (src a) (paused a) (currentTime a) (playbackRate a)
                        (elementVolume a) looping (sinkId a) (onended a)) audio.

Definition setSink (env : Browser) (device : string) (audio : nat) : Engine -> Engine :=
  onElement (fun a => mkAudio (src a) (paused a) (currentTime a) (playbackRate a)
                        (elementVolume a) (elementLoop a) (boundSink env device (sinkId a))
                        (onended a)) audio.

Definition setOnended (handler : EndedHandler) (audio : nat) : Engine -> Engine :=
  onElement (fun a => mkAudio (src a) (paused a) (currentTime a) (playbackRate a)
                        (elementVolume a) (elementLoop a) (sinkId a) (Some handler)) audio.

(** The [volume] setter of a media element takes a number in [0, 1]; for
    any other it throws an IndexSizeError and leaves the element alone. *)
Definition volumeAccepted (v : Q) : bool := Qle_bool 0 v && Qle_bool v 1.

(** How a stretch of code ends, with the state it leaves: it runs to its
    end, or an exception escapes it. *)
Inductive Completion :=
  | Normal (e : Engine)
  | Abrupt (e : Engine).

Definition stateOf (c : Completion) : Engine :=
  match c with
  | Normal e | Abrupt e => e
  end.

(** The pan/gain chain of an element, registered under the slot. *)
Definition wire (id : string) (audio : nat) (pan gain : Q) (e : Engine) : Engine :=
  countNodes Z.succ (setNodes (push id (mkNodeSet audio pan gain) (audioNodesRef e)) e).

(** One turn of the echo loop, for index [i], in two parts: up to the
    [setSinkId] call (a fresh URL and a fresh element on it), and from the
    result of that call on (sink, URL counter, rate, volume, node chain,
    registration, timer, [onended]).  Neither write is inside a [try], so
    a volume the setter refuses ends the whole call there. *)
Definition echoOpen (e : Engine) : nat * Engine :=
  let '(url, e) := createObjectURL e in
  newAudio url 1 1 false EmptyString None e.

Definition echoClose (env : Browser) (id : string) (data : AudioData) (device : string)
  (i : nat) (echoAudio : nat) (e : Engine) : Completion :=
  let e := setSink env device echoAudio e in
  let e := countUrls Z.succ e in
  let delay := (inject_Z (Z.of_nat i) * delayMs data)%Q in
  let volume := echoVolume data i in
  let e := setPlaybackRate (speed data) echoAudio e in
  if volumeAccepted (Qmin volume 1) then
    let e := setVolume (Qmin volume 1) echoAudio e in
    let e :=
      match audioContextRef e with
      | Some running =>
          if wiringOk env
          then wire id echoAudio (orNumber (Some (balance data)) 0)
                 (if Qgtb volume 1 then volume else 1) e
          else e
      | _ => e
      end in
    let e := setInstances (push id echoAudio (audioInstancesRefs e)) e in
    let e := countElements Z.succ e in
    let e := setTimers (timers e ++ [(delay, echoAudio)]) e in
    Normal (setOnended (echoEnded id) echoAudio e)
  else Abrupt e.

Definition echoStep (env : Browser) (id : string) (data : AudioData) (e : Engine) (i : nat)
  : Completion :=
  let '(echoAudio, e') := echoOpen e in
  echoClose env id data (outputDeviceId e) i echoAudio e'.

(** The loop over the indices, left at the first throw. *)
Fixpoint echoLoop (env : Browser) (id : string) (data : AudioData) (indices : list nat)
  (e : Engine) : Completion :=
  match indices with
  | [] => Normal e
  | i :: rest =>
      match echoStep env id data e i with
      | Normal e => echoLoop env id data rest e
      | Abrupt e => Abrupt e
      end
  end.

(** The echo path of [playAudio]: indices [0 .. echoCount], then the
    playing flag. *)
Definition playEcho (env : Browser) (id : string) (data : AudioData) (e : Engine) : Engine :=
  match echoLoop env id data (seq 0 (Z.to_nat (echoCount data + 1))) e with
  | Normal e => setIsPlaying (<[id := true]> (isPlaying e)) e
  | Abrupt e => e
  end.

(** [audio.play()] with the single retry after resuming a suspended
    context. *)
Definition tryPlay (env : Browser) (audio : nat) (e : Engine) : Engine :=
  if playOk env then start audio e
  else match audioContextRef e with
       | Some suspended =>
           if resumeOk env
           then (if retryOk env then start audio else fun e => e) (setContext (Some running) e)
           else e
       | _ => e
       end.

(** The cached path of [playAudio], in the order of the code: take the
    slot's cached element (rewound) or create and cache one; set rate,
    volume (which throws when the setter refuses it) and loop flag; bind
    the sink; wire the pan/gain chain of a new element when effects are
    needed and the context runs; register the element; install [onended];
    play. *)
Definition acquireCached (id : string) (data : AudioData) (e : Engine) : nat * bool * Engine :=
  match cachedAudioRef e !! id with
  | Some (audio, _) => (audio, false, rewind audio e)
  | None =>
      let '(url, e) := createObjectURL e in
      let '(audio, e) := newAudio url 1 1 false EmptyString None e in
      let e := setCached (<[id := (audio, url)]> (cachedAudioRef e)) e in
      (audio, true, countUrls Z.succ e)
  end.

Definition configure (data : AudioData) (audio : nat) (e : Engine) : Completion :=
  let e := setPlaybackRate (speed data) audio e in
  let v := Qmin (orNumber (volume data) 1) 1 in
  if volumeAccepted v
  then Normal (setLoop (default false (loop data)) audio (setVolume v audio e))
  else Abrupt e.

Definition wireCached (env : Browser) (id : string) (data : AudioData) (audio : nat)
  (e : Engine) : Engine :=
  match audioContextRef e with
  | Some running =>
      if wiringOk env
      then wire id audio (orNumber (Some (balance data)) 0)
             (if Qgtb (orNumber (volume data) 1) 1 then orNumber (volume data) 1 else 1) e
      else e
  | _ => e
  end.

(** From the result of [setSinkId] to the [play] call. *)
Definition registerCached (env : Browser) (id : string) (data : AudioData) (device : string)
  (needsWebAudio isNewAudio : bool) (audio : nat) (e : Engine) : Engine :=
  let e := setSink env device audio e in
  let e := if needsWebAudio && isNewAudio then wireCached env id data audio e else e in
  let e := setInstances (push id audio (audioInstancesRefs e)) e in
  let e := if isNewAudio then countElements Z.succ e else e in
  let e := setIsPlaying (<[id := true]> (isPlaying e)) e in
  setOnended (cachedEnded id) audio e.

Definition finishCached (env : Browser) (id : string) (data : AudioData)
  (needsWebAudio isNewAudio : bool) (audio : nat) (e : Engine) : Engine :=
  tryPlay env audio
    (registerCached env id data (outputDeviceId e) needsWebAudio isNewAudio audio e).

Definition playCached (env : Browser) (id : string) (data : AudioData) (needsWebAudio : bool)
  (e : Engine) : Engine :=
  let '(audio, isNewAudio, e) := acquireCached id data e in
  match configure data audio e with
  | Normal e => finishCached env id data needsWebAudio isNewAudio audio e
  | Abrupt e => e
  end.

(** The per-slot cap passed by [playAudio] (the default argument). *)
Definition maxInstances : nat := 8.

(** The two flags [playAudio] computes from the slot: [needsWebAudio]
    and [hasEcho] (echo is off while the slot loops). *)
Definition echoEnabled (data : AudioData) : bool :=
  Qgtb (orNumber (echoDelay data) 0) 0 && Qgtb (orNumber (echoFeedback data) 0) 0.

Definition needsWebAudio (data : AudioData) : bool :=
  negb (Qeq_bool (balance data) 0) || Qgtb (orNumber (volume data) 1) 1 || echoEnabled data.

Definition hasEcho (data : AudioData) : bool :=
  negb (default false (loop data)) && echoEnabled data.

(** [playAudio], from the call to its end with nothing happening in
    between: the state it leaves, whether it returns or a throw rejects its
    promise. *)
Definition playAudio (env : Browser) (id : string) (e : Engine) : Engine :=
  match audioData e !! id with
  | None => e
  | Some data =>
      match audioBlob data with
      | None => e
      | Some _ =>
          if default false (loop data) && default false (isPlaying e !! id) then
            let e := match cachedAudioRef e !! id with
                     | Some (audio, _) => rewind audio (pause audio e)
                     | None => e
                     end in
            setIsPlaying (<[id := false]> (isPlaying e)) e
          else
            let e := limitAudioInstances id maxInstances e in
            let created :=
              match audioContextRef e with
              | Some _ => Some e
              | None =>
                  match createContext env with
                  | Some st => Some (setContext (Some st) e)
                  | None => None
                  end
              end in
            match created with
            | None => e
            | Some e =>
                let e := match audioContextRef e with
                         | Some suspended =>
                             if resumeOk env then setContext (Some running) e else e
                         | _ => e
                         end in
                if hasEcho data then playEcho env id data e
                else playCached env id data (needsWebAudio data) e
            end
      end
  end.

(** *** Calls in flight

    [playAudio] is asynchronous and its callers do not wait for it.  It
    gives up control at [await audioContextRef.current.resume()], at each
    [await setSinkId(outputDeviceId)] and at [await audio.play()]; whatever
    else happens meanwhile (another trigger, an [ended] event, a sweep)
    runs on the state it left, and the call goes on from the state it
    finds.  A [Task] is a suspended call: where it stands and the locals it
    holds, among them [data] and [outputDeviceId] as the render that
    created the closure had them. *)
Inductive Task :=
  | awaitingResume (id : string) (data : AudioData) (device : string)
  | awaitingEchoSink (id : string) (data : AudioData) (device : string) (i : nat)
      (echoAudio : nat)
  | awaitingCachedSink (id : string) (data : AudioData) (device : string)
      (isNewAudio : bool) (audio : nat)
  | awaitingCatch (audio : nat)
  | awaitingRetry (audio : nat).

(** [resume()] resolved: the context runs. *)
Definition resumed (e : Engine) : Engine :=
  match audioContextRef e with
  | Some _ => setContext (Some running) e
  | None => e
  end.

(** The echo loop from the turns [indices] on, up to its next
    [await setSinkId] or to its end.  With a device selected every turn
    stops after creating its element; where the browser has no [setSinkId]
    the call goes on at once, which is the continuation below with a
    failing [sinkOk] and nothing in between. *)
Fixpoint echoTurns (env : Browser) (id : string) (data : AudioData) (device : string)
  (indices : list nat) (e : Engine) : Engine * option Task :=
  match indices with
  | [] => (setIsPlaying (<[id := true]> (isPlaying e)) e, None)
  | i :: rest =>
      let '(echoAudio, e) := echoOpen e in
      match device with
      | EmptyString =>
          match echoClose env id data device i echoAudio e with
          | Normal e => echoTurns env id data device rest e
          | Abrupt e => (e, None)
          end
      | _ => (e, Some (awaitingEchoSink id data device i echoAudio))
      end
  end.

(** [await audio.play()]: the element starts, or the rejection leads into
    the [catch] block. *)
Definition callPlay (env : Browser) (audio : nat) (e : Engine) : Engine * option Task :=
  if playOk env then (start audio e, None) else (e, Some (awaitingCatch audio)).

(** The cached path up to its [await setSinkId] or its [await play()]. *)
Definition cachedTurn (env : Browser) (id : string) (data : AudioData) (device : string)
  (e : Engine) : Engine * option Task :=
  let '(audio, isNewAudio, e) := acquireCached id data e in
  match configure data audio e with
  | Abrupt e => (e, None)
  | Normal e =>
      match device with
      | EmptyString =>
          callPlay env audio
            (registerCached env id data device (needsWebAudio data) isNewAudio audio e)
      | _ => (e, Some (awaitingCachedSink id data device isNewAudio audio))
      end
  end.

(** The two paths, entered once the context is set up. *)
Definition dispatch (env : Browser) (id : string) (data : AudioData) (device : string)
  (e : Engine) : Engine * option Task :=
  if hasEcho data
  then echoTurns env id data device (seq 0 (Z.to_nat (echoCount data + 1))) e
  else cachedTurn env id data device e.

(** [playAudio] from the call to its first suspension or to its end. *)
Definition launch (env : Browser) (id : string) (e : Engine) : Engine * option Task :=
  match audioData e !! id with
  | None => (e, None)
  | Some data =>
      match audioBlob data with
      | None => (e, None)
      | Some _ =>
          if default false (loop data) && default false (isPlaying e !! id) then
            let e := match cachedAudioRef e !! id with
                     | Some (audio, _) => rewind audio (pause audio e)
                     | None => e
                     end in
            (setIsPlaying (<[id := false]> (isPlaying e)) e, None)
          else
            let device := outputDeviceId e in
            let e := limitAudioInstances id maxInstances e in
            let created :=
              match audioContextRef e with
              | Some _ => Some e
              | None =>
                  match createContext env with
                  | Some st => Some (setContext (Some st) e)
                  | None => None
                  end
              end in
            match created with
            | None => (e, None)
            | Some e =>
                match audioContextRef e with
                | Some suspended => (e, Some (awaitingResume id data device))
                | _ => dispatch env id data device e
                end
            end
      end
  end.

(** A suspended call goes on, with the browser's answers [env], up to its
    next suspension or to its end. *)
Definition continue (env : Browser) (task : Task) (e : Engine) : Engine * option Task :=
  match task with
  | awaitingResume id data device =>
      dispatch env id data device (if resumeOk env then resumed e else e)
  | awaitingEchoSink id data device i echoAudio =>
      match echoClose env id data device i echoAudio e with
      | Normal e =>
          echoTurns env id data device
            (seq (S i) (Z.to_nat (echoCount data + 1) - S i)) e
      | Abrupt e => (e, None)
      end
  | awaitingCachedSink id data device isNewAudio audio =>
      callPlay env audio
        (registerCached env id data device (needsWebAudio data) isNewAudio audio e)
  | awaitingCatch audio =>
      match audioContextRef e with
      | Some suspended => (e, Some (awaitingRetry audio))
      | _ => (e, None)
      end
  | awaitingRetry audio =>
      (if resumeOk env
       then (if retryOk env then start audio else fun e => e) (resumed e)
       else e, None)
  end.

(** A call driven on to its end with nothing happening in between; it
    stops at most eight times (once for the context, then once per echo
    turn, or for the sink, the rejected [play] and the retry). *)
Fixpoint drive (fuel : nat) (env : Browser) (e : Engine) (task : option Task) : Engine :=
  match task, fuel with
  | Some t, S fuel => let '(e, task) := continue env t e in drive fuel env e task
  | _, _ => e
  end.

(** The [setTimeout] callback of an echo: [play()] on its element, which
    the browser may refuse. *)
Definition echoTimer (audio : nat) (accepted : bool) (e : Engine) : Engine :=
  if accepted then start audio e else e.

(** [indexOf] followed by [splice(index, 1)]: [None] when absent. *)
Fixpoint removeFirst (audio : nat) (instances : list nat) : option (list nat) :=
  match instances with
  | [] => None
  | x :: rest =>
      if (x =? audio)%nat then Some rest else cons x <$> removeFirst audio rest
  end.

Definition markIdleIfEmpty (id : string) (e : Engine) : Engine :=
  match audioInstancesRefs e !! id with
  | Some [] => setIsPlaying (<[id := false]> (isPlaying e)) e
  | _ => e
  end.

(** [echoAudio.onended] *)
Definition onEchoEnded (id : string) (audio : nat) (e : Engine) : Engine :=
  let e := cleanupAudioNodes id audio e in
  let e :=
    match audioInstancesRefs e !! id with
    | Some instances =>
        let e := match removeFirst audio instances with
                 | Some rest =>
                     countElements decrement
                       (setInstances (<[id := rest]> (audioInstancesRefs e)) e)
                 | None => e
                 end in
        markIdleIfEmpty id e
    | None => e
    end in
  releaseUrl audio e.

(** [audio.onended] of the cached element *)
Definition onCachedEnded (id : string) (audio : nat) (e : Engine) : Engine :=
  let e :=
    match audioInstancesRefs e !! id with
    | Some instances =>
        let e := match removeFirst audio instances with
                 | Some rest => setInstances (<[id := rest]> (audioInstancesRefs e)) e
                 | None => e
                 end in
        markIdleIfEmpty id e
    | None => e
    end in
  let e := releaseUrl audio e in
  cleanupAudioNodes id audio e.

(** The browser fires [ended] on an element. *)
Definition ended (audio : nat) (e : Engine) : Engine :=
  match elements e !! audio ≫= onended with
  | Some (echoEnded id) => onEchoEnded id audio e
  | Some (cachedEnded id) => onCachedEnded id audio e
  | None => e
  end.

(** *** Archive import *)

(** A parsed JSON text. *)
#[local] Unset Elimination Schemes.
Inductive JValue :=
  | JNull
  | JBool (b : bool)
  | JNum (q : Q)
  | JStr (s : string)
  | JArr (items : list JValue)
  | JObj (members : list (string * JValue)).
#[local] Set Elimination Schemes.

(** The archive as [JSZip] presents it: the entry [settings.json], if any,
    with the result of [JSON.parse] on its text ([None]: a syntax error),
    and the other entries by name. *)
Record ZipArchive := mkZip {
  settingsJson : option (option JValue);
  zipFiles : gmap string Blob
}.

(** The picked file; [zipContent] is [None] when [JSZip.loadAsync]
    rejects it. *)
Record File := mkFile {
  fileName : string;
  zipContent : option ZipArchive
}.

Inductive ImportError :=
  | thrown (message : string)
  | zipError
  | jsonSyntaxError.

(** [s.endsWith(suffix)] *)
Definition endsWith (s suffix : string) : bool :=
  (String.length suffix <=? String.length s)%nat
  && String.eqb (String.substring (String.length s - String.length suffix)
                   (String.length suffix) s) suffix.

(** Truthiness of a JSON value. *)
Definition truthy (v : JValue) : bool :=
  match v with
  | JNull => false
  | JBool b => b
  | JNum q => negb (Qeq_bool q 0)
  | JStr s => negb (String.eqb s EmptyString)
  | JArr _ | JObj _ => true
  end.

(** [typeof v === "object"] *)
Definition typeofObject (v : JValue) : bool :=
  match v with
  | JNull | JArr _ | JObj _ => true
  | _ => false
  end.

(** The value of the last member named [key]; [JSON.parse] keeps the last
    of duplicated names. *)
Fixpoint member (key : string) (members : list (string * JValue)) : option JValue :=
  match members with
  | [] => None
  | (k, v) :: rest =>
      match member key rest with
      | Some v' => Some v'
      | None => if String.eqb k key then Some v else None
      end
  end.

(** [i.toString()] *)
Definition decimal (i : nat) : string := NilEmpty.string_of_uint (Nat.to_uint i).

(** [settings[id]] for the pad ids ["1" .. "36"], read as index on an
    array, and [v.key] for the named properties; [None] is [undefined]. *)
Definition padEntry (settings : JValue) (i : nat) : option JValue :=
  match settings with
  | JObj members => member (decimal i) members
  | JArr items => items !! i
  | _ => None
  end.

Definition property (v : JValue) (key : string) : option JValue :=
  match v with
  | JObj members => member key members
  | _ => None
  end.

(** Typed views of a property.  The archive format stores strings,
    numbers and booleans in these places; a value of another type is
    read as [undefined] here. *)
Definition asNumber (v : option JValue) : option Q :=
  match v with Some (JNum q) => Some q | _ => None end.
Definition asString (v : option JValue) : option string :=
  match v with Some (JStr s) => Some s | _ => None end.
Definition asBool (v : option JValue) : option bool :=
  match v with Some (JBool b) => Some b | _ => None end.
Definition asStrings (v : option JValue) : option (list string) :=
  match v with
  | Some (JArr items) =>
      Some (omap (fun x => match x with JStr s => Some s | _ => None end) items)
  | _ => None
  end.

Definition defaultPad (id : string) : AudioData :=
  {| padId := id; name := padName id; audioBlob := None; speed := 1; balance := 0;
     echoDelay := Some (1 # 10); echoFeedback := Some 0%Q; volume := Some (75 # 100);
     color := None; loop := None |}.

(** One turn of the loop over the 36 pad ids. *)
Definition importPad (settings : JValue) (zip : ZipArchive) (i : nat) : AudioData :=
  let id := decimal i in
  match padEntry settings i with
  | Some padSettings =>
      if truthy padSettings then
        {| padId := id;
           name := orString (asString (property padSettings "name")) (padName id);
           speed := orNumber (asNumber (property padSettings "speed")) 1;
           balance := orNumber (asNumber (property padSettings "balance")) 0;
           echoDelay := match property padSettings "echoDelay" with
                        | Some v => asNumber (Some v)
                        | None => Some (1 # 10)
                        end;
           echoFeedback := Some (orNumber (asNumber (property padSettings "echoFeedback")) 0);
           volume := match property padSettings "volume" with
                     | Some v => asNumber (Some v)
                     | None => Some (75 # 100)
                     end;
           color := asString (property padSettings "color");
           loop := asBool (property padSettings "loop");
           audioBlob :=
             if default false (truthy <$> property padSettings "hasAudio")
             then zipFiles zip !! String.append "pad-" (String.append id ".webm")
             else None |}
      else defaultPad id
  | None => defaultPad id
  end.

(** [importData]: the result of the promise and the state it leaves. *)
Definition importData (file : File) (e : Engine) : (ImportError + unit) * Engine :=
  if negb (endsWith (fileName file) ".zip")
  then (inl (thrown "Invalid file type. Please select a .zip file."), e)
  else
    match zipContent file with
    | None => (inl zipError, e)
    | Some zip =>
        match settingsJson zip with
        | None => (inl (thrown "Invalid export file: settings.json not found"), e)
        | Some None => (inl jsonSyntaxError, e)
        | Some (Some settings) =>
            if negb (truthy settings) || negb (typeofObject settings)
            then (inl (thrown "Invalid settings.json format"), e)
            else
              let e := match asStrings (property settings "_buttonOrder") with
                       | Some order => setButtonOrder order e
                       | None => e
                       end in
              let newAudioData : gmap string AudioData :=
                foldl (fun m i => <[decimal i := importPad settings zip i]> m) ∅ (seq 1 36) in
              let e := foldl (fun e '(_, (audio, url)) => stopAndRevoke e audio url) e
                         (map_to_list (cachedAudioRef e)) in
              let e := setCached ∅ e in
              (inr tt, setAudioData newAudioData e)
        end
    end.

(** *** Events *)

(** What can happen to the engine: a pad is triggered, a suspended call
    goes on, an element ends, an echo timer fires, a pad is edited or
    deleted, the sweep runs, the provider unmounts or cleans up, an archive
    is imported, the browser changes the state of the shared context. *)
Inductive Event :=
  | Trigger (env : Browser) (id : string)
  | Continue (env : Browser) (k : nat)
  | Ended (audio : nat)
  | TimerFired (audio : nat) (accepted : bool)
  | Edit (id : string) (data : PartialAudioData)
  | Delete (id : string)
  | Sweep
  | ForcedCleanup
  | Import (file : File)
  | ContextChanged (st : ContextState).

(** The provider together with the calls of [playAudio] that are
    suspended. *)
Record Session := mkSession {
  engine : Engine;
  pending : list Task
}.

(** A call has run up to a suspension or to its end. *)
Definition park (others : list Task) (p : Engine * option Task) : Session :=
  mkSession (fst p) (others ++ option_list (snd p)).

(** One event.  [Continue env k] lets the [k]-th suspended call go on;
    every other event leaves the suspended calls waiting. *)
Definition step (s : Session) (ev : Event) : Session :=
  match ev with
  | Trigger env id => park (pending s) (launch env id (engine s))
  | Continue env k =>
      match pending s !! k with
      | Some task => park (delete k (pending s)) (continue env task (engine s))
      | None => s
      end
  | Ended audio => mkSession (ended audio (engine s)) (pending s)
  | TimerFired audio accepted => mkSession (echoTimer audio accepted (engine s)) (pending s)
  | Edit id data => mkSession (updateAudioData id data (engine s)) (pending s)
  | Delete id => mkSession (handleDelete id (engine s)) (pending s)
  | Sweep => mkSession (performPeriodicCleanup (engine s)) (pending s)
  | ForcedCleanup => mkSession (forceCleanupAllAudio (engine s)) (pending s)
  | Import file => mkSession (snd (importData file (engine s))) (pending s)
  | ContextChanged st =>
      mkSession match audioContextRef (engine s) with
                | Some _ => setContext (Some st) (engine s)
                | None => engine s
                end (pending s)
  end.

(** The state of a freshly mounted provider. *)
Definition initial : Engine :=
  {| audioData := ∅; isPlaying := ∅; buttonOrder := map decimal (seq 1 36);
     outputDeviceId := EmptyString; audioInstancesRefs := ∅; audioContextRef := None;
     audioNodesRef := ∅; resourceCountRef := mkCount 0 0 0; cachedAudioRef := ∅;
     elements := ∅; liveUrls := ∅; nextAudio := 0; nextUrl := 0; timers := [] |}.

Definition session (events : list Event) : Session :=
  foldl step (mkSession initial []) events.

(** The provider after a sequence of events. *)
Definition run (events : list Event) : Engine := engine (session events).

End Engine.

(** ** Scenarios

    Concrete inputs on which the operations are run below. *)

Module Scenarios.
Import Codec Engine.

(** A two-channel buffer of two frames at 8 kHz. *)
Definition stereoBuffer : AudioBuffer :=
  {| sampleRate := 8000; bufferLength := 2;
     channels := [[1 # 2; -2 # 1]; [3 # 1; -1 # 3]]%Q |}.

(** Two recordings at 8 kHz, mono, as containers: 212.5 ms of a constant
    loud signal; and 50 ms of silence followed by 12.5 ms of that signal. *)
Definition wavOf (b : AudioBuffer) : Blob :=
  {| blobBytes := headerBytes (bufferLength b) (numberOfChannels b) (sampleRate b)
                  ++ pcmBytes 0 (bufferLength b) (channels b);
     blobType := "audio/wav" |}.

Definition loudClip : Blob :=
  wavOf {| sampleRate := 8000; bufferLength := 1700; channels := [replicate 1700 (1 # 2)%Q] |}.

Definition quietThenLoudClip : Blob :=
  wavOf {| sampleRate := 8000; bufferLength := 500;
           channels := [replicate 400 0%Q ++ replicate 100 (1 # 2)%Q] |}.

(** 150 ms of digital silence, and a click followed by 110 ms of silence
    and 40 ms of signal, both mono at 8 kHz. *)
Definition silentClip : Blob :=
  wavOf {| sampleRate := 8000; bufferLength := 1200; channels := [replicate 1200 0%Q] |}.

Definition clickClip : Blob :=
  wavOf {| sampleRate := 8000; bufferLength := 1200;
           channels := [[(1 # 2)%Q] ++ replicate 879 0%Q ++ replicate 320 (1 # 2)%Q] |}.

(** A recorded clip (its content plays no role in the engine). *)
Definition clip : Blob := {| blobBytes := [82; 73; 70; 70]%Z; blobType := "audio/wav" |}.

(** A browser that grants everything, with a running audio context. *)
Definition browser : Browser :=
  {| createContext := Some running; resumeOk := true; sinkOk := true;
     wiringOk := true; playOk := true; retryOk := true |}.

(** What the edit dialog saves for a pad with a clip, echo delay 0.2 s and
    the given feedback, volume 1, centred, not looping. *)
Definition echoPad (feedback : Q) : PartialAudioData :=
  {| p_name := Given "Kick"; p_audioBlob := Given clip; p_speed := Given 1%Q;
     p_balance := Given 0%Q; p_echoDelay := Given (2 # 10)%Q;
     p_echoFeedback := Given feedback; p_volume := Given 1%Q;
     p_color := Given "slate"; p_loop := Given false |}.

(** The same for a looping pad without echo. *)
Definition loopPad : PartialAudioData :=
  {| p_name := Given "Drone"; p_audioBlob := Given clip; p_speed := Given 1%Q;
     p_balance := Given 0%Q; p_echoDelay := Given 0%Q;
     p_echoFeedback := Given 0%Q; p_volume := Given 1%Q;
     p_color := Given "slate"; p_loop := Given true |}.

(** An archive named [pads.zip] whose [settings.json] holds the JSON
    array [[]]. *)
Definition arrayArchive : File :=
  {| fileName := "pads.zip";
     zipContent := Some {| settingsJson := Some (Some (JArr [])); zipFiles := ∅ |} |}.

(** An archive in which pad 2 loops and carries the volume -0.5, with its
    clip. *)
Definition invertedArchive : File :=
  {| fileName := "inverted.zip";
     zipContent :=
       Some {| settingsJson :=
                 Some (Some (JObj [("2", JObj [("name", JStr "Drone");
                                               ("volume", JNum (-(1 # 2)));
                                               ("loop", JBool true);
                                               ("hasAudio", JBool true)])]));
               zipFiles := {["pad-2.webm" := clip]} |} |}.

(** A browser whose [AudioContext] constructor throws. *)
Definition noContext : Browser :=
  {| createContext := None; resumeOk := true; sinkOk := true;
     wiringOk := true; playOk := true; retryOk := true |}.

(** A browser with a running audio context that rejects [play], as under
    an autoplay policy. *)
Definition playRejected : Browser :=
  {| createContext := Some running; resumeOk := true; sinkOk := true;
     wiringOk := true; playOk := false; retryOk := false |}.

End Scenarios.

(** ** Observations

    The parts of the state and the predicates the properties below are
    stated with. *)

Module Observations.
Import Codec Engine.

(** Everything except the browser's element store and URL store. *)
Definition skeleton (e : Engine) :=
  (audioData e, isPlaying e, buttonOrder e, outputDeviceId e, audioInstancesRefs e,
   audioContextRef e, audioNodesRef e, resourceCountRef e, cachedAudioRef e,
   nextAudio e, nextUrl e, timers e).

(** The counters of the ledger are non-negative. *)
Definition nonnegative (c : ResourceCount) : Prop :=
  (0 <= audioElements c)%Z /\ (0 <= audioNodes c)%Z /\ (0 <= objectUrls c)%Z.

Definition ledgerOk (e : Engine) : Prop := nonnegative (resourceCountRef e).

(** What eviction never touches. *)
Definition shell (e : Engine) :=
  (audioData e, isPlaying e, buttonOrder e, outputDeviceId e, audioContextRef e,
   cachedAudioRef e, nextAudio e, nextUrl e, timers e).

Definition live (e : Engine) (audio : nat) : Prop := is_Some (elements e !! audio).

(** The part of the state the cached path reports on. *)
Definition view (e : Engine) :=
  (isPlaying e, cachedAudioRef e, audioInstancesRefs e, elements e).

End Observations.

(** ** Further predicates *)

Module Predicates.
Import Codec Engine Observations.

(** Every channel of the buffer has as many samples as channel 0, as in
    every [AudioBuffer] the platform builds. *)
Definition uniform (b : AudioBuffer) : Prop :=
  match channels b with
  | [] => True
  | channelData :: _ => Forall (fun ch => length ch = length channelData) (channels b)
  end.

(** A first channel that [trimSilence] finds nothing to cut from: its
    first sample above the threshold lies after the start and before
    50 ms; or no sample, or the very first one, is above the threshold and
    the channel is at most 100 ms long (or the rate is so low that 100 ms
    hold no frame). *)
Definition settled (rate : Z) (channelData : list Q) : bool :=
  match firstLoud 0 channelData with
  | Some (S j) => (20 * Z.of_nat (S j) <? rate)%Z
  | _ => (10 * Z.of_nat (length channelData) <=? rate)%Z || (rate <? 10)%Z
  end.

(** A byte. *)
Definition isByte (x : Z) : Prop := (0 <= x < 256)%Z.

(** What an element created by the echo loop for index [i] looks like. *)
Definition echoElement (data : AudioData) (id : string) (i : nat) (a : AudioElement) : Prop :=
  elementVolume a = Qmin (echoVolume data i) 1
  /\ elementLoop a = false
  /\ paused a = true
  /\ currentTime a = 0%Q
  /\ playbackRate a = speed data
  /\ onended a = Some (echoEnded id).

(** The most instances a slot's list can hold: the seven that survive
    [limitAudioInstances] and the seven of the longest echo burst. *)
Definition slotBound : nat := (maxInstances - 1 + 7)%nat.

Definition capped (m : gmap string (list nat)) : Prop :=
  map_Forall (fun _ l => (length l <= slotBound)%nat) m.

(** No list appears and no list grows. *)
Definition shrinks (m m' : gmap string (list nat)) : Prop :=
  forall id l', m' !! id = Some l' ->
    exists l, m !! id = Some l /\ (length l' <= length l)%nat.

(** The element exists and is paused. *)
Definition pausedAt (e : Engine) (audio : nat) : Prop :=
  exists a, elements e !! audio = Some a /\ paused a = true.

(** The element exists, is paused and stands at time 0. *)
Definition stoppedAt (e : Engine) (audio : nat) : Prop :=
  exists a, elements e !! audio = Some a /\ paused a = true /\ currentTime a = 0%Q.

(** [e'] still holds every element of [e], with the same source, paused
    where it was paused and at time 0 where it stood there, and no URL has
    become live. *)
Definition quieter (e e' : Engine) : Prop :=
  (forall h a, elements e !! h = Some a ->
     exists a', elements e' !! h = Some a' /\ src a' = src a
       /\ (paused a = true -> paused a' = true)
       /\ (currentTime a = 0%Q -> currentTime a' = 0%Q))
  /\ (forall url, url ∈ liveUrls e' -> url ∈ liveUrls e).

(** The element exists and has the given source URL. *)
Definition sourcedAt (url : nat) (e : Engine) (audio : nat) : Prop :=
  exists a, elements e !! audio = Some a /\ src a = url.

(** Everything except the audio context. *)
Definition besidesContext (e : Engine) :=
  (audioData e, isPlaying e, buttonOrder e, outputDeviceId e, audioInstancesRefs e,
   audioNodesRef e, resourceCountRef e, cachedAudioRef e, elements e, liveUrls e,
   nextAudio e, nextUrl e, timers e).

(** What the cached path leaves of an element [a]: same source and
    position, the slot's rate, volume (capped at 1) and loop flag, the
    cached handler, and running if the browser accepted [play]. *)
Definition configured (env : Browser) (id : string) (data : AudioData)
  (a a' : AudioElement) : Prop :=
  src a' = src a
  /\ currentTime a' = currentTime a
  /\ playbackRate a' = speed data
  /\ elementVolume a' = Qmin (orNumber (volume data) 1) 1
  /\ elementLoop a' = default false (loop data)
  /\ onended a' = Some (cachedEnded id)
  /\ (playOk env = true -> paused a' = false).

(** The state after the three property writes of the cached path, for a
    volume the setter accepts. *)
Definition configuredState (data : AudioData) (audio : nat) (e : Engine) : Engine :=
  setLoop (default false (loop data)) audio
    (setVolume (Qmin (orNumber (volume data) 1) 1) audio
       (setPlaybackRate (speed data) audio e)).

(** The audio context [playAudio] works with once it has set it up: the
    existing one or a newly constructed one, running if it was suspended
    and [resume] succeeded. *)
Definition contextAtHand (env : Browser) (e : Engine) : option ContextState :=
  match match audioContextRef e with
        | Some st => Some st
        | None => createContext env
        end with
  | Some suspended => Some (if resumeOk env then running else suspended)
  | st => st
  end.

(** The handles the engine keeps refer to existing elements, and every
    existing element was handed out by the allocation counter. *)
Definition tracked (e : Engine) : Prop :=
  (forall id audio url, cachedAudioRef e !! id = Some (audio, url) -> live e audio)
  /\ (forall id instances audio,
        audioInstancesRefs e !! id = Some instances -> audio ∈ instances -> live e audio)
  /\ (forall audio, live e audio -> (audio < nextAudio e)%nat).

(** The element a suspended call holds, if it will register it, exists. *)
Definition taskLive (e : Engine) (task : Task) : Prop :=
  match task with
  | awaitingEchoSink _ _ _ _ audio | awaitingCachedSink _ _ _ _ audio => live e audio
  | _ => True
  end.

(** The part of the state [tracked] speaks about. *)
Definition core (e : Engine) :=
  (cachedAudioRef e, audioInstancesRefs e, nextAudio e, elements e).

End Predicates.

(** ** Further scenarios *)

Module Fixtures.
Import Codec Engine Scenarios.

(** Two channels at 8 kHz: 50 ms of silence followed by 12.5 ms of signal
    on channel 0, a constant signal on channel 1. *)
Definition quietThenLoudBuffer : AudioBuffer :=
  {| sampleRate := 8000; bufferLength := 500;
     channels := [replicate 400 0%Q ++ replicate 100 (1 # 2)%Q; replicate 500 (1 # 4)%Q] |}.

Definition loudTail : AudioBuffer :=
  {| sampleRate := 8000; bufferLength := 100;
     channels := [replicate 100 (1 # 2)%Q; replicate 100 (1 # 4)%Q] |}.

(** Pad 1 with echo (feedback 0.5), triggered twice in a running browser
    before any echo has ended: fourteen instances, each with its node set. *)
Definition busySlot : Engine :=
  run [Edit "1" (echoPad (5 # 10)); Trigger browser "1"; Trigger browser "1"].

(** Pad 1 with echo (feedback 0.3), triggered once: five instances. *)
Definition echoing : Engine :=
  run [Edit "1" (echoPad (3 # 10)); Trigger browser "1"].

(** 125 ms of digital silence at 8 kHz, mono. *)
Definition silentBuffer : AudioBuffer :=
  {| sampleRate := 8000; bufferLength := 1000; channels := [replicate 1000 0%Q] |}.

(** What the edit dialog saves for a pad with a clip panned half right,
    without echo, not looping. *)
Definition pannedPad : PartialAudioData :=
  {| p_name := Given "Snare"; p_audioBlob := Given clip; p_speed := Given 1%Q;
     p_balance := Given (1 # 2)%Q; p_echoDelay := Given 0%Q;
     p_echoFeedback := Given 0%Q; p_volume := Given 1%Q;
     p_color := Given "rose"; p_loop := Given false |}.

(** Pad 3 as stored after that save. *)
Definition snare : AudioData :=
  {| padId := "3"; name := "Snare"; audioBlob := Some clip; speed := 1;
     balance := 1 # 2; echoDelay := Some 0%Q; echoFeedback := Some 0%Q;
     volume := Some 1%Q; color := Some "rose"; loop := Some false |}.

(** A browser that hands out a suspended audio context, as browsers do
    before the first user gesture, and resumes it when asked. *)
Definition stalled : Browser :=
  {| createContext := Some suspended; resumeOk := true; sinkOk := true;
     wiringOk := true; playOk := true; retryOk := true |}.

(** Pad 1 with echo (feedback 0.5) is triggered three times while the
    context is suspended; then the three calls go on, one after the
    other. *)
Definition overlapping : list Event :=
  [Edit "1" (echoPad (5 # 10)); Trigger stalled "1"; Trigger stalled "1"; Trigger stalled "1";
   Continue browser 0; Continue browser 0; Continue browser 0].

End Fixtures.

(** ** The edit dialog

    The form state of [AudioEditModal] (audio-edit-modal.tsx), the effect
    that fills it when the dialog opens, and [handleSave]. *)

Module Dialog.
Import Codec Engine.

Record Form := mkForm {
  f_name : string;
  f_speed : Q;
  f_balance : Q;
  f_echoDelay : Q;
  f_echoFeedback : Q;
  f_volume : Q;
  f_color : string;
  f_loop : bool;
  f_audioBlob : option Blob
}.

(** The [useEffect] on [isOpen]: every setter is called with the value of
    the [currentData] prop or, when that is falsy, a default. *)
Definition openForm (padId : string) (currentData : option AudioData) : Form :=
  {| f_name := orString (name <$> currentData) (padName padId);
     f_speed := orNumber (speed <$> currentData) 1;
     f_balance := orNumber (balance <$> currentData) 0;
     f_echoDelay := orNumber (currentData ≫= echoDelay) 0;
     f_echoFeedback := orNumber (currentData ≫= echoFeedback) 0;
     f_volume := orNumber (currentData ≫= volume) 1;
     f_color := orString (currentData ≫= color) "slate";
     f_loop := default false (currentData ≫= loop);
     f_audioBlob := currentData ≫= audioBlob |}.

(** The object literal of [handleSave]: every property is written, and
    [audioBlob] holds [undefined] when the form has no clip. *)
Definition savePayload (form : Form) : PartialAudioData :=
  {| p_name := Given (f_name form);
     p_speed := Given (f_speed form);
     p_balance := Given (f_balance form);
     p_echoDelay := Given (f_echoDelay form);
     p_echoFeedback := Given (f_echoFeedback form);
     p_volume := Given (f_volume form);
     p_color := Given (f_color form);
     p_loop := Given (f_loop form);
     p_audioBlob := match f_audioBlob form with
                    | Some blob => Given blob
                    | None => Undefined
                    end |}.

Definition handleSave (padId : string) (form : Form) (e : Engine) : Engine :=
  updateAudioData padId (savePayload form) e.

(** The dialog opened on the slot's stored data and saved as it is. *)
Definition reopenAndSave (padId : string) (e : Engine) : Engine :=
  handleSave padId (openForm padId (audioData e !! padId)) e.

End Dialog.

(** ** Archive export

    [exportData] (audio-provider.tsx): the archive it builds, as the
    import reads it back.  [JSON.stringify] followed by [JSON.parse] gives
    the settings object without the properties whose value is [undefined];
    an audio entry comes back with its bytes and no MIME type. *)

Module Archive.
Import Codec Engine.

(** A property that [JSON.stringify] writes only when it is defined. *)
Definition optional {A : Type} (key : string) (wrap : A -> JValue) (x : option A)
  : list (string * JValue) :=
  match x with
  | Some v => [(key, wrap v)]
  | None => []
  end.

(** [!!data.audioBlob] *)
Definition hasAudio (data : AudioData) : bool :=
  match audioBlob data with
  | Some _ => true
  | None => false
  end.

(** [settings[id]] as written for one pad. *)
Definition padSettings (data : AudioData) : JValue :=
  JObj ([("id", JStr (padId data)); ("name", JStr (name data));
         ("speed", JNum (speed data)); ("balance", JNum (balance data))]
        ++ optional "echoDelay" JNum (echoDelay data)
        ++ optional "echoFeedback" JNum (echoFeedback data)
        ++ optional "volume" JNum (volume data)
        ++ optional "color" JStr (color data)
        ++ optional "loop" JBool (loop data)
        ++ [("hasAudio", JBool (hasAudio data))]).

(** [`pad-${id}.webm`] *)
Definition audioFileName (id : string) : string :=
  String.append "pad-" (String.append id ".webm").

(** An archive entry read back as a blob. *)
Definition stored (blob : Blob) : Blob := {| blobBytes := blobBytes blob; blobType := "" |}.

(** The loop over [Object.entries(audioData)]: the settings members and
    the audio entries it adds, and the count of audio files. *)
Definition exportEntries (e : Engine) : list (string * JValue) :=
  (fun '(id, data) => (id, padSettings data)) <$> map_to_list (audioData e).

Definition exportFiles (e : Engine) : gmap string Blob :=
  foldl (fun files '(id, data) =>
           match audioBlob data with
           | Some blob => <[audioFileName id := stored blob]> files
           | None => files
           end) ∅ (map_to_list (audioData e)).

Definition audioFileCount (e : Engine) : nat :=
  length (filter (fun entry => hasAudio (snd entry) = true) (map_to_list (audioData e))).

(** The settings object: the pads, then [_buttonOrder] and [_metadata]. *)
Definition exportSettings (exportDate : string) (e : Engine) : JValue :=
  JObj (exportEntries e
        ++ [("_buttonOrder", JArr (JStr <$> buttonOrder e));
            ("_metadata",
             JObj [("exportDate", JStr exportDate); ("version", JStr "1.0");
                   ("totalPads", JNum 36);
                   ("padsWithAudio", JNum (inject_Z (Z.of_nat (audioFileCount e))));
                   ("padsWithSettings",
                    JNum (inject_Z (Z.of_nat (length (map_to_list (audioData e))))))])]).

(** [s.split("T")[0]] *)
Fixpoint beforeT (s : string) : string :=
  match s with
  | EmptyString => EmptyString
  | String c rest => if Ascii.eqb c "T" then EmptyString else String c (beforeT rest)
  end.

(** [exportData]: the file offered for download.  [exportDate] and
    [downloadDate] are the two readings of [new Date().toISOString()]. *)
Definition exportData (exportDate downloadDate : string) (e : Engine) : File :=
  {| fileName := String.append "sound-pad-mixer-" (String.append (beforeT downloadDate) ".zip");
     zipContent := Some {| settingsJson := Some (Some (exportSettings exportDate e));
                           zipFiles := exportFiles e |} |}.

End Archive.

(** ** The layout

    [reorderButtons] (audio-provider.tsx) and what the grid shows at a
    position (sound-pad-button.tsx). *)

Module Layout.
Import Codec Engine.

(** [name.startsWith("Pad ")] *)
Definition startsWithPad (s : string) : bool := String.prefix "Pad " s.

(** [{ ...other, id, name: ... }]: the entry written under [id] from the
    data of the other pad. *)
Definition moved (id : string) (other : AudioData) : AudioData :=
  {| padId := id;
     name := match name other with
             | EmptyString => padName id
             | n => if startsWithPad n then padName id else n
             end;
     audioBlob := audioBlob other;
     speed := speed other;
     balance := balance other;
     echoDelay := echoDelay other;
     echoFeedback := echoFeedback other;
     volume := volume other;
     color := color other;
     loop := loop other |}.

(** [reorderButtons].  Both indices are positions of the grid and both
    pads have an entry in every call the grid makes; where that fails the
    JavaScript code stores [undefined] in the order or an entry without
    settings, which the state type does not hold: [None]. *)
Definition reorderButtons (fromIndex toIndex : nat) (e : Engine) : option Engine :=
  if (fromIndex =? toIndex)%nat then Some e
  else
    match buttonOrder e !! fromIndex, buttonOrder e !! toIndex with
    | Some fromId, Some toId =>
        match audioData e !! fromId, audioData e !! toId with
        | Some fromData, Some toData =>
            let rest := delete fromIndex (buttonOrder e) in
            let newOrder := take toIndex rest ++ fromId :: drop toIndex rest in
            Some (setButtonOrder newOrder
                    (setAudioData (<[toId := moved toId fromData]>
                                     (<[fromId := moved fromId toData]> (audioData e))) e))
        | _, _ => None
        end
    | _, _ => None
    end.

(** The data behind the button the grid renders at [index]:
    [audioData[buttonOrder[index]]]. *)
Definition padAt (e : Engine) (index : nat) : option AudioData :=
  buttonOrder e !! index ≫= fun id => audioData e !! id.

(** What a pad plays and how, apart from its id and name. *)
Definition content (data : AudioData) :=
  (audioBlob data, speed data, balance data, echoDelay data, echoFeedback data,
   volume data, color data, loop data).

End Layout.

(** ** Start-up

    The default pad table (scripts/update-meditation-pads) and [loadData],
    the effect the provider runs when it mounts (audio-provider.tsx). *)

Module Startup.
Import Codec Engine.

Record PadConfig := mkPadConfig {
  c_name : string;
  c_color : option string;
  c_volume : Q;
  c_balance : Q;
  c_echoDelay : Q;
  c_echoFeedback : Q
}.

Definition rowColors : list string := ["slate"; "rose"; "blue"; "green"; "amber"; "slate"].

(** The table built by the loop over [1 .. 36]; [row] is
    [Math.floor((i - 1) / 6)]. *)
Definition meditationPads : gmap string PadConfig :=
  foldl (fun m i =>
           let row := ((i - 1) / 6)%nat in
           <[decimal i := {| c_name := padName (decimal i);
                             c_color := rowColors !! row;
                             c_volume := 75 # 100;
                             c_balance := 0;
                             c_echoDelay := 1 # 10;
                             c_echoFeedback := 0 |}]> m)
    ∅ (seq 1 36).

(** [a ?? b] *)
Definition orElse {A : Type} (a : option A) (b : A) : A :=
  match a with
  | Some v => v
  | None => b
  end.

(** [Object.keys(savedData).length > 0] *)
Definition hasSavedData (savedData : gmap string AudioData) : bool :=
  negb (bool_decide (map_to_list savedData = [])).

(** One turn of the loop of [loadData]. *)
Definition loadPad (savedData : gmap string AudioData) (i : nat) : AudioData :=
  let id := decimal i in
  let meditationConfig := meditationPads !! id in
  let existingData := if hasSavedData savedData then savedData !! id else None in
  {| padId := id;
     name := orString (name <$> existingData)
               (orString (c_name <$> meditationConfig) (padName id));
     speed := orNumber (speed <$> existingData) 1;
     balance := orElse (balance <$> existingData) (orElse (c_balance <$> meditationConfig) 0%Q);
     echoDelay := Some (orElse (existingData ≫= echoDelay)
                          (orElse (c_echoDelay <$> meditationConfig) (1 # 10)%Q));
     echoFeedback := Some (orElse (existingData ≫= echoFeedback)
                             (orElse (c_echoFeedback <$> meditationConfig) 0%Q));
     volume := Some (orElse (existingData ≫= volume)
                       (orElse (c_volume <$> meditationConfig) (75 # 100)%Q));
     color := match existingData ≫= color with
              | Some EmptyString | None => meditationConfig ≫= c_color
              | Some c => Some c
              end;
     loop := existingData ≫= loop;
     audioBlob := existingData ≫= audioBlob |}.

(** [loadData]: [savedData] is what [loadFromLocalStorage] returned and
    [savedOrder] the stored button order when it is present and parses
    to an array of strings. *)
Definition loadData (savedData : gmap string AudioData) (savedOrder : option (list string))
  (e : Engine) : Engine :=
  let updatedData : gmap string AudioData :=
    foldl (fun m i => <[decimal i := loadPad savedData i]> m) ∅ (seq 1 36) in
  let e := setAudioData updatedData e in
  match savedOrder with
  | Some order => if (length order =? 36)%nat then setButtonOrder order e else e
  | None => e
  end.

End Startup.

(** ** Output device

    [setOutputDeviceId] (audio-provider.tsx): the selected device becomes
    part of the state (and is written to local storage). *)

Module Devices.
Import Codec Engine.

Definition setOutputDeviceId (deviceId : string) (e : Engine) : Engine :=
  mkEngine (audioData e) (isPlaying e) (buttonOrder e) deviceId (audioInstancesRefs e)
    (audioContextRef e) (audioNodesRef e) (resourceCountRef e) (cachedAudioRef e)
    (elements e) (liveUrls e) (nextAudio e) (nextUrl e) (timers e).

End Devices.

(** ** Further inputs *)

Module Cases.
Import Codec Engine Scenarios Dialog Archive Layout Startup Devices.

(** A form as the dialog holds it after a recording: volume 1.5, panned
    left, looping. *)
Definition droneForm : Form :=
  {| f_name := "Drone"; f_speed := 1; f_balance := -(1 # 2); f_echoDelay := 0;
     f_echoFeedback := 0; f_volume := 3 # 2; f_color := "blue"; f_loop := true;
     f_audioBlob := Some clip |}.

(** An archive with settings for pads 1 and 2 and a stored order; both
    pads announce a clip, and the archive holds the one of pad 1 only. *)
Definition sessionArchive : File :=
  {| fileName := "session.zip";
     zipContent :=
       Some {| settingsJson :=
                 Some (Some (JObj [("1", JObj [("name", JStr "Kick"); ("speed", JNum 1);
                                               ("hasAudio", JBool true)]);
                                   ("2", JObj [("name", JStr "Hat"); ("hasAudio", JBool true)]);
                                   ("_buttonOrder", JArr [JStr "2"; JStr "1"])]));
               zipFiles := {["pad-1.webm" := clip]} |} |}.

(** Pads 1 and 2 saved from the dialog, pad 1 with echo and pad 2 as a
    loop. *)
Definition twoPads : Engine := run [Edit "1" (echoPad (3 # 10)); Edit "2" loopPad].

(** The two pads with an output device selected. *)
Definition routed : Engine := setOutputDeviceId "speakers" twoPads.

End Cases.

(** ** Properties of the codec *)

Module CodecProofs.
Import Codec Scenarios Predicates.

Lemma setUint16_app (pre post : list Z) (a b v : Z) :
  setUint16 (length pre) v (pre ++ a :: b :: post) = Some (pre ++ le16 v ++ post).
Proof.
  unfold setUint16.
  assert (Hlen : (length pre + 2 <=? length (pre ++ a :: b :: post))%nat = true).
  { apply Nat.leb_le. rewrite length_app. simpl. lia. }
  rewrite Hlen. f_equal.
  replace (length pre) with (length pre + 0)%nat at 2 by lia.
  rewrite insert_app_r. simpl.
  replace (S (length pre)) with (length pre + 1)%nat by lia.
  rewrite insert_app_r. reflexivity.
Qed.

Lemma writeHeader_layout (n c : nat) (rate : Z) (rest : list Z) :
  writeHeader n c rate (replicate 44 0%Z ++ rest) = Some (headerBytes n c rate ++ rest).
Proof.
  unfold writeHeader, headerBytes, le32, le16.
  cbn. reflexivity.
Qed.

Lemma frameBytes_length (chans : list (list Q)) (i : nat) :
  length (frameBytes chans i) = (2 * length chans)%nat.
Proof.
  unfold frameBytes. induction chans as [|ch chans IH]; simpl; [reflexivity|].
  rewrite IH. lia.
Qed.

Lemma pcmBytes_length (first count : nat) (chans : list (list Q)) :
  length (pcmBytes first count chans) = (count * (2 * length chans))%nat.
Proof.
  unfold pcmBytes. revert first.
  induction count as [|count IH]; intros first; simpl; [reflexivity|].
  rewrite length_app, frameBytes_length, IH. lia.
Qed.

(** One pass of the inner loop fills the next [2 * channels] zero bytes
    with the frame. *)
Lemma writeFrame_layout (i : nat) (chans : list (list Q)) (pre post : list Z) :
  writeFrame i chans (length pre) (pre ++ replicate (2 * length chans) 0%Z ++ post)
  = Some ((length pre + 2 * length chans)%nat, pre ++ frameBytes chans i ++ post).
Proof.
  revert pre. induction chans as [|ch chans IH]; intros pre.
  - simpl. do 2 f_equal. lia.
  - cbn [writeFrame length]. unfold setInt16.
    replace (2 * S (length chans))%nat with (S (S (2 * length chans))) by lia.
    cbn [replicate app].
    rewrite setUint16_app. cbn [mbind option_bind].
    replace (length pre + 2)%nat with (length (pre ++ le16 (pcm16 (getSample ch (Z.of_nat i)))))
      by (rewrite length_app; reflexivity).
    rewrite (app_assoc pre (le16 _)).
    rewrite IH. f_equal. f_equal.
    + rewrite length_app. simpl. lia.
    + unfold frameBytes. simpl. rewrite <- !app_assoc. reflexivity.
Qed.

Lemma writeFrames_layout (count i : nat) (chans : list (list Q)) (pre post : list Z) :
  writeFrames count i chans (length pre)
    (pre ++ replicate (count * (2 * length chans)) 0%Z ++ post)
  = Some ((length pre + count * (2 * length chans))%nat,
          pre ++ pcmBytes i count chans ++ post).
Proof.
  revert i pre. induction count as [|count IH]; intros i pre.
  - simpl. do 2 f_equal. lia.
  - cbn [writeFrames].
    replace (S count * (2 * length chans))%nat
      with (2 * length chans + count * (2 * length chans))%nat by lia.
    rewrite replicate_add, <- app_assoc.
    rewrite writeFrame_layout. cbn [mbind option_bind].
    replace (length pre + 2 * length chans)%nat with (length (pre ++ frameBytes chans i))
      by (rewrite length_app, frameBytes_length; reflexivity).
    rewrite (app_assoc pre (frameBytes chans i)).
    rewrite IH. f_equal. f_equal.
    + rewrite length_app, frameBytes_length. lia.
    + unfold pcmBytes. simpl. rewrite <- !app_assoc. reflexivity.
Qed.

(** The encoder never runs off its buffer, and what it writes is the
    layout above. *)
Lemma bufferToWav_layout (b : AudioBuffer) :
  bufferToWav b
  = Some {| blobBytes := headerBytes (bufferLength b) (numberOfChannels b) (sampleRate b)
                         ++ pcmBytes 0 (bufferLength b) (channels b);
            blobType := "audio/wav" |}.
Proof.
  unfold bufferToWav, numberOfChannels.
  rewrite replicate_add, writeHeader_layout. cbn [mbind option_bind].
  pose proof (writeFrames_layout (bufferLength b) 0 (channels b)
                (headerBytes (bufferLength b) (length (channels b)) (sampleRate b)) []) as H.
  rewrite !app_nil_r in H.
  replace (bufferLength b * length (channels b) * 2)%nat
    with (bufferLength b * (2 * length (channels b)))%nat by lia.
  change 44%nat with (length (headerBytes (bufferLength b) (length (channels b)) (sampleRate b))) at 1.
  rewrite H. reflexivity.
Qed.

(** Reading back what the little-endian writers stored. *)
Lemma le16_value (v : Z) :
  (v mod 256 + 256 * ((v / 256) mod 256) = v mod 65536)%Z.
Proof. Z.div_mod_to_equations. lia. Qed.

Lemma le32_value (v : Z) :
  (0 <= v < 4294967296)%Z ->
  (v mod 256 + 256 * ((v / 256) mod 256) + 65536 * ((v / 65536) mod 256)
   + 16777216 * ((v / 16777216) mod 256) = v)%Z.
Proof. intros Hv. Z.div_mod_to_equations. lia. Qed.

Lemma getInt16_le16 (v : Z) (rest : list Z) :
  (-32768 <= v < 32768)%Z -> getInt16 (le16 v ++ rest) 0 = v.
Proof.
  intros Hv. unfold getInt16, getUint16, byteAt, le16. cbn [nth app].
  rewrite le16_value.
  destruct (Z.ltb_spec (v mod 65536) 32768); Z.div_mod_to_equations; lia.
Qed.

Lemma clamp_range (x : Q) : (-1 <= clamp x /\ clamp x <= 1)%Q.
Proof.
  unfold clamp. split.
  - apply Q.le_max_l.
  - apply Q.max_lub; [discriminate|]. apply Q.le_min_l.
Qed.

Lemma truncate_range (x : Q) (k : Z) :
  (0 <= k)%Z -> (inject_Z (- k) <= x /\ x <= inject_Z k)%Q ->
  (- k <= truncate x <= k)%Z.
Proof.
  intros Hk [Hlo Hhi]. unfold truncate, Qle in *. simpl in *.
  destruct x as [a d]. simpl in *.
  rewrite Z.mul_1_r in Hlo, Hhi.
  split.
  - rewrite <- (Z.quot_mul (- k) (Z.pos d)) by lia.
    apply Z.quot_le_mono; lia.
  - rewrite <- (Z.quot_mul k (Z.pos d)) by lia.
    apply Z.quot_le_mono; lia.
Qed.

Lemma pcm16_range (x : Q) : (-32767 <= pcm16 x <= 32767)%Z.
Proof.
  unfold pcm16. apply (truncate_range _ 32767); [lia|].
  destruct (clamp_range x) as [Hlo Hhi]. split.
  - apply Qle_trans with ((-1) * (32767 # 1))%Q; [discriminate|].
    apply Qmult_le_compat_r; [exact Hlo | discriminate].
  - apply Qle_trans with (1 * (32767 # 1))%Q; [|discriminate].
    apply Qmult_le_compat_r; [exact Hhi | discriminate].
Qed.

(** Indexing a concatenation of equally long chunks. *)
Lemma nth_flat_map_chunk {A B : Type} (f : A -> list B) (k : nat) (l : list A)
  (j r : nat) (a : A) (d : B) :
  (forall x, length (f x) = k) -> (j < length l)%nat -> (r < k)%nat ->
  nth (j * k + r) (flat_map f l) d = nth r (f (nth j l a)) d.
Proof.
  intros Hk. revert j. induction l as [|x l IH]; intros j Hj Hr; simpl in Hj; [lia|].
  destruct j as [|j]; simpl.
  - apply app_nth1. rewrite Hk. exact Hr.
  - rewrite <- (Hk x) at 1. rewrite <- Nat.add_assoc, app_nth2_plus.
    apply IH; lia.
Qed.

(** The bytes of sample [(i, ch)] inside the data section. *)
Lemma pcmBytes_sample (n : nat) (chans : list (list Q)) (i ch r : nat) :
  (i < n)%nat -> (ch < length chans)%nat -> (r < 2)%nat ->
  nth (2 * (i * length chans + ch) + r) (pcmBytes 0 n chans) 0%Z
  = nth r (le16 (pcm16 (getSample (nth ch chans []) (Z.of_nat i)))) 0%Z.
Proof.
  intros Hi Hch Hr. unfold pcmBytes.
  replace (2 * (i * length chans + ch) + r)%nat
    with (i * (2 * length chans) + (ch * 2 + r))%nat by lia.
  rewrite (nth_flat_map_chunk _ (2 * length chans) _ _ _ 0%nat);
    [ | intros; apply frameBytes_length | rewrite length_seq; exact Hi | lia ].
  rewrite seq_nth by exact Hi. simpl. unfold frameBytes.
  rewrite (nth_flat_map_chunk _ 2 _ _ _ []); [reflexivity | reflexivity | exact Hch | exact Hr].
Qed.

Lemma getInt16_sample (n : nat) (chans : list (list Q)) (hdr : list Z) (i ch : nat) :
  length hdr = 44%nat -> (i < n)%nat -> (ch < length chans)%nat ->
  getInt16 (hdr ++ pcmBytes 0 n chans) (44 + 2 * (i * length chans + ch))
  = pcm16 (getSample (nth ch chans []) (Z.of_nat i)).
Proof.
  intros Hh Hi Hch.
  pose proof (pcm16_range (getSample (nth ch chans []) (Z.of_nat i))) as Hr.
  transitivity (getInt16 (le16 (pcm16 (getSample (nth ch chans []) (Z.of_nat i))) ++ []) 0);
    [|apply getInt16_le16; lia].
  unfold getInt16, getUint16, byteAt. rewrite <- Hh, app_nil_r.
  replace (S (length hdr + 2 * (i * length chans + ch)))
    with (length hdr + (2 * (i * length chans + ch) + 1))%nat by lia.
  replace (length hdr + 2 * (i * length chans + ch))%nat
    with (length hdr + (2 * (i * length chans + ch) + 0))%nat by lia.
  rewrite !app_nth2_plus.
  rewrite !(pcmBytes_sample n chans i ch) by (assumption || lia).
  reflexivity.
Qed.



(** *** trimSilence *)

Lemma startSample_loud_short (rate : Z) (x : Q) (tl : list Q) :
  isLoud x = true ->
  (10 * Z.of_nat (length (x :: tl)) <= rate)%Z ->
  startSample rate (x :: tl) = 0%Z.
Proof.
  intros Hx Hlen. unfold startSample. cbn [firstLoud]. rewrite Hx.
  change (Z.of_nat 0 =? 0)%Z with true. cbn [andb].
  revert Hlen. generalize (Z.of_nat (length (x :: tl))). intros len Hlen.
  assert (Hle : Qle_bool (inject_Z len) (inject_Z rate * (1 # 10)) = true).
  { apply Qle_bool_iff. unfold Qle. simpl. lia. }
  rewrite Hle. reflexivity.
Qed.

Lemma belowNoop_zero (rate : Z) : (0 < rate)%Z -> belowNoop rate 0 = true.
Proof.
  intros Hr. unfold belowNoop.
  destruct (Qle_bool (inject_Z rate * (5 # 100)) (inject_Z 0)) eqn:E; [|reflexivity].
  apply Qle_bool_iff in E. unfold Qle in E. simpl in E. lia.
Qed.

(** A clip that opens with a sample above the threshold and lasts at most
    100 ms is left alone. *)
Lemma trimBuffer_settled (out : AudioBuffer) (x : Q) (tl : list Q) (others : list (list Q)) :
  channels out = (x :: tl) :: others ->
  (0 < sampleRate out)%Z ->
  isLoud x = true ->
  (10 * Z.of_nat (length (x :: tl)) <= sampleRate out)%Z ->
  trimBuffer out = None.
Proof.
  intros Hch Hrate Hx Hlen. unfold trimBuffer. rewrite Hch.
  rewrite (startSample_loud_short _ _ _ Hx Hlen), (belowNoop_zero _ Hrate). reflexivity.
Qed.

(** A clip that opens with a sample above the threshold and lasts more than
    100 ms is cut by [floor(sampleRate * 0.1)] frames: "no silence detected"
    and "first sample is loud" both leave [startSample] at 0. *)
Lemma startSample_loud_long (rate : Z) (x : Q) (tl : list Q) :
  isLoud x = true ->
  (rate < 10 * Z.of_nat (length (x :: tl)))%Z ->
  startSample rate (x :: tl) = Qfloor (inject_Z rate * (1 # 10)).
Proof.
  intros Hx Hlen. unfold startSample. cbn [firstLoud]. rewrite Hx.
  change (Z.of_nat 0 =? 0)%Z with true. cbn [andb].
  revert Hlen. generalize (Z.of_nat (length (x :: tl))). intros len Hlen.
  destruct (Qle_bool (inject_Z len) (inject_Z rate * (1 # 10))) eqn:E; [|reflexivity].
  apply Qle_bool_iff in E. unfold Qle in E. simpl in E. lia.
Qed.

(** The comparisons of [trimSilence], on integers. *)
Lemma Qle_tenth (len rate : Z) :
  Qle_bool (inject_Z len) (inject_Z rate * (1 # 10)) = (10 * len <=? rate)%Z.
Proof.
  destruct (Z.leb_spec (10 * len) rate) as [H|H].
  - apply Qle_bool_iff. unfold Qle. simpl. lia.
  - destruct (Qle_bool _ _) eqn:E; [|reflexivity].
    apply Qle_bool_iff in E. unfold Qle in E. simpl in E. lia.
Qed.

Lemma Qle_twentieth (rate s : Z) :
  Qle_bool (inject_Z rate * (5 # 100)) (inject_Z s) = (rate <=? 20 * s)%Z.
Proof.
  destruct (Z.leb_spec rate (20 * s)) as [H|H].
  - apply Qle_bool_iff. unfold Qle. simpl. lia.
  - destruct (Qle_bool _ _) eqn:E; [|reflexivity].
    apply Qle_bool_iff in E. unfold Qle in E. simpl in E. lia.
Qed.

Lemma Qfloor_tenth (rate : Z) : Qfloor (inject_Z rate * (1 # 10)) = (rate / 10)%Z.
Proof. unfold Qfloor, Qmult, inject_Z. simpl. rewrite Z.mul_1_r. reflexivity. Qed.

Lemma firstLoud_bound (data : list Q) :
  forall k i, firstLoud k data = Some i -> (k <= i < k + length data)%nat.
Proof.
  induction data as [|x data IH]; intros k i H; simpl in H; [discriminate|].
  destruct (isLoud x); [injection H as <-; simpl; lia|].
  specialize (IH (S k) i H). simpl. lia.
Qed.

(** With the scan back at index 0 (nothing loud, or the first sample
    loud) a clip of at most 100 ms is left alone and a longer one loses
    [floor(sampleRate / 10)] frames. *)
Lemma trimBuffer_from_start (rate : Z) (n : nat) :
  (0 < rate)%Z ->
  let s := if (0 =? 0)%Z && negb (10 * Z.of_nat n <=? rate)%Z then (rate / 10)%Z else 0%Z in
  if (10 * Z.of_nat n <=? rate)%Z || (rate <? 10)%Z
  then negb (rate <=? 20 * s)%Z = true
  else negb (rate <=? 20 * s)%Z = false
       /\ (0 < Z.of_nat n - s)%Z /\ (0 < Z.to_nat (Z.of_nat n - s) < n)%nat.
Proof.
  intros Hrate. cbv zeta. cbn [Z.eqb andb].
  destruct (Z.leb_spec (10 * Z.of_nat n) rate) as [Hshort|Hlong]; cbn [negb orb].
  - destruct (Z.leb_spec rate (20 * 0)); [lia | reflexivity].
  - destruct (Z.ltb_spec rate 10) as [Hslow|Hfast].
    + destruct (Z.leb_spec rate (20 * (rate / 10))) as [H|H]; [|reflexivity].
      exfalso. Z.div_mod_to_equations. lia.
    + destruct (Z.leb_spec rate (20 * (rate / 10))) as [H|H];
        [|exfalso; Z.div_mod_to_equations; lia].
      cbn [negb]. split; [reflexivity|]. Z.div_mod_to_equations. lia.
Qed.

(** What the trimmer does to a decoded buffer, read off its first channel:
    a settled channel is left alone, any other is cut and the buffer comes
    back shorter. *)
Lemma trimBuffer_cases (b : AudioBuffer) (channelData : list Q) (others : list (list Q)) :
  channels b = channelData :: others ->
  (0 < sampleRate b)%Z ->
  if settled (sampleRate b) channelData
  then trimBuffer b = None
  else exists t, trimBuffer b = Some t /\ (0 < bufferLength t < length channelData)%nat.
Proof.
  intros Hch Hrate. unfold trimBuffer, settled, startSample, belowNoop. rewrite Hch.
  cbv zeta. rewrite Qle_tenth, Qfloor_tenth.
  pose proof (trimBuffer_from_start (sampleRate b) (length channelData) Hrate) as Hz.
  cbv zeta in Hz.
  destruct (firstLoud 0 channelData) as [[|j]|] eqn:Hf.
  - change (Z.of_nat 0) with 0%Z.
    destruct (_ || _).
    + rewrite Qle_twentieth, Hz. reflexivity.
    + destruct Hz as (Hz & Hpos & Hlen). rewrite Qle_twentieth, Hz.
      destruct (Z.leb_spec (Z.of_nat (length channelData)
                            - (if (0 =? 0)%Z && negb (10 * Z.of_nat (length channelData)
                                                     <=? sampleRate b)%Z
                               then (sampleRate b / 10)%Z else 0%Z)) 0) as [Hle|_]; [lia|].
      eexists. split; [reflexivity|]. cbn [bufferLength]. exact Hlen.
  - apply firstLoud_bound in Hf.
    destruct (Z.eqb_spec (Z.of_nat (S j)) 0) as [|_]; [lia|]. cbn [andb].
    rewrite Qle_twentieth.
    destruct (Z.ltb_spec (20 * Z.of_nat (S j)) (sampleRate b)) as [Hlt|Hge].
    + destruct (Z.leb_spec (sampleRate b) (20 * Z.of_nat (S j))); [lia | reflexivity].
    + destruct (Z.leb_spec (sampleRate b) (20 * Z.of_nat (S j))); [|lia]. cbn [negb].
      destruct (Z.leb_spec (Z.of_nat (length channelData) - Z.of_nat (S j)) 0); [lia|].
      eexists. split; [reflexivity|]. cbn [bufferLength]. lia.
  - destruct (_ || _).
    + rewrite Qle_twentieth, Hz. reflexivity.
    + destruct Hz as (Hz & Hpos & Hlen). rewrite Qle_twentieth, Hz.
      destruct (Z.leb_spec (Z.of_nat (length channelData)
                            - (if (0 =? 0)%Z && negb (10 * Z.of_nat (length channelData)
                                                     <=? sampleRate b)%Z
                               then (sampleRate b / 10)%Z else 0%Z)) 0) as [Hle|_]; [lia|].
      eexists. split; [reflexivity|]. cbn [bufferLength]. exact Hlen.
Qed.

Section TrimSilence.

Variable decode : Blob -> option AudioBuffer.

Lemma trimSilence_noop_decode (blob : Blob) :
  decode blob = None -> trimSilence decode blob = blob.
Proof. intros H. unfold trimSilence. rewrite H. reflexivity. Qed.

Lemma trimSilence_noop_trim (blob : Blob) (buf : AudioBuffer) :
  decode blob = Some buf -> trimBuffer buf = None -> trimSilence decode blob = blob.
Proof. intros H1 H2. unfold trimSilence. rewrite H1, H2. reflexivity. Qed.

(** C3 (amended). Let [first] be the output of one pass of [trimSilence]
    and [second] the output of a pass over [first].  Then [second] is
    [first] when the first pass returned its input; when [first] does not
    decode; when it decodes to a buffer without channels; and when the
    first channel of the decoded buffer is settled: its first sample above
    the threshold lies after the start and before 50 ms, or no sample or
    the very first one is above the threshold and the channel is at most
    100 ms long.  In every other case the second pass cuts again: [second]
    is the encoding of a buffer that is shorter than the decoded
    [first]. *)
Theorem trimSilence_idempotent_settled (blob : Blob) :
  let first := trimSilence decode blob in
  let second := trimSilence decode first in
  (first = blob -> second = first)
  /\ (decode first = None -> second = first)
  /\ (forall out, decode first = Some out -> channels out = [] -> second = first)
  /\ (forall out channelData others,
        decode first = Some out ->
        channels out = channelData :: others ->
        (0 < sampleRate out)%Z ->
        if settled (sampleRate out) channelData
        then second = first
        else exists t, trimBuffer out = Some t
                       /\ (0 < bufferLength t < length channelData)%nat
                       /\ bufferToWav t = Some second).
Proof.
  cbv zeta. split; [|split; [|split]].
  - intros H. rewrite H. exact H.
  - apply trimSilence_noop_decode.
  - intros out Hdec Hch. apply (trimSilence_noop_trim _ out Hdec).
    unfold trimBuffer. rewrite Hch. reflexivity.
  - intros out channelData others Hdec Hch Hrate.
    pose proof (trimBuffer_cases out channelData others Hch Hrate) as Hc.
    destruct (settled (sampleRate out) channelData).
    + apply (trimSilence_noop_trim _ out Hdec Hc).
    + destruct Hc as (t & Ht & Hlen). exists t. split; [exact Ht|]. split; [exact Hlen|].
      unfold trimSilence at 1. rewrite Hdec, Ht, (bufferToWav_layout t). reflexivity.
Qed.

End TrimSilence.

(** C3 (as stated) fails.  The first pass over [loudClip] finds its first
    sample loud, so [startSample] stays 0 and the forced 100 ms trim cuts
    800 of 1700 frames; the second pass sees the same situation on the
    900 frames left and cuts another 800. *)
Lemma trimSilence_not_idempotent :
  length (blobBytes (trimSilence decodePcm16 loudClip)) = 1844%nat
  /\ length (blobBytes (trimSilence decodePcm16 (trimSilence decodePcm16 loudClip))) = 244%nat
  /\ trimSilence decodePcm16 (trimSilence decodePcm16 loudClip)
     <> trimSilence decodePcm16 loudClip.
Proof.
  assert (H1 : length (blobBytes (trimSilence decodePcm16 loudClip)) = 1844%nat)
    by (vm_compute; reflexivity).
  assert (H2 : length (blobBytes (trimSilence decodePcm16 (trimSilence decodePcm16 loudClip)))
               = 244%nat) by (vm_compute; reflexivity).
  split; [exact H1 | split; [exact H2 |]].
  intros E. rewrite E in H2. rewrite H1 in H2. discriminate H2.
Qed.

(** Three clips that the first pass cuts and the second leaves alone:
    50 ms of silence before the signal (the output opens loud and lasts
    12.5 ms), 150 ms of silence (the output is 50 ms of silence), and a
    click, silence and signal (the output has its first loud sample at
    10 ms). *)
Lemma trimSilence_idempotent_settled_witness :
  trimSilence decodePcm16 (trimSilence decodePcm16 quietThenLoudClip)
  = trimSilence decodePcm16 quietThenLoudClip
  /\ trimSilence decodePcm16 (trimSilence decodePcm16 silentClip)
     = trimSilence decodePcm16 silentClip
  /\ trimSilence decodePcm16 (trimSilence decodePcm16 clickClip)
     = trimSilence decodePcm16 clickClip.
Proof.
  split; [|split].
  - exact (proj2 (proj2 (proj2 (trimSilence_idempotent_settled decodePcm16 quietThenLoudClip)))
             {| sampleRate := 8000; bufferLength := 100;
                channels := [replicate 100 (16382 # 32768)%Q] |}
             (replicate 100 (16382 # 32768)%Q) []
             ltac:(vm_compute; reflexivity) eq_refl eq_refl).
  - exact (proj2 (proj2 (proj2 (trimSilence_idempotent_settled decodePcm16 silentClip)))
             {| sampleRate := 8000; bufferLength := 400;
                channels := [replicate 400 (0 # 32768)%Q] |}
             (replicate 400 (0 # 32768)%Q) []
             ltac:(vm_compute; reflexivity) eq_refl eq_refl).
  - exact (proj2 (proj2 (proj2 (trimSilence_idempotent_settled decodePcm16 clickClip)))
             {| sampleRate := 8000; bufferLength := 400;
                channels := [replicate 80 (0 # 32768)%Q ++ replicate 320 (16382 # 32768)%Q] |}
             (replicate 80 (0 # 32768)%Q ++ replicate 320 (16382 # 32768)%Q) []
             ltac:(vm_compute; reflexivity) eq_refl eq_refl).
Defined.

End CodecProofs.

(** ** Properties of the engine *)

Module EngineProofs.
Import Codec Engine Scenarios Observations.

(** Two states with the same fields are the same state. *)
Lemma engine_eq (a b : Engine) :
  audioData a = audioData b -> isPlaying a = isPlaying b ->
  buttonOrder a = buttonOrder b -> outputDeviceId a = outputDeviceId b ->
  audioInstancesRefs a = audioInstancesRefs b -> audioContextRef a = audioContextRef b ->
  audioNodesRef a = audioNodesRef b -> resourceCountRef a = resourceCountRef b ->
  cachedAudioRef a = cachedAudioRef b -> elements a = elements b ->
  liveUrls a = liveUrls b -> nextAudio a = nextAudio b -> nextUrl a = nextUrl b ->
  timers a = timers b -> a = b.
Proof. destruct a, b; simpl; intros; subst; reflexivity. Qed.

Lemma skeleton_stopAndRevoke (e : Engine) (audio url : nat) :
  skeleton (stopAndRevoke e audio url) = skeleton e.
Proof. reflexivity. Qed.

Lemma skeleton_stopInstance (e : Engine) (audio : nat) :
  skeleton (stopInstance e audio) = skeleton e.
Proof. unfold stopInstance. destruct (elements e !! audio); reflexivity. Qed.

Lemma skeleton_foldl {A : Type} (f : Engine -> A -> Engine) (l : list A) (e : Engine) :
  (forall e x, skeleton (f e x) = skeleton e) -> skeleton (foldl f e l) = skeleton e.
Proof.
  intros Hf. revert e. induction l as [|x l IH]; intros e; simpl; [reflexivity|].
  rewrite IH. apply Hf.
Qed.

Lemma skeleton_stopCached (e : Engine) (l : list (string * (nat * nat))) :
  skeleton (foldl (fun e '(_, (audio, url)) => stopAndRevoke e audio url) e l) = skeleton e.
Proof. apply skeleton_foldl. intros e' [? [? ?]]. reflexivity. Qed.

Lemma skeleton_stopInstances (e : Engine) (l : list (string * list nat)) :
  skeleton (foldl (fun e '(_, instances) => foldl stopInstance e instances) e l) = skeleton e.
Proof.
  apply skeleton_foldl. intros e' [? instances].
  apply skeleton_foldl. apply skeleton_stopInstance.
Qed.

(** Stopping instances of slots whose lists are all empty touches
    nothing. *)
Lemma stopInstances_empty (e : Engine) (l : list (string * list nat)) :
  Forall (fun p => snd p = []) l ->
  foldl (fun e '(_, instances) => foldl stopInstance e instances) e l = e.
Proof.
  intros H. revert e. induction H as [|[k instances] l Hx _ IH]; intros e; simpl; [reflexivity|].
  simpl in Hx. subst instances. simpl. apply IH.
Qed.

Lemma cleared_lists {A : Type} (m : gmap string (list A)) :
  Forall (fun p => snd p = []) (map_to_list ((fun _ => @nil A) <$> m)).
Proof.
  apply Forall_forall. intros [k l] Hin. simpl.
  apply elem_of_map_to_list in Hin. rewrite lookup_fmap in Hin.
  destruct (m !! k); simpl in Hin; congruence.
Qed.

(** The fields of the state after a forced cleanup. *)
Lemma forceCleanupAllAudio_skeleton (e : Engine) :
  skeleton (forceCleanupAllAudio e)
  = (audioData e, ∅, buttonOrder e, outputDeviceId e,
     (fun _ => []) <$> audioInstancesRefs e, audioContextRef e,
     (fun _ => []) <$> audioNodesRef e, mkCount 0 0 0, ∅,
     nextAudio e, nextUrl e, timers e).
Proof.
  unfold forceCleanupAllAudio.
  set (e1 := foldl _ e (map_to_list (cachedAudioRef e))).
  assert (H1 : skeleton e1 = skeleton e) by apply skeleton_stopCached.
  set (e2 := foldl _ (setCached ∅ e1) _).
  assert (H2 : skeleton e2 = skeleton (setCached ∅ e1)) by apply skeleton_stopInstances.
  unfold skeleton in *. simpl in *.
  injection H2; injection H1; intros.
  repeat (apply (f_equal2 pair)); congruence.
Qed.

Lemma skeleton_fields (a b : Engine) :
  skeleton a = skeleton b -> elements a = elements b -> liveUrls a = liveUrls b -> a = b.
Proof.
  unfold skeleton. intros H He Hu. injection H; intros.
  apply engine_eq; assumption.
Qed.

(** Once the cache is empty and every instance list is empty, a forced
    cleanup finds no element to stop and no URL to revoke. *)
Lemma forceCleanupAllAudio_settled (e : Engine) :
  cachedAudioRef e = ∅ ->
  map_Forall (fun _ instances => instances = []) (audioInstancesRefs e) ->
  elements (forceCleanupAllAudio e) = elements e
  /\ liveUrls (forceCleanupAllAudio e) = liveUrls e.
Proof.
  intros Hc Hi. unfold forceCleanupAllAudio.
  rewrite Hc, map_to_list_empty. cbn [foldl].
  change (audioInstancesRefs (setCached ∅ e)) with (audioInstancesRefs e).
  rewrite stopInstances_empty.
  - split; reflexivity.
  - apply Forall_forall. intros [k l] Hin. simpl.
    apply elem_of_map_to_list in Hin. exact (Hi k l Hin).
Qed.

Lemma cleared_all {A : Type} (m : gmap string (list A)) :
  map_Forall (fun _ l => l = []) ((fun _ => @nil A) <$> m).
Proof.
  intros k l Hl. rewrite lookup_fmap in Hl.
  destruct (m !! k); simpl in Hl; congruence.
Qed.

Lemma cleared_twice {A : Type} (m : gmap string (list A)) :
  (fun _ => @nil A) <$> ((fun _ => @nil A) <$> m) = (fun _ => @nil A) <$> m.
Proof. rewrite <- map_fmap_compose. reflexivity. Qed.

(** C6. After [forceCleanupAllAudio], from any state, every per-slot
    instance list and node list is empty, the cache and the playing map are
    empty and the three counters are zero; running it a second time gives
    exactly the state the first run left. *)
Theorem forceCleanupAllAudio_idempotent (e : Engine) :
  let once := forceCleanupAllAudio e in
  let twice := forceCleanupAllAudio once in
  map_Forall (fun _ instances => instances = []) (audioInstancesRefs once)
  /\ map_Forall (fun _ nodes => nodes = []) (audioNodesRef once)
  /\ cachedAudioRef once = ∅
  /\ isPlaying once = ∅
  /\ resourceCountRef once = mkCount 0 0 0
  /\ twice = once.
Proof.
  cbv zeta.
  pose proof (forceCleanupAllAudio_skeleton e) as H1.
  remember (forceCleanupAllAudio e) as once eqn:Honce. clear Honce.
  pose proof (forceCleanupAllAudio_skeleton once) as H2.
  unfold skeleton in H1. injection H1; intros Ht Hnu Hna Hc Hcnt Hn Hctx Hi Ho Hb Hp Hd.
  assert (Hi' : map_Forall (fun _ instances => instances = []) (audioInstancesRefs once))
    by (rewrite Hi; apply cleared_all).
  split; [exact Hi'|]. split; [rewrite Hn; apply cleared_all|].
  split; [exact Hc|]. split; [exact Hp|]. split; [exact Hcnt|].
  - destruct (forceCleanupAllAudio_settled once Hc Hi') as [He Hu].
    apply skeleton_fields; try assumption.
    rewrite Hd, Hb, Ho, Hi, Hctx, Hn, Hna, Hnu, Ht, !cleared_twice in H2.
    rewrite H2. unfold skeleton.
    rewrite Hd, Hp, Hb, Ho, Hi, Hctx, Hn, Hcnt, Hc, Hna, Hnu, Ht. reflexivity.
Qed.

Lemma slots_dropClosedContext (e : Engine) :
  let e' := match audioContextRef e with
            | Some closed => setContext None e
            | _ => e
            end in
  audioData e' = audioData e /\ buttonOrder e' = buttonOrder e
  /\ outputDeviceId e' = outputDeviceId e.
Proof. destruct (audioContextRef e) as [[| |]|]; repeat split; reflexivity. Qed.

Lemma slots_performPeriodicCleanup (e : Engine) :
  audioData (performPeriodicCleanup e) = audioData e
  /\ buttonOrder (performPeriodicCleanup e) = buttonOrder e
  /\ outputDeviceId (performPeriodicCleanup e) = outputDeviceId e.
Proof.
  unfold performPeriodicCleanup. cbv zeta.
  match goal with
  | |- context [match audioContextRef ?x with _ => _ end] =>
      destruct (slots_dropClosedContext x) as (Hd & Hb & Ho);
      cbv zeta in Hd, Hb, Ho; rewrite Hd, Hb, Ho; clear Hd Hb Ho
  end.
  destruct (_ || _); [|repeat split; reflexivity].
  match goal with
  | |- context [forceCleanupAllAudio ?x] =>
      pose proof (forceCleanupAllAudio_skeleton x) as H;
      remember (forceCleanupAllAudio x) as once eqn:Honce; clear Honce
  end.
  unfold skeleton in H. injection H; intros.
  split; [assumption|]. split; assumption.
Qed.

(** C9. Neither [forceCleanupAllAudio] nor [performPeriodicCleanup] changes
    the slot parameters ([audioData], clips included) or the layout
    ([buttonOrder]); the selected output device is left alone as well. *)
Theorem cleanup_preserves_slots (e : Engine) :
  audioData (forceCleanupAllAudio e) = audioData e
  /\ buttonOrder (forceCleanupAllAudio e) = buttonOrder e
  /\ outputDeviceId (forceCleanupAllAudio e) = outputDeviceId e
  /\ audioData (performPeriodicCleanup e) = audioData e
  /\ buttonOrder (performPeriodicCleanup e) = buttonOrder e
  /\ outputDeviceId (performPeriodicCleanup e) = outputDeviceId e.
Proof.
  pose proof (forceCleanupAllAudio_skeleton e) as H. unfold skeleton in H.
  destruct (slots_performPeriodicCleanup e) as (Hd & Hb & Ho).
  remember (forceCleanupAllAudio e) as once eqn:Honce. clear Honce.
  remember (performPeriodicCleanup e) as swept eqn:Hswept. clear Hswept.
  injection H; intros.
  repeat split; assumption.
Qed.

(** *** The resource ledger *)

Lemma decrement_nonneg (n : Z) : (0 <= decrement n)%Z.
Proof. unfold decrement. lia. Qed.

Lemma succ_nonneg (n : Z) : (0 <= n)%Z -> (0 <= Z.succ n)%Z.
Proof. lia. Qed.

Lemma totalLength_nonneg {A : Type} (m : gmap string (list A)) : (0 <= totalLength m)%Z.
Proof.
  unfold totalLength. induction (map_to_list m) as [|[k l] rest IH]; simpl; lia.
Qed.

(** Updates of the other fields leave the counters alone. *)
Lemma ledgerOk_setAudioData (v : gmap string AudioData) (e : Engine) :
  ledgerOk e -> ledgerOk (setAudioData v e).
Proof. exact id. Qed.

Lemma ledgerOk_setIsPlaying (v : gmap string bool) (e : Engine) :
  ledgerOk e -> ledgerOk (setIsPlaying v e).
Proof. exact id. Qed.

Lemma ledgerOk_setButtonOrder (v : list string) (e : Engine) :
  ledgerOk e -> ledgerOk (setButtonOrder v e).
Proof. exact id. Qed.

Lemma ledgerOk_setInstances (v : gmap string (list nat)) (e : Engine) :
  ledgerOk e -> ledgerOk (setInstances v e).
Proof. exact id. Qed.

Lemma ledgerOk_setContext (v : option ContextState) (e : Engine) :
  ledgerOk e -> ledgerOk (setContext v e).
Proof. exact id. Qed.

Lemma ledgerOk_setNodes (v : gmap string (list NodeSet)) (e : Engine) :
  ledgerOk e -> ledgerOk (setNodes v e).
Proof. exact id. Qed.

Lemma ledgerOk_setCached (v : gmap string (nat * nat)) (e : Engine) :
  ledgerOk e -> ledgerOk (setCached v e).
Proof. exact id. Qed.

Lemma ledgerOk_setElements (v : gmap nat AudioElement) (e : Engine) :
  ledgerOk e -> ledgerOk (setElements v e).
Proof. exact id. Qed.

Lemma ledgerOk_setLiveUrls (v : gset nat) (e : Engine) :
  ledgerOk e -> ledgerOk (setLiveUrls v e).
Proof. exact id. Qed.

Lemma ledgerOk_setNextAudio (v : nat) (e : Engine) :
  ledgerOk e -> ledgerOk (setNextAudio v e).
Proof. exact id. Qed.

Lemma ledgerOk_setNextUrl (v : nat) (e : Engine) :
  ledgerOk e -> ledgerOk (setNextUrl v e).
Proof. exact id. Qed.

Lemma ledgerOk_setTimers (v : list (Q * nat)) (e : Engine) :
  ledgerOk e -> ledgerOk (setTimers v e).
Proof. exact id. Qed.

Lemma ledgerOk_onElement (f : AudioElement -> AudioElement) (audio : nat) (e : Engine) :
  ledgerOk e -> ledgerOk (onElement f audio e).
Proof. exact id. Qed.

Lemma ledgerOk_pause (audio : nat) (e : Engine) : ledgerOk e -> ledgerOk (pause audio e).
Proof. exact id. Qed.

Lemma ledgerOk_rewind (audio : nat) (e : Engine) : ledgerOk e -> ledgerOk (rewind audio e).
Proof. exact id. Qed.

Lemma ledgerOk_start (audio : nat) (e : Engine) : ledgerOk e -> ledgerOk (start audio e).
Proof. exact id. Qed.

Lemma ledgerOk_revokeObjectURL (url : nat) (e : Engine) :
  ledgerOk e -> ledgerOk (revokeObjectURL url e).
Proof. exact id. Qed.

Lemma ledgerOk_stopAndRevoke (e : Engine) (audio url : nat) :
  ledgerOk e -> ledgerOk (stopAndRevoke e audio url).
Proof. exact id. Qed.

Lemma ledgerOk_setCount (c : ResourceCount) (e : Engine) :
  nonnegative c -> ledgerOk (setCount c e).
Proof. exact id. Qed.

Lemma ledgerOk_decElements (e : Engine) : ledgerOk e -> ledgerOk (countElements decrement e).
Proof. intros (H1 & H2 & H3). repeat split; simpl; auto using decrement_nonneg. Qed.

Lemma ledgerOk_decNodes (e : Engine) : ledgerOk e -> ledgerOk (countNodes decrement e).
Proof. intros (H1 & H2 & H3). repeat split; simpl; auto using decrement_nonneg. Qed.

Lemma ledgerOk_decUrls (e : Engine) : ledgerOk e -> ledgerOk (countUrls decrement e).
Proof. intros (H1 & H2 & H3). repeat split; simpl; auto using decrement_nonneg. Qed.

Lemma ledgerOk_incElements (e : Engine) : ledgerOk e -> ledgerOk (countElements Z.succ e).
Proof. intros (H1 & H2 & H3). repeat split; simpl; auto using succ_nonneg. Qed.

Lemma ledgerOk_incNodes (e : Engine) : ledgerOk e -> ledgerOk (countNodes Z.succ e).
Proof. intros (H1 & H2 & H3). repeat split; simpl; auto using succ_nonneg. Qed.

Lemma ledgerOk_incUrls (e : Engine) : ledgerOk e -> ledgerOk (countUrls Z.succ e).
Proof. intros (H1 & H2 & H3). repeat split; simpl; auto using succ_nonneg. Qed.

Lemma ledgerOk_foldl {A : Type} (f : Engine -> A -> Engine) (l : list A) (e : Engine) :
  (forall e x, ledgerOk e -> ledgerOk (f e x)) -> ledgerOk e -> ledgerOk (foldl f e l).
Proof.
  intros Hf. revert e. induction l as [|x l IH]; intros e He; simpl; auto.
Qed.

Lemma ledgerOk_forceCleanupAllAudio (e : Engine) : ledgerOk (forceCleanupAllAudio e).
Proof.
  unfold forceCleanupAllAudio. cbv zeta. apply ledgerOk_setCount.
  unfold nonnegative. simpl. lia.
Qed.

(** Case analysis on the innermost scrutinee of nested matches. *)
Ltac destruct_scrutinee x :=
  lazymatch x with
  | match ?y with _ => _ end => destruct_scrutinee y
  | _ => destruct x
  end.

(** Peels one constructor of the state off a ledger goal: field updates
    that leave the counters alone, the floored decrements, the increments,
    and the branches and loops of the operations. *)
Ltac ledger_peel :=
  match goal with
  | |- ledgerOk (setAudioData _ _) => apply ledgerOk_setAudioData
  | |- ledgerOk (setIsPlaying _ _) => apply ledgerOk_setIsPlaying
  | |- ledgerOk (setButtonOrder _ _) => apply ledgerOk_setButtonOrder
  | |- ledgerOk (setInstances _ _) => apply ledgerOk_setInstances
  | |- ledgerOk (setContext _ _) => apply ledgerOk_setContext
  | |- ledgerOk (setNodes _ _) => apply ledgerOk_setNodes
  | |- ledgerOk (setCached _ _) => apply ledgerOk_setCached
  | |- ledgerOk (setElements _ _) => apply ledgerOk_setElements
  | |- ledgerOk (setLiveUrls _ _) => apply ledgerOk_setLiveUrls
  | |- ledgerOk (setNextAudio _ _) => apply ledgerOk_setNextAudio
  | |- ledgerOk (setNextUrl _ _) => apply ledgerOk_setNextUrl
  | |- ledgerOk (setTimers _ _) => apply ledgerOk_setTimers
  | |- ledgerOk (onElement _ _ _) => apply ledgerOk_onElement
  | |- ledgerOk (pause _ _) => apply ledgerOk_pause
  | |- ledgerOk (rewind _ _) => apply ledgerOk_rewind
  | |- ledgerOk (start _ _) => apply ledgerOk_start
  | |- ledgerOk (revokeObjectURL _ _) => apply ledgerOk_revokeObjectURL
  | |- ledgerOk (stopAndRevoke _ _ _) => apply ledgerOk_stopAndRevoke
  | |- ledgerOk (countElements decrement _) => apply ledgerOk_decElements
  | |- ledgerOk (countNodes decrement _) => apply ledgerOk_decNodes
  | |- ledgerOk (countUrls decrement _) => apply ledgerOk_decUrls
  | |- ledgerOk (countElements Z.succ _) => apply ledgerOk_incElements
  | |- ledgerOk (countNodes Z.succ _) => apply ledgerOk_incNodes
  | |- ledgerOk (countUrls Z.succ _) => apply ledgerOk_incUrls
  | |- ledgerOk (forceCleanupAllAudio _) => apply ledgerOk_forceCleanupAllAudio
  | |- ledgerOk (foldl _ _ _) => apply ledgerOk_foldl; [intros ? ? ?|]
  | |- ledgerOk (match ?x with _ => _ end) => destruct_scrutinee x
  | |- ledgerOk ((if ?b then _ else _) _) => destruct_scrutinee b
  end.

Ltac ledger_hyp :=
  match goal with
  | H : ledgerOk ?e |- ledgerOk ?e => exact H
  end.

Ltac ledger_basic :=
  repeat first
    [ ledger_hyp
    | progress unfold createObjectURL, newAudio, stopInstance, echoOpen, setPlaybackRate,
        setVolume, setLoop, setSink, setOnended, resumed
    | progress cbv beta iota zeta
    | ledger_peel ].

Lemma ledgerOk_cleanupAudioNodes (id : string) (audio : nat) (e : Engine) :
  ledgerOk e -> ledgerOk (cleanupAudioNodes id audio e).
Proof. intros He. unfold cleanupAudioNodes. ledger_basic. Qed.

Lemma ledgerOk_releaseUrl (audio : nat) (e : Engine) :
  ledgerOk e -> ledgerOk (releaseUrl audio e).
Proof. intros He. unfold releaseUrl. ledger_basic. Qed.

Lemma ledgerOk_limitAudioInstances (id : string) (cap : nat) (e : Engine) :
  ledgerOk e -> ledgerOk (limitAudioInstances id cap e).
Proof.
  intros He. unfold limitAudioInstances. ledger_basic.
  unfold evict. apply ledgerOk_decElements, ledgerOk_releaseUrl, ledgerOk_cleanupAudioNodes.
  ledger_basic.
Qed.

Lemma ledgerOk_wire (id : string) (audio : nat) (pan gain : Q) (e : Engine) :
  ledgerOk e -> ledgerOk (wire id audio pan gain e).
Proof. intros He. unfold wire. ledger_basic. Qed.

Lemma ledgerOk_echoClose (env : Browser) (id : string) (data : AudioData) (device : string)
  (i audio : nat) (e : Engine) :
  ledgerOk e -> ledgerOk (stateOf (echoClose env id data device i audio e)).
Proof.
  intros He. unfold echoClose. cbv zeta.
  destruct (volumeAccepted _); cbn [stateOf]; ledger_basic; try apply ledgerOk_wire;
    ledger_basic.
Qed.

Lemma ledgerOk_echoOpen (e : Engine) : ledgerOk e -> ledgerOk (snd (echoOpen e)).
Proof. intros He. unfold echoOpen, createObjectURL, newAudio. cbn [snd]. ledger_basic. Qed.

Lemma ledgerOk_echoStep (env : Browser) (id : string) (data : AudioData) (e : Engine)
  (i : nat) : ledgerOk e -> ledgerOk (stateOf (echoStep env id data e i)).
Proof.
  intros He. unfold echoStep. pose proof (ledgerOk_echoOpen e He) as Ho.
  destruct (echoOpen e) as [audio e1]. apply ledgerOk_echoClose, Ho.
Qed.

Lemma ledgerOk_echoLoop (env : Browser) (id : string) (data : AudioData) (l : list nat) :
  forall e, ledgerOk e -> ledgerOk (stateOf (echoLoop env id data l e)).
Proof.
  induction l as [|i l IH]; intros e He; [exact He|].
  cbn [echoLoop]. pose proof (ledgerOk_echoStep env id data e i He) as Hs.
  destruct (echoStep env id data e i) as [e1|e1]; [apply IH|]; exact Hs.
Qed.

Lemma ledgerOk_playEcho (env : Browser) (id : string) (data : AudioData) (e : Engine) :
  ledgerOk e -> ledgerOk (playEcho env id data e).
Proof.
  intros He. unfold playEcho.
  pose proof (ledgerOk_echoLoop env id data (seq 0 (Z.to_nat (echoCount data + 1))) e He) as Hl.
  destruct (echoLoop _ _ _ _ _) as [e1|e1]; cbn [stateOf] in Hl; ledger_basic.
Qed.

Lemma ledgerOk_tryPlay (env : Browser) (audio : nat) (e : Engine) :
  ledgerOk e -> ledgerOk (tryPlay env audio e).
Proof. intros He. unfold tryPlay. ledger_basic. Qed.

Lemma ledgerOk_acquireCached (id : string) (data : AudioData) (e : Engine) :
  ledgerOk e -> ledgerOk (snd (acquireCached id data e)).
Proof.
  intros He. unfold acquireCached, createObjectURL, newAudio.
  destruct (cachedAudioRef e !! id) as [[audio url]|]; cbv beta iota zeta; cbn [snd];
    ledger_basic.
Qed.

Lemma ledgerOk_configure (data : AudioData) (audio : nat) (e : Engine) :
  ledgerOk e -> ledgerOk (stateOf (configure data audio e)).
Proof.
  intros He. unfold configure. cbv zeta. destruct (volumeAccepted _); cbn [stateOf];
    ledger_basic.
Qed.

Lemma ledgerOk_registerCached (env : Browser) (id : string) (data : AudioData)
  (device : string) (web isNew : bool) (audio : nat) (e : Engine) :
  ledgerOk e -> ledgerOk (registerCached env id data device web isNew audio e).
Proof.
  intros He. unfold registerCached, wireCached. ledger_basic; try apply ledgerOk_wire;
    ledger_basic.
Qed.

Lemma ledgerOk_playCached (env : Browser) (id : string) (data : AudioData) (web : bool)
  (e : Engine) : ledgerOk e -> ledgerOk (playCached env id data web e).
Proof.
  intros He. unfold playCached.
  pose proof (ledgerOk_acquireCached id data e He) as Ha.
  destruct (acquireCached id data e) as [[audio isNew] e1]. cbn [snd] in Ha.
  pose proof (ledgerOk_configure data audio e1 Ha) as Hc.
  destruct (configure data audio e1) as [e2|e2]; cbn [stateOf] in Hc; [|exact Hc].
  unfold finishCached. apply ledgerOk_tryPlay, ledgerOk_registerCached, Hc.
Qed.

Lemma ledgerOk_playAudio (env : Browser) (id : string) (e : Engine) :
  ledgerOk e -> ledgerOk (playAudio env id e).
Proof.
  intros He. unfold playAudio.
  destruct (audioData e !! id) as [data|]; [|exact He].
  destruct (audioBlob data); [|exact He].
  destruct (_ && _); [ledger_basic|].
  pose proof (ledgerOk_limitAudioInstances id maxInstances e He) as Hl.
  remember (limitAudioInstances id maxInstances e) as e1 eqn:E1. clear E1.
  cbv zeta.
  destruct (audioContextRef e1) as [st|]; [|destruct (createContext env) as [st|]];
    try exact Hl.
  - match goal with
    | |- context [playEcho env id data ?x] =>
        assert (Hx : ledgerOk x) by ledger_basic; remember x as e2 eqn:E2; clear E2
    end.
    destruct (hasEcho data); [apply ledgerOk_playEcho | apply ledgerOk_playCached]; exact Hx.
  - match goal with
    | |- context [playEcho env id data ?x] =>
        assert (Hx : ledgerOk x) by ledger_basic; remember x as e2 eqn:E2; clear E2
    end.
    destruct (hasEcho data); [apply ledgerOk_playEcho | apply ledgerOk_playCached]; exact Hx.
Qed.

Lemma ledgerOk_ended (audio : nat) (e : Engine) : ledgerOk e -> ledgerOk (ended audio e).
Proof.
  intros He. unfold ended.
  destruct (elements e !! audio ≫= onended) as [[id|id]|]; [| |exact He].
  - unfold onEchoEnded. cbv zeta. apply ledgerOk_releaseUrl.
    pose proof (ledgerOk_cleanupAudioNodes id audio e He) as Hc.
    remember (cleanupAudioNodes id audio e) as e1 eqn:E1. clear E1.
    unfold markIdleIfEmpty. ledger_basic.
  - unfold onCachedEnded. cbv zeta. apply ledgerOk_cleanupAudioNodes, ledgerOk_releaseUrl.
    unfold markIdleIfEmpty. ledger_basic.
Qed.

Lemma ledgerOk_updateAudioData (id : string) (data : PartialAudioData) (e : Engine) :
  ledgerOk e -> ledgerOk (updateAudioData id data e).
Proof. intros He. unfold updateAudioData. ledger_basic. Qed.

Lemma ledgerOk_performPeriodicCleanup (e : Engine) :
  ledgerOk e -> ledgerOk (performPeriodicCleanup e).
Proof.
  intros He. unfold performPeriodicCleanup. cbv zeta.
  match goal with
  | |- context [forceCleanupAllAudio ?x] =>
      assert (Hx : ledgerOk x); [|remember x as e1 eqn:E1; clear E1]
  end.
  { apply ledgerOk_setCount. split; [|split]; simpl.
    - apply totalLength_nonneg.
    - apply totalLength_nonneg.
    - apply He. }
  ledger_basic.
Qed.

Lemma ledgerOk_importData (file : File) (e : Engine) :
  ledgerOk e -> ledgerOk (snd (importData file e)).
Proof.
  intros He. unfold importData.
  destruct (negb _); [exact He|].
  destruct (zipContent file) as [zip|]; [|exact He].
  destruct (settingsJson zip) as [[settings|]|]; try exact He.
  destruct (_ || _); [exact He|].
  cbn [snd]. ledger_basic.
Qed.

(** The same for a call that runs in pieces. *)
Lemma ledgerOk_echoTurns (env : Browser) (id : string) (data : AudioData) (device : string)
  (l : list nat) :
  forall e, ledgerOk e -> ledgerOk (fst (echoTurns env id data device l e)).
Proof.
  induction l as [|i l IH]; intros e He; cbn [echoTurns]; [cbn [fst]; ledger_basic|].
  pose proof (ledgerOk_echoOpen e He) as Ho.
  destruct (echoOpen e) as [audio e1]. cbn [snd] in Ho.
  destruct device; [|exact Ho].
  pose proof (ledgerOk_echoClose env id data EmptyString i audio e1 Ho) as Hc.
  destruct (echoClose _ _ _ _ _ _ _) as [e2|e2]; [apply IH|]; exact Hc.
Qed.

Lemma ledgerOk_callPlay (env : Browser) (audio : nat) (e : Engine) :
  ledgerOk e -> ledgerOk (fst (callPlay env audio e)).
Proof. intros He. unfold callPlay. destruct (playOk env); cbn [fst]; ledger_basic. Qed.

Lemma ledgerOk_cachedTurn (env : Browser) (id : string) (data : AudioData) (device : string)
  (e : Engine) : ledgerOk e -> ledgerOk (fst (cachedTurn env id data device e)).
Proof.
  intros He. unfold cachedTurn.
  pose proof (ledgerOk_acquireCached id data e He) as Ha.
  destruct (acquireCached id data e) as [[audio isNew] e1]. cbn [snd] in Ha.
  pose proof (ledgerOk_configure data audio e1 Ha) as Hc.
  destruct (configure data audio e1) as [e2|e2]; cbn [stateOf] in Hc; [|exact Hc].
  destruct device; [|exact Hc].
  apply ledgerOk_callPlay, ledgerOk_registerCached, Hc.
Qed.

Lemma ledgerOk_dispatch (env : Browser) (id : string) (data : AudioData) (device : string)
  (e : Engine) : ledgerOk e -> ledgerOk (fst (dispatch env id data device e)).
Proof.
  intros He. unfold dispatch.
  destruct (hasEcho data); [apply ledgerOk_echoTurns | apply ledgerOk_cachedTurn]; exact He.
Qed.

Lemma ledgerOk_launch (env : Browser) (id : string) (e : Engine) :
  ledgerOk e -> ledgerOk (fst (launch env id e)).
Proof.
  intros He. unfold launch.
  destruct (audioData e !! id) as [data|]; [|exact He].
  destruct (audioBlob data); [|exact He].
  destruct (_ && _); [cbn [fst]; ledger_basic|].
  pose proof (ledgerOk_limitAudioInstances id maxInstances e He) as Hl.
  remember (limitAudioInstances id maxInstances e) as e1 eqn:E1. clear E1.
  cbv zeta.
  destruct (audioContextRef e1) as [st|] eqn:Hc.
  - rewrite Hc. destruct st; try exact Hl; apply ledgerOk_dispatch, Hl.
  - destruct (createContext env) as [st|]; [|exact Hl].
    cbn [audioContextRef setContext].
    destruct st; try exact Hl; apply ledgerOk_dispatch, ledgerOk_setContext, Hl.
Qed.

Lemma ledgerOk_continue (env : Browser) (task : Task) (e : Engine) :
  ledgerOk e -> ledgerOk (fst (continue env task e)).
Proof.
  intros He. destruct task as [id data device|id data device i audio
                              |id data device isNew audio|audio|audio]; cbn [continue].
  - apply ledgerOk_dispatch. ledger_basic.
  - pose proof (ledgerOk_echoClose env id data device i audio e He) as Hc.
    destruct (echoClose _ _ _ _ _ _ _) as [e2|e2]; [apply ledgerOk_echoTurns|]; exact Hc.
  - apply ledgerOk_callPlay, ledgerOk_registerCached, He.
  - destruct (audioContextRef e) as [[| |]|]; exact He.
  - cbn [fst]. ledger_basic.
Qed.

Lemma ledgerOk_step (s : Session) (ev : Event) :
  ledgerOk (engine s) -> ledgerOk (engine (step s ev)).
Proof.
  intros He. destruct ev; cbn [step engine park].
  - apply ledgerOk_launch, He.
  - destruct (pending s !! k) as [task|]; [|exact He].
    cbn [park engine]. apply ledgerOk_continue, He.
  - apply ledgerOk_ended, He.
  - unfold echoTimer. ledger_basic.
  - apply ledgerOk_updateAudioData, He.
  - apply ledgerOk_updateAudioData, He.
  - apply ledgerOk_performPeriodicCleanup, He.
  - apply ledgerOk_forceCleanupAllAudio.
  - apply ledgerOk_importData, He.
  - ledger_basic.
Qed.

(** An invariant of every event holds after every sequence of events. *)
Lemma session_invariant (P : Session -> Prop) (events : list Event) :
  (forall s ev, P s -> P (step s ev)) -> P (mkSession initial []) -> P (session events).
Proof.
  intros Hstep. unfold session. generalize (mkSession initial []).
  induction events as [|ev events IH]; intros s Hs; [exact Hs|].
  cbn [foldl]. apply IH, Hstep, Hs.
Qed.

(** C8. In every state the engine can reach from its initial state by
    triggers (whole or in pieces, however their suspended calls
    interleave), end-of-stream and timer callbacks, edits, deletes, sweeps,
    forced cleanups, imports and context state changes, the three counters
    of the resource ledger are non-negative. *)
Theorem ledger_nonnegative (events : list Event) :
  (0 <= audioElements (resourceCountRef (run events)))%Z
  /\ (0 <= audioNodes (resourceCountRef (run events)))%Z
  /\ (0 <= objectUrls (resourceCountRef (run events)))%Z.
Proof.
  change (ledgerOk (run events)). unfold run.
  apply (session_invariant (fun s => ledgerOk (engine s))).
  - intros s ev. apply ledgerOk_step.
  - repeat split; simpl; lia.
Qed.

(** *** The slot store *)

(** A property that reads [undefined], whether left out or written
    [undefined], keeps the clip the slot had. *)
Lemma updateAudioData_clip_kept (id : string) (data : PartialAudioData) (e : Engine) :
  readField (p_audioBlob data) = None ->
  audioData (updateAudioData id data e) !! id ≫= audioBlob = audioData e !! id ≫= audioBlob.
Proof.
  intros Hb. unfold updateAudioData. cbv zeta.
  match goal with
  | |- context [setAudioData _ ?x] =>
      assert (Hx : audioData x = audioData e)
        by (destruct (cachedAudioRef e !! id) as [[? ?]|]; reflexivity);
      remember x as e1 eqn:E1; clear E1
  end.
  cbn [audioData setAudioData]. rewrite lookup_insert_eq. cbn [mbind option_bind audioBlob].
  rewrite Hb, Hx. reflexivity.
Qed.

(** Fields left out of an update keep a previous value that is defined and
    truthy: a non-empty name, a non-zero speed, balance, feedback and
    volume. *)
Lemma updateAudioData_absent_kept (id : string) (prev : AudioData) (e : Engine)
  (d f v : Q) :
  audioData e !! id = Some prev ->
  padId prev = id ->
  name prev <> EmptyString ->
  Qeq_bool (speed prev) 0 = false ->
  Qeq_bool (balance prev) 0 = false ->
  echoDelay prev = Some d ->
  echoFeedback prev = Some f -> Qeq_bool f 0 = false ->
  volume prev = Some v -> Qeq_bool v 0 = false ->
  audioData (updateAudioData id
               (mkPartial Absent Absent Absent Absent Absent Absent Absent Absent Absent) e)
    !! id = Some prev.
Proof.
  intros Hp Hid Hn Hs Hb Hd Hf Hf0 Hv Hv0. unfold updateAudioData. cbv zeta.
  match goal with
  | |- context [setAudioData _ ?x] =>
      assert (Hx : audioData x = audioData e)
        by (destruct (cachedAudioRef e !! id) as [[? ?]|]; reflexivity);
      remember x as e1 eqn:E1; clear E1
  end.
  cbn [audioData setAudioData]. rewrite lookup_insert_eq, Hx, Hp. f_equal.
  destruct prev as [pid pname pblob pspeed pbal pdelay pfb pvol pcol ploop].
  cbn [padId name audioBlob speed balance echoDelay echoFeedback volume color loop] in *.
  subst.
  cbn [readField p_name p_audioBlob p_speed p_balance p_echoDelay p_echoFeedback p_volume
       p_color p_loop fmap option_fmap option_map mbind option_bind
       padId name audioBlob speed balance echoDelay echoFeedback volume color loop].
  unfold orNumber. rewrite Hs, Hb, Hf0, Hv0.
  destruct pname; [congruence|]. reflexivity.
Qed.

(** C4, at the failing input: pad 1 holds a clip; after [handleDelete] the
    other fields are back at the values of the payload, and the clip is
    still there. *)
Theorem handleDelete_keeps_clip :
  let e := run [Edit "1" (echoPad (3 # 10))] in
  audioData e !! "1" ≫= audioBlob = Some clip
  /\ audioData (handleDelete "1" e) !! "1"
     = Some {| padId := "1"; name := "Pad 1"; audioBlob := Some clip; speed := 1;
               balance := 0; echoDelay := Some 0%Q; echoFeedback := Some 0%Q;
               volume := Some 1%Q; color := Some "slate"; loop := Some false |}.
Proof. split; vm_compute; reflexivity. Qed.

(** *** Import *)

(** The three checks of [importData] in the order of the code: each throws
    its own message and leaves the state as it was. *)
Lemma importData_validation (file : File) (e : Engine) :
  (endsWith (fileName file) ".zip" = false ->
   importData file e = (inl (thrown "Invalid file type. Please select a .zip file."), e))
  /\ (forall zip, endsWith (fileName file) ".zip" = true -> zipContent file = Some zip ->
      settingsJson zip = None ->
      importData file e = (inl (thrown "Invalid export file: settings.json not found"), e))
  /\ (forall zip settings, endsWith (fileName file) ".zip" = true ->
      zipContent file = Some zip -> settingsJson zip = Some (Some settings) ->
      truthy settings && typeofObject settings = false ->
      importData file e = (inl (thrown "Invalid settings.json format"), e)).
Proof.
  unfold importData. split; [|split].
  - intros ->. reflexivity.
  - intros zip -> -> ->. reflexivity.
  - intros zip settings -> -> -> H. cbn [negb].
    destruct (truthy settings), (typeofObject settings); try discriminate H; reflexivity.
Qed.

(** What the third check lets through: a value that is not an object in the
    JSON sense passes exactly when it is an array. *)
Lemma settings_check_array (settings : JValue) :
  truthy settings && typeofObject settings = true ->
  (exists members, settings = JObj members) \/ (exists items, settings = JArr items).
Proof.
  destruct settings as [|b|q|s|items|members]; simpl; try discriminate; eauto.
  - rewrite andb_false_r. discriminate.
  - rewrite andb_false_r. discriminate.
  - rewrite andb_false_r. discriminate.
Qed.

(** C10, at the failing input: [settings.json] is the array [[]], which is
    not a JSON object; [importData] does not throw but resolves, and pad 1,
    which held a clip, is replaced by an empty default pad. *)
Theorem importData_accepts_array :
  let e := run [Edit "1" (echoPad (3 # 10))] in
  audioData e !! "1" ≫= audioBlob = Some clip
  /\ fst (importData arrayArchive e) = inr tt
  /\ audioData (snd (importData arrayArchive e)) !! "1" = Some (defaultPad "1")
  /\ audioData (snd (importData arrayArchive e)) <> audioData e.
Proof.
  cbv zeta.
  assert (H1 : audioData (run [Edit "1" (echoPad (3 # 10))]) !! "1" ≫= audioBlob = Some clip)
    by (vm_compute; reflexivity).
  assert (H2 : audioData (snd (importData arrayArchive (run [Edit "1" (echoPad (3 # 10))])))
               !! "1" = Some (defaultPad "1")) by (vm_compute; reflexivity).
  split; [exact H1|]. split; [vm_compute; reflexivity|]. split; [exact H2|].
  intros E. rewrite E in H2. rewrite H2 in H1. discriminate H1.
Qed.

(** *** The per-slot cap *)

(** C1, at the failing input: pad 1 has a clip, echo delay 0.2 s and
    feedback 0.5; it is triggered twice before any echo has ended.  Each
    call adds seven instances and evicts none, so the second call returns
    with fourteen instances in the slot's list, above the cap of eight. *)
Theorem echo_path_exceeds_cap :
  let once := run [Edit "1" (echoPad (5 # 10)); Trigger browser "1"] in
  let twice := playAudio browser "1" once in
  length <$> audioInstancesRefs once !! "1" = Some 7%nat
  /\ length <$> audioInstancesRefs twice !! "1" = Some 14%nat
  /\ (maxInstances < 14)%nat.
Proof.
  split; [vm_compute; reflexivity|]. split; [vm_compute; reflexivity|].
  unfold maxInstances. lia.
Qed.

(** *** Frames of the playback operations *)

(** Projections through field updates. *)
Ltac fields :=
  cbn [audioData isPlaying buttonOrder outputDeviceId audioInstancesRefs audioContextRef
       audioNodesRef resourceCountRef cachedAudioRef elements liveUrls nextAudio nextUrl
       timers setAudioData setIsPlaying setButtonOrder setInstances setContext setNodes
       setCount setCached setElements setLiveUrls setNextAudio setNextUrl setTimers
       onElement pause rewind start revokeObjectURL countElements countNodes countUrls
       stopAndRevoke wire setPlaybackRate setVolume setLoop setSink setOnended].

Lemma live_alter (f : AudioElement -> AudioElement) (audio h : nat) (e : Engine) :
  live (onElement f audio e) h <-> live e h.
Proof.
  unfold live. fields. rewrite lookup_alter. case_decide; [|reflexivity].
  subst. apply fmap_is_Some.
Qed.

Lemma shell_cleanupAudioNodes (id : string) (audio : nat) (e : Engine) :
  shell (cleanupAudioNodes id audio e) = shell e
  /\ elements (cleanupAudioNodes id audio e) = elements e
  /\ audioInstancesRefs (cleanupAudioNodes id audio e) = audioInstancesRefs e.
Proof.
  unfold cleanupAudioNodes.
  destruct (audioNodesRef e !! id) as [nodes|]; [|repeat split].
  destruct (removeNodeOf audio nodes); repeat split.
Qed.

Lemma shell_releaseUrl (audio : nat) (e : Engine) :
  shell (releaseUrl audio e) = shell e
  /\ elements (releaseUrl audio e) = elements e
  /\ audioInstancesRefs (releaseUrl audio e) = audioInstancesRefs e.
Proof. unfold releaseUrl. destruct (elements e !! audio); repeat split. Qed.

Lemma shell_evict (id : string) (e : Engine) (audio : nat) :
  shell (evict id e audio) = shell e
  /\ (forall h, live (evict id e audio) h <-> live e h)
  /\ audioInstancesRefs (evict id e audio) = audioInstancesRefs e.
Proof.
  unfold evict.
  destruct (shell_cleanupAudioNodes id audio (pause audio e)) as (H1 & H2 & H3).
  remember (cleanupAudioNodes id audio (pause audio e)) as e1 eqn:E1. clear E1.
  destruct (shell_releaseUrl audio e1) as (H4 & H5 & H6).
  remember (releaseUrl audio e1) as e2 eqn:E2. clear E2.
  split; [|split].
  - change (shell e2 = shell e). rewrite H4, H1. reflexivity.
  - intros h. unfold live. change (elements (countElements decrement e2)) with (elements e2).
    rewrite H5, H2. apply (live_alter _ audio h e).
  - change (audioInstancesRefs e2 = audioInstancesRefs e). rewrite H6, H3. reflexivity.
Qed.

Lemma shell_evictions (id : string) (l : list nat) (e : Engine) :
  shell (foldl (evict id) e l) = shell e
  /\ (forall h, live (foldl (evict id) e l) h <-> live e h)
  /\ audioInstancesRefs (foldl (evict id) e l) = audioInstancesRefs e.
Proof.
  revert e. induction l as [|x l IH]; intros e; simpl.
  - repeat split; auto.
  - destruct (IH (evict id e x)) as (H1 & H2 & H3).
    destruct (shell_evict id e x) as (H4 & H5 & H6).
    split; [congruence|]. split; [|congruence].
    intros h. rewrite H2. apply H5.
Qed.

(** [limitAudioInstances] leaves the slot store, the playing flags, the
    cache, the allocation counters and the timers alone, destroys no
    element, and leaves fewer than [cap] instances in the slot's list. *)
Lemma limitAudioInstances_frame (id : string) (cap : nat) (e : Engine) :
  shell (limitAudioInstances id cap e) = shell e
  /\ (forall h, live (limitAudioInstances id cap e) h <-> live e h)
  /\ ((0 < cap)%nat ->
      (length (default [] (audioInstancesRefs (limitAudioInstances id cap e) !! id)) < cap)%nat).
Proof.
  unfold limitAudioInstances.
  destruct (audioInstancesRefs e !! id) as [instances|] eqn:Hi.
  - destruct (Nat.leb_spec cap (length instances)) as [Hle|Hlt].
    + cbv zeta.
      match goal with
      | |- context [foldl (evict id) ?x ?l] =>
          destruct (shell_evictions id l x) as (H1 & H2 & H3);
          remember (foldl (evict id) x l) as e1 eqn:E1; clear E1
      end.
      split; [rewrite H1; reflexivity|]. split; [intros h; rewrite H2; reflexivity|].
      intros Hcap. rewrite H3. fields. rewrite lookup_insert_eq. simpl.
      rewrite length_drop. lia.
    + split; [reflexivity|]. split; [reflexivity|]. intros _. rewrite Hi. simpl. exact Hlt.
  - split; [reflexivity|]. split; [reflexivity|]. intros Hcap. rewrite Hi. simpl. exact Hcap.
Qed.

Lemma lookup_push {A : Type} (id : string) (x : A) (m : gmap string (list A)) :
  push id x m !! id = Some (default [] (m !! id) ++ [x]).
Proof. unfold push. apply lookup_insert_eq. Qed.

Lemma tryPlay_frame (env : Browser) (audio : nat) (e : Engine) :
  isPlaying (tryPlay env audio e) = isPlaying e
  /\ cachedAudioRef (tryPlay env audio e) = cachedAudioRef e
  /\ audioInstancesRefs (tryPlay env audio e) = audioInstancesRefs e
  /\ (forall a, elements e !! audio = Some a ->
      exists a', elements (tryPlay env audio e) !! audio = Some a'
                 /\ elementLoop a' = elementLoop a /\ currentTime a' = currentTime a
                 /\ (playOk env = true -> paused a' = false)).
Proof.
  assert (Hstart : forall e0 : Engine, forall a, elements e0 !! audio = Some a ->
            exists a', elements (start audio e0) !! audio = Some a'
                       /\ elementLoop a' = elementLoop a /\ currentTime a' = currentTime a
                       /\ (playOk env = true -> paused a' = false)).
  { intros e0 a Ha. fields. rewrite lookup_alter_eq, Ha. simpl.
    eexists. split; [reflexivity|]. split; [reflexivity|]. split; [reflexivity|].
    intros _. reflexivity. }
  unfold tryPlay. destruct (playOk env) eqn:Hplay.
  - split; [reflexivity|]. split; [reflexivity|]. split; [reflexivity|]. apply Hstart.
  - assert (Hno : forall a, elements e !! audio = Some a ->
              exists a', elements e !! audio = Some a' /\ elementLoop a' = elementLoop a
                         /\ currentTime a' = currentTime a /\ (false = true -> paused a' = false)).
    { intros a Ha. exists a. split; [assumption|]. split; [reflexivity|].
      split; [reflexivity|]. discriminate. }
    destruct (audioContextRef e) as [[| |]|];
      try (split; [reflexivity|]; split; [reflexivity|]; split; [reflexivity|]; exact Hno).
    destruct (resumeOk env);
      [|split; [reflexivity|]; split; [reflexivity|]; split; [reflexivity|]; exact Hno].
    destruct (retryOk env);
      split; [reflexivity| |reflexivity|]; (split; [reflexivity|]); (split; [reflexivity|]).
    + intros a Ha. apply (Hstart (setContext (Some running) e) a Ha).
    + exact Hno.
Qed.

Lemma view_wireCached (env : Browser) (id : string) (data : AudioData) (audio : nat)
  (e : Engine) : view (wireCached env id data audio e) = view e.
Proof.
  unfold wireCached. destruct (audioContextRef e) as [[| |]|]; try reflexivity.
  destruct (wiringOk env); reflexivity.
Qed.

(** The [volume] setter accepts [Math.min(x, 1)] exactly when [x] is not
    negative. *)
Lemma volumeAccepted_min (x : Q) : (0 <= x)%Q -> volumeAccepted (Qmin x 1) = true.
Proof.
  intros Hx. unfold volumeAccepted. apply andb_true_iff. split; apply Qle_bool_iff.
  - apply Q.min_glb; [exact Hx | discriminate].
  - apply Q.le_min_r.
Qed.

Lemma volumeRefused_min (x : Q) : (x < 0)%Q -> volumeAccepted (Qmin x 1) = false.
Proof.
  intros Hx. unfold volumeAccepted. apply andb_false_iff. left.
  destruct (Qle_bool 0 (Qmin x 1)) eqn:E; [|reflexivity].
  apply Qle_bool_iff in E. apply Q.min_glb_l in E. exfalso. exact (Qlt_not_le _ _ Hx E).
Qed.

Lemma configure_accepted (data : AudioData) (audio : nat) (e : Engine) :
  (0 <= orNumber (volume data) 1)%Q ->
  configure data audio e
  = Normal (setLoop (default false (loop data)) audio
              (setVolume (Qmin (orNumber (volume data) 1) 1) audio
                 (setPlaybackRate (speed data) audio e))).
Proof.
  intros Hv. unfold configure. cbv zeta. rewrite (volumeAccepted_min _ Hv). reflexivity.
Qed.

Lemma configure_refused (data : AudioData) (audio : nat) (e : Engine) :
  (orNumber (volume data) 1 < 0)%Q ->
  configure data audio e = Abrupt (setPlaybackRate (speed data) audio e).
Proof.
  intros Hv. unfold configure. cbv zeta. rewrite (volumeRefused_min _ Hv). reflexivity.
Qed.

Lemma finishCached_spec (env : Browser) (id : string) (data : AudioData) (web isNew : bool)
  (audio : nat) (e : Engine) (a0 : AudioElement) :
  elements e !! audio = Some a0 ->
  isPlaying (finishCached env id data web isNew audio e) !! id = Some true
  /\ cachedAudioRef (finishCached env id data web isNew audio e) = cachedAudioRef e
  /\ audioInstancesRefs (finishCached env id data web isNew audio e) !! id
     = Some (default [] (audioInstancesRefs e !! id) ++ [audio])
  /\ exists a, elements (finishCached env id data web isNew audio e) !! audio = Some a
               /\ elementLoop a = elementLoop a0
               /\ currentTime a = currentTime a0
               /\ (playOk env = true -> paused a = false).
Proof.
  intros Ha0. unfold finishCached, registerCached. cbv zeta.
  set (e1 := setSink env (outputDeviceId e) audio e).
  assert (H1 : isPlaying e1 = isPlaying e /\ cachedAudioRef e1 = cachedAudioRef e
               /\ audioInstancesRefs e1 = audioInstancesRefs e
               /\ exists a1, elements e1 !! audio = Some a1
                             /\ elementLoop a1 = elementLoop a0
                             /\ currentTime a1 = currentTime a0).
  { subst e1. split; [reflexivity|]. split; [reflexivity|].
    split; [reflexivity|]. fields. rewrite lookup_alter_eq, Ha0. simpl.
    eexists. split; [reflexivity|]. split; reflexivity. }
  clearbody e1. destruct H1 as (Hp1 & Hc1 & Hi1 & a1 & Ha1 & Hl1 & Ht1).
  set (e2 := if web && isNew then wireCached env id data audio e1 else e1).
  assert (H2 : view e2 = view e1).
  { subst e2. destruct (web && isNew); [apply view_wireCached | reflexivity]. }
  clearbody e2. unfold view in H2. injection H2 as Hp2 Hc2 Hi2 He2.
  set (e3 := setInstances (push id audio (audioInstancesRefs e2)) e2).
  set (e4 := if isNew then countElements Z.succ e3 else e3).
  assert (H4 : isPlaying e4 = isPlaying e2 /\ cachedAudioRef e4 = cachedAudioRef e2
               /\ audioInstancesRefs e4 = push id audio (audioInstancesRefs e2)
               /\ elements e4 = elements e2).
  { subst e4 e3. destruct isNew; repeat split. }
  clearbody e4. clear e3. destruct H4 as (Hp4 & Hc4 & Hi4 & He4).
  set (e6 := setOnended (cachedEnded id) audio (setIsPlaying (<[id:=true]> (isPlaying e4)) e4)).
  assert (H6 : isPlaying e6 !! id = Some true /\ cachedAudioRef e6 = cachedAudioRef e4
               /\ audioInstancesRefs e6 = audioInstancesRefs e4
               /\ exists a6, elements e6 !! audio = Some a6
                             /\ elementLoop a6 = elementLoop a1
                             /\ currentTime a6 = currentTime a1).
  { subst e6. fields.
    split; [apply lookup_insert_eq|]. split; [reflexivity|]. split; [reflexivity|].
    rewrite lookup_alter_eq, He4, He2, Ha1. simpl.
    eexists. split; [reflexivity|]. split; reflexivity. }
  clearbody e6. destruct H6 as (Hp6 & Hc6 & Hi6 & a6 & Ha6 & Hl6 & Ht6).
  destruct (tryPlay_frame env audio e6) as (Hp7 & Hc7 & Hi7 & Ha7).
  destruct (Ha7 a6 Ha6) as (a7 & Hlk & Hl7 & Ht7 & Hpl).
  split; [rewrite Hp7; exact Hp6|].
  split; [congruence|].
  split; [rewrite Hi7, Hi6, Hi4, Hi2, Hi1; apply lookup_push|].
  exists a7. split; [exact Hlk|]. split; [congruence|]. split; [congruence|]. exact Hpl.
Qed.

Lemma playCached_spec (env : Browser) (id : string) (data : AudioData) (web : bool)
  (e : Engine) :
  (0 <= orNumber (volume data) 1)%Q ->
  (forall audio url, cachedAudioRef e !! id = Some (audio, url) -> live e audio) ->
  isPlaying (playCached env id data web e) !! id = Some true
  /\ exists audio url a,
       cachedAudioRef (playCached env id data web e) !! id = Some (audio, url)
       /\ audioInstancesRefs (playCached env id data web e) !! id
          = Some (default [] (audioInstancesRefs e !! id) ++ [audio])
       /\ elements (playCached env id data web e) !! audio = Some a
       /\ elementLoop a = default false (loop data)
       /\ currentTime a = 0%Q
       /\ (playOk env = true -> paused a = false).
Proof.
  intros Hv Hwf. unfold playCached, acquireCached.
  destruct (cachedAudioRef e !! id) as [[audio url]|] eqn:Hc.
  - destruct (Hwf audio url eq_refl) as [a0 Ha0].
    rewrite (configure_accepted _ _ _ Hv).
    match goal with
    | |- context [finishCached env id data web false audio ?x] =>
        assert (Hr : elements x !! audio
                     = Some (mkAudio (src a0) (paused a0) 0 (speed data)
                               (Qmin (orNumber (volume data) 1) 1) (default false (loop data))
                               (sinkId a0) (onended a0)))
          by (fields; rewrite !lookup_alter_eq, Ha0; reflexivity);
        assert (Hcx : cachedAudioRef x = cachedAudioRef e) by reflexivity;
        assert (Hix : audioInstancesRefs x = audioInstancesRefs e) by reflexivity;
        destruct (finishCached_spec env id data web false audio x _ Hr)
          as (Hp & Hcc & Hi & a & Ha & Hl & Ht & Hpl);
        remember (finishCached env id data web false audio x) as e' eqn:E';
        clear E'
    end.
    split; [exact Hp|]. exists audio, url, a.
    split; [rewrite Hcc, Hcx; exact Hc|]. split; [rewrite Hi, Hix; reflexivity|].
    split; [exact Ha|]. split; [exact Hl|]. split; [exact Ht|]. exact Hpl.
  - unfold createObjectURL, newAudio. cbv beta iota zeta.
    rewrite (configure_accepted _ _ _ Hv).
    match goal with
    | |- context [finishCached env id data web true ?h ?x] =>
        assert (Hn : elements x !! h
                     = Some (mkAudio (nextUrl e) true 0 (speed data)
                               (Qmin (orNumber (volume data) 1) 1) (default false (loop data))
                               EmptyString None))
          by (fields; rewrite !lookup_alter_eq, lookup_insert_eq; reflexivity);
        assert (Hcn : cachedAudioRef x !! id = Some (h, nextUrl e))
          by (fields; apply lookup_insert_eq);
        assert (Hin : audioInstancesRefs x = audioInstancesRefs e) by reflexivity;
        destruct (finishCached_spec env id data web true h x _ Hn)
          as (Hp & Hcc & Hi & a & Ha & Hl & Ht & Hpl);
        remember (finishCached env id data web true h x) as e' eqn:E';
        clear E'
    end.
    split; [exact Hp|]. exists (nextAudio e), (nextUrl e), a.
    split; [rewrite Hcc; exact Hcn|]. split; [rewrite Hi, Hin; reflexivity|].
    split; [exact Ha|]. split; [exact Hl|]. split; [exact Ht|]. exact Hpl.
Qed.

(** With a negative volume the cached path stops at the volume setter:
    the element is acquired and has its rate set, and nothing else
    happens. *)
Lemma playCached_refused (env : Browser) (id : string) (data : AudioData) (web : bool)
  (e : Engine) :
  (orNumber (volume data) 1 < 0)%Q ->
  playCached env id data web e
  = setPlaybackRate (speed data) (fst (fst (acquireCached id data e)))
      (snd (acquireCached id data e)).
Proof.
  intros Hv. unfold playCached.
  destruct (acquireCached id data e) as [[audio isNew] e1].
  rewrite (configure_refused _ _ _ Hv). reflexivity.
Qed.

Lemma acquireCached_frame (id : string) (data : AudioData) (e : Engine) :
  isPlaying (snd (acquireCached id data e)) = isPlaying e
  /\ audioInstancesRefs (snd (acquireCached id data e)) = audioInstancesRefs e
  /\ audioNodesRef (snd (acquireCached id data e)) = audioNodesRef e
  /\ timers (snd (acquireCached id data e)) = timers e.
Proof.
  unfold acquireCached. destruct (cachedAudioRef e !! id) as [[audio url]|]; repeat split.
Qed.

(** *** playAudio *)

(** Past the stop test, with a context at hand, [playAudio] is one of its
    two paths run on the state [limitAudioInstances] and the context set-up
    leave. *)
Lemma playAudio_dispatch (env : Browser) (id : string) (e : Engine) (data : AudioData) :
  audioData e !! id = Some data ->
  is_Some (audioBlob data) ->
  default false (loop data) && default false (isPlaying e !! id) = false ->
  is_Some (audioContextRef e) \/ is_Some (createContext env) ->
  exists e3,
    playAudio env id e
    = (if hasEcho data then playEcho env id data e3
       else playCached env id data (needsWebAudio data) e3)
    /\ shell e3 = (audioData e, isPlaying e, buttonOrder e, outputDeviceId e,
                   audioContextRef e3, cachedAudioRef e, nextAudio e, nextUrl e, timers e)
    /\ (forall h, live e3 h <-> live e h)
    /\ (length (default [] (audioInstancesRefs e3 !! id)) < maxInstances)%nat.
Proof.
  intros Hd [blob Hb] Hstop Hctx. unfold playAudio. rewrite Hd, Hb, Hstop.
  destruct (limitAudioInstances_frame id maxInstances e) as (Hs & Hl & Hn).
  specialize (Hn ltac:(unfold maxInstances; lia)).
  remember (limitAudioInstances id maxInstances e) as e1 eqn:E1. clear E1.
  unfold shell in Hs. injection Hs as Hs1 Hs2 Hs3 Hs4 Hs5 Hs6 Hs7 Hs8 Hs9.
  assert (Hgo : forall e2 : Engine,
            shell e2 = (audioData e, isPlaying e, buttonOrder e, outputDeviceId e,
                        audioContextRef e2, cachedAudioRef e, nextAudio e, nextUrl e, timers e) ->
            (forall h, live e2 h <-> live e h) ->
            (length (default [] (audioInstancesRefs e2 !! id)) < maxInstances)%nat ->
            exists e3,
              (let e4 := match audioContextRef e2 with
                         | Some suspended =>
                             if resumeOk env then setContext (Some running) e2 else e2
                         | _ => e2
                         end in
               if hasEcho data then playEcho env id data e4
               else playCached env id data (needsWebAudio data) e4)
              = (if hasEcho data then playEcho env id data e3
                 else playCached env id data (needsWebAudio data) e3)
              /\ shell e3 = (audioData e, isPlaying e, buttonOrder e, outputDeviceId e,
                             audioContextRef e3, cachedAudioRef e, nextAudio e, nextUrl e,
                             timers e)
              /\ (forall h, live e3 h <-> live e h)
              /\ (length (default [] (audioInstancesRefs e3 !! id)) < maxInstances)%nat).
  { intros e2 H2 Hl2 Hn2. cbv zeta. eexists. split; [reflexivity|].
    unfold shell in H2. injection H2 as H21 H22 H23 H24 H26 H27 H28 H29.
    destruct (audioContextRef e2) as [[| |]|]; try destruct (resumeOk env);
      (split; [unfold shell; fields; congruence|]); (split; assumption). }
  destruct (audioContextRef e1) as [st|] eqn:Hc1.
  - apply Hgo; [unfold shell; congruence | exact Hl | exact Hn].
  - destruct Hctx as [[st Hst] | [st Hst]]; [congruence|].
    rewrite Hst. apply Hgo; [unfold shell; fields; congruence | exact Hl | exact Hn].
Qed.

(** On the path without echo the cap holds: the call returns with at most
    [maxInstances] instances in the slot's list. *)
Lemma playAudio_cached_within_cap (env : Browser) (id : string) (e : Engine)
  (data : AudioData) :
  audioData e !! id = Some data ->
  is_Some (audioBlob data) ->
  default false (loop data) && default false (isPlaying e !! id) = false ->
  is_Some (audioContextRef e) \/ is_Some (createContext env) ->
  hasEcho data = false ->
  (forall audio url, cachedAudioRef e !! id = Some (audio, url) -> live e audio) ->
  (length (default [] (audioInstancesRefs (playAudio env id e) !! id)) <= maxInstances)%nat.
Proof.
  intros Hd Hb Hstop Hctx Hecho Hwf.
  destruct (playAudio_dispatch env id e data Hd Hb Hstop Hctx) as (e3 & -> & Hs & Hl & Hn).
  rewrite Hecho. unfold shell in Hs. injection Hs as _ _ _ _ Hc _ _ _.
  destruct (Qlt_le_dec (orNumber (volume data) 1) 0) as [Hneg|Hv].
  - rewrite (playCached_refused _ _ _ _ _ Hneg). fields.
    rewrite (proj1 (proj2 (acquireCached_frame id data e3))). lia.
  - destruct (playCached_spec env id data (needsWebAudio data) e3 Hv)
      as (_ & audio & url & a & _ & Hi & _).
    { intros audio url Hcu. apply Hl, (Hwf audio url). rewrite <- Hc. exact Hcu. }
    rewrite Hi. simpl. rewrite length_app. simpl. lia.
Qed.




(** *** The echo burst *)

(** Appending to a slot's list, several times over. *)
Lemma lookup_pushes {A : Type} (id : string) (xs : list A) (m : gmap string (list A)) :
  xs <> [] ->
  foldl (fun m x => push id x m) m xs !! id = Some (default [] (m !! id) ++ xs).
Proof.
  revert m. induction xs as [|x xs IH]; intros m Hne; [congruence|].
  cbn [foldl]. destruct xs as [|y xs].
  - cbn [foldl]. apply lookup_push.
  - rewrite IH by discriminate. rewrite lookup_push. cbn [from_option Datatypes.id].
    rewrite <- app_assoc. reflexivity.
Qed.

Lemma lookup_pushes_ne {A : Type} (id other : string) (xs : list A)
    (m : gmap string (list A)) :
  other <> id -> foldl (fun m x => push id x m) m xs !! other = m !! other.
Proof.
  intros Hne. revert m. induction xs as [|x xs IH]; intros m; [reflexivity|].
  cbn [foldl]. rewrite IH. unfold push. apply lookup_insert_ne. congruence.
Qed.

(** The volumes of a burst are not negative when the slot's volume and
    feedback are not. *)
Lemma echoVolume_nonneg (data : AudioData) (i : nat) :
  (0 <= orNumber (volume data) 1)%Q ->
  (0 <= orNumber (echoFeedback data) (1 # 2))%Q ->
  (0 <= echoVolume data i)%Q.
Proof.
  intros Hv Hf. destruct i as [|i]; [exact Hv|]. cbn [echoVolume]. cbv zeta.
  apply Qmult_le_0_compat; [|apply Qpower_0_le, Hf].
  apply Qmult_le_0_compat; [exact Hv | discriminate].
Qed.

(** One turn of the echo loop whose volume the setter accepts. *)
Lemma echoStep_accepted (env : Browser) (id : string) (data : AudioData) (e : Engine)
    (i : nat) :
  (0 <= echoVolume data i)%Q ->
  exists e',
    echoStep env id data e i = Normal e'
    /\ nextAudio e' = S (nextAudio e)
    /\ audioInstancesRefs e' = push id (nextAudio e) (audioInstancesRefs e)
    /\ timers e' = timers e ++ [((inject_Z (Z.of_nat i) * delayMs data)%Q, nextAudio e)]
    /\ isPlaying e' = isPlaying e
    /\ cachedAudioRef e' = cachedAudioRef e
    /\ audioData e' = audioData e
    /\ outputDeviceId e' = outputDeviceId e
    /\ elements e'
       = <[nextAudio e := mkAudio (nextUrl e) true 0 (speed data)
                            (Qmin (echoVolume data i) 1) false
                            (boundSink env (outputDeviceId e) EmptyString)
                            (Some (echoEnded id))]> (elements e).
Proof.
  intros Hv. unfold echoStep, echoOpen, createObjectURL, newAudio, echoClose.
  cbv beta iota zeta. rewrite (volumeAccepted_min _ Hv).
  eexists. split; [reflexivity|]. fields.
  destruct (audioContextRef e) as [[| |]|]; try destruct (wiringOk env); fields;
    rewrite !alter_insert_eq; repeat split; reflexivity.
Qed.

(** [n] turns of the echo loop from index [k], all with accepted volumes:
    [n] fresh elements are appended to the slot's list in order, each with
    its timer and its properties; older elements and other slots are not
    touched. *)
Lemma echoLoop_accepted (env : Browser) (id : string) (data : AudioData) (n : nat) :
  forall (e : Engine) (k : nat),
    (forall j, (j < n)%nat -> (0 <= echoVolume data (k + j))%Q) ->
    exists e',
      echoLoop env id data (seq k n) e = Normal e'
      /\ nextAudio e' = (nextAudio e + n)%nat
      /\ audioInstancesRefs e'
         = foldl (fun m x => push id x m) (audioInstancesRefs e) (seq (nextAudio e) n)
      /\ timers e'
         = timers e ++ map (fun j => ((inject_Z (Z.of_nat (k + j)) * delayMs data)%Q,
                                      (nextAudio e + j)%nat)) (seq 0 n)
      /\ isPlaying e' = isPlaying e
      /\ cachedAudioRef e' = cachedAudioRef e
      /\ audioData e' = audioData e
      /\ outputDeviceId e' = outputDeviceId e
      /\ (forall h, (h < nextAudio e)%nat -> elements e' !! h = elements e !! h)
      /\ (forall j, (j < n)%nat ->
          exists url,
            elements e' !! (nextAudio e + j)%nat
            = Some (mkAudio url true 0 (speed data) (Qmin (echoVolume data (k + j)) 1) false
                      (boundSink env (outputDeviceId e) EmptyString)
                      (Some (echoEnded id)))).
Proof.
  induction n as [|n IH]; intros e k Hv.
  - exists e. cbn [seq echoLoop foldl map]. rewrite Nat.add_0_r, app_nil_r.
    repeat split. intros j Hj. lia.
  - cbn [seq echoLoop].
    destruct (echoStep_accepted env id data e k) as (e1 & -> & Hn & Hi & Ht & Hp & Hc & Hd & Ho & He).
    { rewrite <- (Nat.add_0_r k). apply Hv. lia. }
    destruct (IH e1 (S k)) as (e' & -> & IHn & IHi & IHt & IHp & IHc & IHd & IHo & IHlow & IHnew).
    { intros j Hj. rewrite Nat.add_succ_l, <- Nat.add_succ_r. apply Hv. lia. }
    exists e'. split; [reflexivity|].
    split; [rewrite IHn, Hn; lia|].
    split; [rewrite IHi, Hn, Hi; reflexivity|].
    split.
    { rewrite IHt, Ht, Hn, <- app_assoc. f_equal. cbn [map app]. rewrite !Nat.add_0_r.
      f_equal. rewrite <- seq_shift, map_map. apply map_ext. intros j.
      rewrite !Nat.add_succ_r. reflexivity. }
    split; [congruence|]. split; [congruence|]. split; [congruence|]. split; [congruence|].
    split.
    { intros h Hh. rewrite IHlow by lia. rewrite He. apply lookup_insert_ne. lia. }
    intros [|j] Hj.
    + rewrite !Nat.add_0_r. exists (nextUrl e).
      rewrite IHlow by lia. rewrite He. apply lookup_insert_eq.
    + destruct (IHnew j ltac:(lia)) as (url & Ha).
      exists url. rewrite !Nat.add_succ_r. rewrite Hn, Ho in Ha. exact Ha.
Qed.

(** The echo path as a whole: [echoCount + 1] new instances. *)
Lemma playEcho_accepted (env : Browser) (id : string) (data : AudioData) (e : Engine)
    (n : nat) :
  Z.to_nat (echoCount data + 1) = S n ->
  (forall j, (j <= n)%nat -> (0 <= echoVolume data j)%Q) ->
  nextAudio (playEcho env id data e) = (nextAudio e + S n)%nat
  /\ audioInstancesRefs (playEcho env id data e) !! id
     = Some (default [] (audioInstancesRefs e !! id) ++ seq (nextAudio e) (S n))
  /\ (forall other, other <> id ->
      audioInstancesRefs (playEcho env id data e) !! other = audioInstancesRefs e !! other)
  /\ timers (playEcho env id data e)
     = timers e ++ map (fun j => ((inject_Z (Z.of_nat j) * delayMs data)%Q,
                                  (nextAudio e + j)%nat)) (seq 0 (S n))
  /\ isPlaying (playEcho env id data e) = <[id := true]> (isPlaying e)
  /\ cachedAudioRef (playEcho env id data e) = cachedAudioRef e
  /\ (forall h, (h < nextAudio e)%nat ->
      elements (playEcho env id data e) !! h = elements e !! h)
  /\ (forall j, (j <= n)%nat ->
      exists url,
        elements (playEcho env id data e) !! (nextAudio e + j)%nat
        = Some (mkAudio url true 0 (speed data) (Qmin (echoVolume data j) 1) false
                  (boundSink env (outputDeviceId e) EmptyString) (Some (echoEnded id)))).
Proof.
  intros Hc Hv. unfold playEcho. rewrite Hc.
  destruct (echoLoop_accepted env id data (S n) e 0)
    as (e' & -> & Ln & Li & Lt & Lp & Lc & _ & _ & Llow & Lnew).
  { intros j Hj. apply Hv. lia. }
  fields.
  split; [exact Ln|].
  split; [rewrite Li; apply lookup_pushes; discriminate|].
  split; [intros other Hne; rewrite Li; apply lookup_pushes_ne, Hne|].
  split; [exact Lt|]. split; [rewrite Lp; reflexivity|]. split; [exact Lc|].
  split; [exact Llow|].
  intros j Hj. apply (Lnew j). lia.
Qed.




End EngineProofs.

(** ** Further properties of the codec *)

Module CodecExtras.
Import Codec Scenarios Predicates Fixtures.

Lemma le32_value_mod (v : Z) :
  (v mod 256 + 256 * ((v / 256) mod 256) + 65536 * ((v / 65536) mod 256)
   + 16777216 * ((v / 16777216) mod 256) = v mod 4294967296)%Z.
Proof. Z.div_mod_to_equations. lia. Qed.

Lemma isByte_mod (v : Z) : isByte (v mod 256).
Proof. unfold isByte. apply Z.mod_pos_bound. lia. Qed.

Lemma pcmBytes_bytes (first count : nat) (chans : list (list Q)) :
  Forall isByte (pcmBytes first count chans).
Proof.
  unfold pcmBytes. apply Forall_flat_map, Forall_forall. intros i _.
  unfold frameBytes. apply Forall_flat_map, Forall_forall. intros ch _.
  unfold le16. repeat constructor; apply isByte_mod.
Qed.

(** X1. [bufferToWav] returns a blob of type [audio/wav] for every
    buffer, whatever its size: no write leaves the array.  The blob opens
    with the tags RIFF, WAVE and "fmt ", has the tag "data" at offset 36, a
    format chunk of size 16 with format tag 1 (PCM), and a RIFF size field
    holding 36 plus the data length, modulo 2^32; every element of the
    result is a byte. *)
Theorem bufferToWav_chunks (b : AudioBuffer) :
  exists view,
    bufferToWav b = Some {| blobBytes := view; blobType := "audio/wav" |}
    /\ take 4 view = [82; 73; 70; 70]%Z
    /\ take 8 (drop 8 view) = [87; 65; 86; 69; 102; 109; 116; 32]%Z
    /\ take 4 (drop 36 view) = [100; 97; 116; 97]%Z
    /\ getUint32 view 16 = 16%Z
    /\ getUint16 view 20 = 1%Z
    /\ getUint32 view 4
       = ((36 + Z.of_nat (bufferLength b) * Z.of_nat (numberOfChannels b) * 2)
          mod 4294967296)%Z
    /\ Forall isByte view.
Proof.
  exists (headerBytes (bufferLength b) (numberOfChannels b) (sampleRate b)
          ++ pcmBytes 0 (bufferLength b) (channels b)).
  split; [apply CodecProofs.bufferToWav_layout|].
  unfold headerBytes, le32, le16. cbn [app].
  split; [reflexivity|]. split; [reflexivity|]. split; [reflexivity|].
  split; [reflexivity|]. split; [reflexivity|].
  split.
  - unfold getUint32, byteAt. cbn [nth]. apply le32_value_mod.
  - repeat (apply Forall_cons; split; [first [apply isByte_mod | unfold isByte; lia]|]).
    apply pcmBytes_bytes.
Qed.

(** Dropping the fraction is rounding down for non-negative numbers and
    rounding up for negative ones. *)
Lemma truncate_floor (x : Q) : (0 <= Qnum x)%Z -> truncate x = Qfloor x.
Proof.
  intros H. destruct x as [a d]. unfold truncate, Qfloor. simpl in *.
  apply Z.quot_div_nonneg; lia.
Qed.

Lemma truncate_ceiling (x : Q) : (Qnum x <= 0)%Z -> truncate x = Qceiling x.
Proof.
  intros H. destruct x as [a d]. unfold truncate, Qceiling, Qfloor. simpl in *.
  replace a with (- (- a))%Z at 1 by lia.
  rewrite Z.quot_opp_l by lia. f_equal. apply Z.quot_div_nonneg; lia.
Qed.

Lemma truncate_mono (x y : Q) : (x <= y)%Q -> (truncate x <= truncate y)%Z.
Proof.
  intros Hxy.
  destruct (Z.le_gt_cases 0 (Qnum x)) as [Hx|Hx].
  - assert (Hy : (0 <= Qnum y)%Z).
    { unfold Qle in Hxy. destruct x as [a d], y as [c f]. simpl in *. nia. }
    rewrite !truncate_floor by assumption. apply Qfloor_resp_le, Hxy.
  - destruct (Z.le_gt_cases 0 (Qnum y)) as [Hy|Hy].
    + rewrite truncate_ceiling by lia. rewrite truncate_floor by assumption.
      assert (Hc : (Qceiling x <= 0)%Z).
      { change 0%Z with (Qceiling 0). apply Qceiling_resp_le.
        unfold Qle. simpl. lia. }
      assert (Hf : (0 <= Qfloor y)%Z).
      { change 0%Z with (Qfloor 0). apply Qfloor_resp_le.
        unfold Qle. simpl. lia. }
      lia.
    + rewrite !truncate_ceiling by lia. apply Qceiling_resp_le, Hxy.
Qed.

Lemma clamp_mono (x y : Q) : (x <= y)%Q -> (clamp x <= clamp y)%Q.
Proof.
  intros H. unfold clamp.
  apply Q.max_le_compat_l, Q.min_le_compat_l, H.
Qed.

(** The quantiser is monotone. *)
Lemma pcm16_mono (x y : Q) : (x <= y)%Q -> (pcm16 x <= pcm16 y)%Z.
Proof.
  intros H. unfold pcm16. apply truncate_mono.
  apply Qmult_le_compat_r; [apply clamp_mono, H | discriminate].
Qed.

Lemma pcm16_high (x : Q) : (1 <= x)%Q -> pcm16 x = 32767%Z.
Proof.
  intros H. pose proof (pcm16_mono 1 x H) as Hm.
  pose proof (CodecProofs.pcm16_range x) as Hr.
  change (pcm16 1) with 32767%Z in Hm. lia.
Qed.

Lemma pcm16_low (x : Q) : (x <= -1)%Q -> pcm16 x = (-32767)%Z.
Proof.
  intros H. pose proof (pcm16_mono x (-1) H) as Hm.
  pose proof (CodecProofs.pcm16_range x) as Hr.
  change (pcm16 (-1)) with (-32767)%Z in Hm. lia.
Qed.

(** X2. The 16-bit value [bufferToWav] stores for a sample is monotone in
    the sample and saturates: it lies between -32767 and 32767 (-32768 is
    never written), is 32767 for every sample of 1 or more, -32767 for
    every sample of -1 or less, keeps the sign of the sample, and a louder
    sample never gets a smaller value than a quieter one. *)
Theorem bufferToWav_saturates (b : AudioBuffer) :
  exists view,
    bufferToWav b = Some {| blobBytes := view; blobType := "audio/wav" |}
    /\ forall i ch, (i < bufferLength b)%nat -> (ch < numberOfChannels b)%nat ->
       let x := getSample (nth ch (channels b) []) (Z.of_nat i) in
       let v := getInt16 view (44 + 2 * (i * numberOfChannels b + ch)) in
       (-32767 <= v <= 32767)%Z
       /\ ((1 <= x)%Q -> v = 32767%Z)
       /\ ((x <= -1)%Q -> v = (-32767)%Z)
       /\ ((0 <= x)%Q -> (0 <= v)%Z)
       /\ ((x <= 0)%Q -> (v <= 0)%Z)
       /\ forall i' ch', (i' < bufferLength b)%nat -> (ch' < numberOfChannels b)%nat ->
          (x <= getSample (nth ch' (channels b) []) (Z.of_nat i'))%Q ->
          (v <= getInt16 view (44 + 2 * (i' * numberOfChannels b + ch')))%Z.
Proof.
  exists (headerBytes (bufferLength b) (numberOfChannels b) (sampleRate b)
          ++ pcmBytes 0 (bufferLength b) (channels b)).
  split; [apply CodecProofs.bufferToWav_layout|].
  assert (Hread : forall i ch, (i < bufferLength b)%nat -> (ch < numberOfChannels b)%nat ->
            getInt16 (headerBytes (bufferLength b) (numberOfChannels b) (sampleRate b)
                      ++ pcmBytes 0 (bufferLength b) (channels b))
              (44 + 2 * (i * numberOfChannels b + ch))
            = pcm16 (getSample (nth ch (channels b) []) (Z.of_nat i))).
  { intros i ch Hi Hch. apply CodecProofs.getInt16_sample; [reflexivity | exact Hi | exact Hch]. }
  intros i ch Hi Hch. cbv zeta. rewrite (Hread i ch Hi Hch).
  split; [apply CodecProofs.pcm16_range|].
  split; [apply pcm16_high|]. split; [apply pcm16_low|].
  split; [intros H; apply (pcm16_mono 0 _ H)|].
  split; [intros H; apply (pcm16_mono _ 0 H)|].
  intros i' ch' Hi' Hch' Hle. rewrite (Hread i' ch' Hi' Hch'). apply pcm16_mono, Hle.
Qed.

(** *** trimSilence on buffers *)

Lemma map_nth_seq (ch : list Q) :
  map (fun i => nth i ch 0%Q) (seq 0 (length ch)) = ch.
Proof.
  induction ch as [|x ch IH]; [reflexivity|].
  cbn [length seq map nth]. f_equal.
  rewrite <- seq_shift, map_map. exact IH.
Qed.

Lemma map_nth_drop (s n : nat) (ch : list Q) :
  length ch = (s + n)%nat ->
  map (fun i => nth (i + s) ch 0%Q) (seq 0 n) = drop s ch.
Proof.
  revert ch. induction s as [|s IH]; intros ch Hlen.
  - simpl in Hlen. subst n. rewrite drop_0. rewrite <- (map_nth_seq ch) at 2.
    apply map_ext. intros i. rewrite Nat.add_0_r. reflexivity.
  - destruct ch as [|x ch]; [discriminate|]. simpl in Hlen.
    change (drop (S s) (x :: ch)) with (drop s ch).
    rewrite <- (IH ch) by lia. apply map_ext. intros i.
    rewrite Nat.add_succ_r. reflexivity.
Qed.

(** On a channel of the right length the copy loop takes the tail. *)
Lemma copyTail_drop (s n : nat) (ch : list Q) :
  length ch = (s + n)%nat -> copyTail (Z.of_nat s) n ch = drop s ch.
Proof.
  intros Hlen. rewrite <- (map_nth_drop s n ch Hlen). unfold copyTail.
  apply map_ext. intros i. unfold getSample.
  destruct (Z.ltb_spec (Z.of_nat i + Z.of_nat s) 0); [lia|].
  f_equal. lia.
Qed.

Lemma map_copyTail (z : Z) (len : nat) (chans : list (list Q)) :
  (0 <= z < Z.of_nat len)%Z ->
  Forall (fun ch => length ch = len) chans ->
  map (copyTail z (Z.to_nat (Z.of_nat len - z))) chans = map (drop (Z.to_nat z)) chans.
Proof.
  intros Hz H. induction H as [|ch chans Hch _ IH]; [reflexivity|].
  cbn [map]. rewrite IH. f_equal.
  rewrite <- (copyTail_drop (Z.to_nat z) (Z.to_nat (Z.of_nat len - z)) ch) by lia.
  rewrite Z2Nat.id by lia. reflexivity.
Qed.

(** What the scanning loop finds: the samples before the index are at or
    below the threshold, the sample at the index is above it. *)
Lemma firstLoud_spec (data : list Q) :
  forall k i, firstLoud k data = Some i ->
    (k <= i)%nat /\ (i - k < length data)%nat
    /\ Forall (fun x => isLoud x = false) (take (i - k) data)
    /\ isLoud (nth (i - k) data 0%Q) = true.
Proof.
  induction data as [|x data IH]; intros k i H; simpl in H; [discriminate|].
  destruct (isLoud x) eqn:Hx.
  - injection H as <-. rewrite Nat.sub_diag. simpl.
    split; [lia|]. split; [lia|]. split; [constructor | exact Hx].
  - destruct (IH (S k) i H) as (Hk & Hlen & Hq & Hl).
    replace (i - k)%nat with (S (i - S k)) by lia. simpl.
    split; [lia|]. split; [lia|]. split; [constructor; assumption | exact Hl].
Qed.

Lemma firstLoud_silent (data : list Q) (k : nat) :
  Forall (fun x => isLoud x = false) data -> firstLoud k data = None.
Proof.
  intros H. revert k. induction H as [|x data Hx _ IH]; intros k; simpl; [reflexivity|].
  rewrite Hx. apply IH.
Qed.

Lemma belowNoop_false (rate s : Z) : belowNoop rate s = false -> (rate <= 20 * s)%Z.
Proof.
  unfold belowNoop. intros H. apply negb_false_iff, Qle_bool_iff in H.
  unfold Qle in H. simpl in H. lia.
Qed.

(** X3. When [trimSilence] trims a decoded buffer whose channels all have
    the length of channel 0, the new buffer keeps the sample rate and the
    number of channels, each of its channels is the old channel without its
    first [startSample] samples, the cut is at least 50 ms, and the result
    is shorter than the input but not empty. *)
Theorem trimBuffer_tail (b t : AudioBuffer) (channelData : list Q) (others : list (list Q)) :
  channels b = channelData :: others ->
  uniform b ->
  (0 < sampleRate b)%Z ->
  trimBuffer b = Some t ->
  exists s : nat,
    Z.of_nat s = startSample (sampleRate b) channelData
    /\ (0 < s < length channelData)%nat
    /\ (sampleRate b <= 20 * Z.of_nat s)%Z
    /\ sampleRate t = sampleRate b
    /\ numberOfChannels t = numberOfChannels b
    /\ bufferLength t = (length channelData - s)%nat
    /\ channels t = map (drop s) (channels b).
Proof.
  intros Hch Hu Hrate Ht. unfold trimBuffer in Ht. unfold uniform in Hu.
  rewrite Hch in Ht, Hu. cbv zeta in Ht.
  destruct (belowNoop (sampleRate b) (startSample (sampleRate b) channelData)) eqn:Hb;
    [discriminate|].
  apply belowNoop_false in Hb.
  destruct (Z.leb_spec (Z.of_nat (length channelData) - startSample (sampleRate b) channelData) 0)
    as [|Hpos]; [discriminate|].
  injection Ht as <-.
  exists (Z.to_nat (startSample (sampleRate b) channelData)).
  remember (startSample (sampleRate b) channelData) as z eqn:Ez. clear Ez.
  split; [lia|]. split; [lia|]. split; [lia|]. split; [reflexivity|].
  split; [unfold numberOfChannels; cbn [channels]; rewrite Hch; simpl;
          rewrite List.length_map; reflexivity|].
  split; [cbn [bufferLength]; lia|].
  cbn [channels]. rewrite Hch.
  apply (map_copyTail z (length channelData) (channelData :: others)); [lia | exact Hu].
Qed.

Lemma trimBuffer_tail_witness :
  exists s : nat,
    Z.of_nat s = startSample (sampleRate quietThenLoudBuffer)
                   (replicate 400 0%Q ++ replicate 100 (1 # 2)%Q)
    /\ (0 < s < length (replicate 400 0%Q ++ replicate 100 (1 # 2)%Q))%nat
    /\ (sampleRate quietThenLoudBuffer <= 20 * Z.of_nat s)%Z
    /\ sampleRate loudTail = sampleRate quietThenLoudBuffer
    /\ numberOfChannels loudTail = numberOfChannels quietThenLoudBuffer
    /\ bufferLength loudTail = (length (replicate 400 0%Q ++ replicate 100 (1 # 2)%Q) - s)%nat
    /\ channels loudTail = map (drop s) (channels quietThenLoudBuffer).
Proof.
  apply (trimBuffer_tail quietThenLoudBuffer loudTail _ [replicate 500 (1 # 4)%Q]).
  - reflexivity.
  - unfold uniform. simpl channels. repeat constructor.
  - reflexivity.
  - vm_compute. reflexivity.
Defined.

(** X4. When the scan finds the first sample above the threshold of 0.005
    at an index [i > 0] and the buffer is trimmed, exactly the [i] samples before
    it are removed, all of them at or below the threshold on channel 0, and
    channel 0 of the result opens with that sample. *)
Theorem trimBuffer_removes_silence (b t : AudioBuffer) (channelData : list Q)
  (others : list (list Q)) (i : nat) :
  channels b = channelData :: others ->
  firstLoud 0 channelData = Some i ->
  (0 < i)%nat ->
  trimBuffer b = Some t ->
  startSample (sampleRate b) channelData = Z.of_nat i
  /\ Forall (fun x => isLoud x = false) (take i channelData)
  /\ bufferLength t = (length channelData - i)%nat
  /\ exists x tl rest, channels t = (x :: tl) :: rest
                       /\ x = nth i channelData 0%Q /\ isLoud x = true.
Proof.
  intros Hch Hf Hi Ht.
  destruct (firstLoud_spec channelData 0 i Hf) as (_ & Hlen & Hq & Hl).
  rewrite Nat.sub_0_r in Hlen, Hq, Hl.
  assert (Hs : startSample (sampleRate b) channelData = Z.of_nat i).
  { unfold startSample. rewrite Hf.
    destruct (Z.eqb_spec (Z.of_nat i) 0); [lia | reflexivity]. }
  unfold trimBuffer in Ht. rewrite Hch in Ht. cbv zeta in Ht. rewrite Hs in Ht.
  destruct (belowNoop (sampleRate b) (Z.of_nat i)); [discriminate|].
  destruct (Z.leb_spec (Z.of_nat (length channelData) - Z.of_nat i) 0) as [|Hpos];
    [discriminate|].
  injection Ht as <-.
  split; [exact Hs|]. split; [exact Hq|]. split; [cbn [bufferLength]; lia|].
  cbn [channels map].
  replace (Z.to_nat (Z.of_nat (length channelData) - Z.of_nat i))
    with (S (length channelData - i - 1)) by lia.
  unfold copyTail at 1. cbn [seq map].
  eexists _, _, _. split; [reflexivity|].
  assert (Hx : getSample channelData (Z.of_nat 0 + Z.of_nat i) = nth i channelData 0%Q).
  { unfold getSample. destruct (Z.ltb_spec (Z.of_nat 0 + Z.of_nat i) 0); [lia|].
    f_equal. lia. }
  rewrite Hx. split; [reflexivity | exact Hl].
Qed.

Lemma trimBuffer_removes_silence_witness :
  startSample (sampleRate quietThenLoudBuffer) (replicate 400 0%Q ++ replicate 100 (1 # 2)%Q)
  = Z.of_nat 400
  /\ Forall (fun x => isLoud x = false) (take 400 (replicate 400 0%Q ++ replicate 100 (1 # 2)%Q))
  /\ bufferLength loudTail = (length (replicate 400 0%Q ++ replicate 100 (1 # 2)%Q) - 400)%nat
  /\ exists x tl rest, channels loudTail = (x :: tl) :: rest
                       /\ x = nth 400 (replicate 400 0%Q ++ replicate 100 (1 # 2)%Q) 0%Q
                       /\ isLoud x = true.
Proof.
  apply (trimBuffer_removes_silence quietThenLoudBuffer loudTail _ [replicate 500 (1 # 4)%Q]).
  - reflexivity.
  - vm_compute. reflexivity.
  - lia.
  - vm_compute. reflexivity.
Defined.

(** X5. A recording in which no sample of channel 0 exceeds the
    threshold is not left alone: at a sample rate of 20 Hz or more, a clip
    longer than 100 ms loses its first [floor(sampleRate / 10)] frames, and
    only a clip of at most 100 ms is returned unchanged. *)
Theorem trimBuffer_silent_clip (b : AudioBuffer) (channelData : list Q)
  (others : list (list Q)) :
  channels b = channelData :: others ->
  Forall (fun x => isLoud x = false) channelData ->
  (20 <= sampleRate b)%Z ->
  ((sampleRate b < 10 * Z.of_nat (length channelData))%Z ->
   exists t, trimBuffer b = Some t
             /\ bufferLength t = (length channelData - Z.to_nat (sampleRate b / 10))%nat
             /\ (bufferLength t < length channelData)%nat)
  /\ ((10 * Z.of_nat (length channelData) <= sampleRate b)%Z -> trimBuffer b = None).
Proof.
  intros Hch Hq Hrate.
  assert (Hf : firstLoud 0 channelData = None) by (apply firstLoud_silent, Hq).
  assert (Hfloor : Qfloor (inject_Z (sampleRate b) * (1 # 10)) = (sampleRate b / 10)%Z).
  { unfold Qfloor. simpl. rewrite Z.mul_1_r. reflexivity. }
  split.
  - intros Hlong.
    assert (Hs : startSample (sampleRate b) channelData = (sampleRate b / 10)%Z).
    { unfold startSample. rewrite Hf. cbn [Z.eqb andb].
      destruct (Qle_bool (inject_Z (Z.of_nat (length channelData)))
                         (inject_Z (sampleRate b) * (1 # 10))) eqn:E; [|exact Hfloor].
      apply Qle_bool_iff in E. unfold Qle in E. simpl in E. lia. }
    unfold trimBuffer. rewrite Hch. cbv zeta. rewrite Hs.
    assert (Hb : belowNoop (sampleRate b) (sampleRate b / 10) = false).
    { unfold belowNoop. apply negb_false_iff, Qle_bool_iff. unfold Qle. simpl.
      Z.div_mod_to_equations. lia. }
    rewrite Hb.
    destruct (Z.leb_spec (Z.of_nat (length channelData) - sampleRate b / 10) 0) as [Hle|Hpos].
    + exfalso. Z.div_mod_to_equations. lia.
    + eexists. split; [reflexivity|]. cbn [bufferLength].
      assert (Hq0 : (0 < sampleRate b / 10)%Z) by (Z.div_mod_to_equations; lia).
      remember (sampleRate b / 10)%Z as q eqn:Eq. clear Eq.
      split; lia.
  - intros Hshort.
    assert (Hs : startSample (sampleRate b) channelData = 0%Z).
    { unfold startSample. rewrite Hf. cbn [Z.eqb andb].
      destruct (Qle_bool (inject_Z (Z.of_nat (length channelData)))
                         (inject_Z (sampleRate b) * (1 # 10))) eqn:E; [reflexivity|].
      exfalso. apply (f_equal negb) in E. cbn in E. apply negb_true_iff in E.
      assert (H : (inject_Z (Z.of_nat (length channelData))
                   <= inject_Z (sampleRate b) * (1 # 10))%Q)
        by (unfold Qle; simpl; lia).
      apply Qle_bool_iff in H. congruence. }
    unfold trimBuffer. rewrite Hch. cbv zeta. rewrite Hs.
    rewrite CodecProofs.belowNoop_zero by lia. reflexivity.
Qed.

Lemma trimBuffer_silent_clip_witness :
  ((sampleRate silentBuffer < 10 * Z.of_nat (length (replicate 1000 0%Q)))%Z ->
   exists t, trimBuffer silentBuffer = Some t
             /\ bufferLength t
                = (length (replicate 1000 0%Q) - Z.to_nat (sampleRate silentBuffer / 10))%nat
             /\ (bufferLength t < length (replicate 1000 0%Q))%nat)
  /\ ((10 * Z.of_nat (length (replicate 1000 0%Q)) <= sampleRate silentBuffer)%Z ->
      trimBuffer silentBuffer = None).
Proof.
  apply (trimBuffer_silent_clip silentBuffer (replicate 1000 0%Q) []).
  - reflexivity.
  - apply Forall_replicate. reflexivity.
  - simpl. lia.
Defined.

(** *** Quantisation error *)

Lemma truncate_error (x : Q) :
  (Qabs (x - inject_Z (truncate x)) < 1)%Q /\ (Qabs (inject_Z (truncate x)) <= Qabs x)%Q.
Proof.
  destruct x as [a d]. unfold truncate. cbn [Qnum Qden].
  pose proof (Z.quot_rem' a (Z.pos d)) as Hqr.
  assert (Hrem : (Z.abs (Z.rem a (Z.pos d)) < Z.pos d)%Z) by (apply Z.rem_bound_abs; lia).
  assert (Hmag : (Z.abs (Z.quot a (Z.pos d) * Z.pos d) <= Z.abs a)%Z).
  { rewrite (Z.mul_comm (Z.quot a (Z.pos d))).
    destruct (Z.le_gt_cases 0 a) as [Ha|Ha].
    - pose proof (Z.mul_quot_le a (Z.pos d) Ha ltac:(lia)).
      assert (0 <= Z.pos d * Z.quot a (Z.pos d))%Z
        by (apply Z.mul_nonneg_nonneg; [lia | apply Z.quot_pos; lia]).
      lia.
    - pose proof (Z.mul_quot_ge a (Z.pos d) ltac:(lia) ltac:(lia)). lia. }
  remember (Z.quot a (Z.pos d)) as q eqn:Eq. remember (Z.rem a (Z.pos d)) as r eqn:Er.
  clear Eq Er.
  split.
  - unfold Qlt, Qabs, Qminus, Qplus, Qopp, inject_Z. cbn [Qnum Qden].
    rewrite Z.mul_1_r. replace (a * 1 + - q * Z.pos d)%Z with r by lia.
    rewrite Pos.mul_1_r, Z.mul_1_l. exact Hrem.
  - unfold Qle, Qabs, inject_Z. cbn [Qnum Qden]. rewrite Z.mul_1_r.
    rewrite <- (Z.abs_eq (Z.pos d)) at 1 by lia. rewrite <- Z.abs_mul. exact Hmag.
Qed.

(** X28. The 16-bit value [bufferToWav] stores for a sample differs from
    the clamped sample scaled by 32767 by less than one step and is never
    larger in magnitude: the conversion rounds toward zero. *)
Theorem bufferToWav_quantises (b : AudioBuffer) :
  exists view,
    bufferToWav b = Some {| blobBytes := view; blobType := "audio/wav" |}
    /\ forall i ch, (i < bufferLength b)%nat -> (ch < numberOfChannels b)%nat ->
       let x := getSample (nth ch (channels b) []) (Z.of_nat i) in
       let v := getInt16 view (44 + 2 * (i * numberOfChannels b + ch)) in
       (Qabs (clamp x * (32767 # 1) - inject_Z v) < 1)%Q
       /\ (Qabs (inject_Z v) <= Qabs (clamp x * (32767 # 1)))%Q.
Proof.
  exists (headerBytes (bufferLength b) (numberOfChannels b) (sampleRate b)
          ++ pcmBytes 0 (bufferLength b) (channels b)).
  split; [apply CodecProofs.bufferToWav_layout|].
  intros i ch Hi Hch. cbv zeta.
  rewrite CodecProofs.getInt16_sample by (reflexivity || assumption).
  unfold pcm16. apply truncate_error.
Qed.

End CodecExtras.

(** ** Further properties of the engine *)

Module EngineExtras.
Import Codec Engine Scenarios Observations Predicates Fixtures EngineProofs.

(** *** Eviction *)

Lemma elements_evict (id : string) (e : Engine) (audio : nat) :
  elements (evict id e audio) = elements (pause audio e).
Proof.
  unfold evict.
  destruct (shell_cleanupAudioNodes id audio (pause audio e)) as (_ & H2 & _).
  remember (cleanupAudioNodes id audio (pause audio e)) as e1 eqn:E1. clear E1.
  destruct (shell_releaseUrl audio e1) as (_ & H5 & _).
  change (elements (releaseUrl audio e1) = elements (pause audio e)).
  rewrite H5. exact H2.
Qed.

Lemma pausedAt_evict (id : string) (e : Engine) (audio h : nat) :
  pausedAt e h -> pausedAt (evict id e audio) h.
Proof.
  intros (a & Ha & Hp). unfold pausedAt. rewrite elements_evict. fields.
  rewrite lookup_alter. case_decide.
  - subst. rewrite Ha. simpl. eexists. split; [reflexivity|]. reflexivity.
  - exists a. split; assumption.
Qed.

Lemma pausedAt_evict_self (id : string) (e : Engine) (audio : nat) :
  live e audio -> pausedAt (evict id e audio) audio.
Proof.
  intros [a Ha]. unfold pausedAt. rewrite elements_evict. fields.
  rewrite lookup_alter_eq, Ha. simpl. eexists. split; reflexivity.
Qed.

Lemma pausedAt_evictions (id : string) (l : list nat) (e : Engine) (h : nat) :
  (pausedAt e h \/ (h ∈ l /\ live e h)) -> pausedAt (foldl (evict id) e l) h.
Proof.
  revert e. induction l as [|x l IH]; intros e H; simpl.
  - destruct H as [H|[H _]]; [exact H|]. inversion H.
  - apply IH. destruct H as [H|[Hin Hl]].
    + left. apply pausedAt_evict, H.
    + apply elem_of_cons in Hin. destruct Hin as [->|Hin].
      * left. apply pausedAt_evict_self, Hl.
      * right. split; [exact Hin|]. apply (proj2 (shell_evict id e x)), Hl.
Qed.

(** X6. [limitAudioInstances] on a slot with [length] instances: below
    the cap the state is returned as it is; at or above a positive cap the
    [length - cap + 1] oldest instances are taken off the front of the
    list, so the newest [cap - 1] remain in their order; every evicted
    element that exists is paused; the lists of the other slots are not
    touched. *)
Theorem limitAudioInstances_keeps_newest (id : string) (cap : nat) (e : Engine)
  (instances : list nat) :
  audioInstancesRefs e !! id = Some instances ->
  ((length instances < cap)%nat -> limitAudioInstances id cap e = e)
  /\ ((0 < cap <= length instances)%nat ->
      let e' := limitAudioInstances id cap e in
      let count := (length instances - cap + 1)%nat in
      audioInstancesRefs e' !! id = Some (drop count instances)
      /\ length (drop count instances) = (cap - 1)%nat
      /\ (forall audio, audio ∈ take count instances -> live e audio -> pausedAt e' audio)
      /\ (forall other, other <> id ->
          audioInstancesRefs e' !! other = audioInstancesRefs e !! other)).
Proof.
  intros Hi. unfold limitAudioInstances. rewrite Hi. split.
  - intros Hlt. destruct (Nat.leb_spec cap (length instances)); [lia | reflexivity].
  - intros Hcap. destruct (Nat.leb_spec cap (length instances)); [|lia]. cbv zeta.
    match goal with
    | |- context [foldl (evict id) ?x ?l] =>
        destruct (shell_evictions id l x) as (_ & _ & H3);
        pose proof (fun h => pausedAt_evictions id l x h) as Hp;
        remember (foldl (evict id) x l) as e1 eqn:E1; clear E1
    end.
    rewrite H3. fields.
    split; [apply lookup_insert_eq|]. split; [rewrite length_drop; lia|].
    split.
    + intros audio Hin Hl. apply Hp. right. split; [exact Hin | exact Hl].
    + intros other Hne. apply lookup_insert_ne. congruence.
Qed.

Lemma limitAudioInstances_keeps_newest_witness :
  audioInstancesRefs (limitAudioInstances "1" 8 busySlot) !! "1"
  = Some [7; 8; 9; 10; 11; 12; 13]%nat
  /\ pausedAt (limitAudioInstances "1" 8 busySlot) 6.
Proof.
  assert (Hi : audioInstancesRefs busySlot !! "1"
               = Some [0; 1; 2; 3; 4; 5; 6; 7; 8; 9; 10; 11; 12; 13]%nat)
    by (vm_compute; reflexivity).
  destruct (limitAudioInstances_keeps_newest "1" 8 busySlot _ Hi) as [_ H].
  destruct (H ltac:(simpl; lia)) as (H1 & _ & H3 & _).
  split; [exact H1|].
  apply H3.
  - simpl. repeat constructor.
  - vm_compute. eexists. reflexivity.
Defined.

(** *** Node sets *)

Lemma removeNodeOf_first (audio : nat) (pre post : list NodeSet) (n : NodeSet) :
  Forall (fun m => mediaElement m <> audio) pre ->
  mediaElement n = audio ->
  removeNodeOf audio (pre ++ n :: post) = Some (pre ++ post).
Proof.
  intros Hpre Hn. induction Hpre as [|m pre Hm _ IH]; simpl.
  - rewrite Hn, Nat.eqb_refl. reflexivity.
  - destruct (Nat.eqb_spec (mediaElement m) audio); [contradiction|].
    rewrite IH. reflexivity.
Qed.

Lemma removeNodeOf_none (audio : nat) (nodes : list NodeSet) :
  Forall (fun m => mediaElement m <> audio) nodes -> removeNodeOf audio nodes = None.
Proof.
  intros H. induction H as [|m nodes Hm _ IH]; simpl; [reflexivity|].
  destruct (Nat.eqb_spec (mediaElement m) audio); [contradiction|].
  rewrite IH. reflexivity.
Qed.

(** X7. [cleanupAudioNodes] removes exactly one node set, the first one in
    the slot's list whose source belongs to the element; the node counter
    goes down by one but not below zero, and the node lists of the other
    slots, the instance lists and the elements are left alone.  When no
    node set of the slot belongs to the element, the state is unchanged. *)
Theorem cleanupAudioNodes_first_match (id : string) (audio : nat) (e : Engine)
  (pre post : list NodeSet) (n : NodeSet) :
  audioNodesRef e !! id = Some (pre ++ n :: post) ->
  Forall (fun m => mediaElement m <> audio) pre ->
  (mediaElement n = audio ->
   let e' := cleanupAudioNodes id audio e in
   audioNodesRef e' !! id = Some (pre ++ post)
   /\ audioNodes (resourceCountRef e') = Z.max 0 (audioNodes (resourceCountRef e) - 1)
   /\ audioElements (resourceCountRef e') = audioElements (resourceCountRef e)
   /\ objectUrls (resourceCountRef e') = objectUrls (resourceCountRef e)
   /\ (forall other, other <> id -> audioNodesRef e' !! other = audioNodesRef e !! other)
   /\ audioInstancesRefs e' = audioInstancesRefs e
   /\ elements e' = elements e)
  /\ (mediaElement n <> audio -> Forall (fun m => mediaElement m <> audio) post ->
      cleanupAudioNodes id audio e = e).
Proof.
  intros Hn Hpre. unfold cleanupAudioNodes. rewrite Hn. split.
  - intros Hm. rewrite (removeNodeOf_first audio pre post n Hpre Hm). cbv zeta. fields.
    split; [apply lookup_insert_eq|]. split; [reflexivity|]. split; [reflexivity|].
    split; [reflexivity|]. split; [|split; reflexivity].
    intros other Hne. apply lookup_insert_ne. congruence.
  - intros Hm Hpost. rewrite removeNodeOf_none; [reflexivity|].
    apply Forall_app. split; [exact Hpre|]. constructor; assumption.
Qed.

Lemma cleanupAudioNodes_first_match_witness :
  audioNodesRef (cleanupAudioNodes "1" 3 busySlot) !! "1"
  = Some (map (fun h => mkNodeSet h 0 1) [0; 1; 2; 4; 5; 6; 7; 8; 9; 10; 11; 12; 13]%nat)
  /\ audioNodes (resourceCountRef (cleanupAudioNodes "1" 3 busySlot)) = 13%Z.
Proof.
  assert (Hn : audioNodesRef busySlot !! "1"
               = Some (map (fun h => mkNodeSet h 0 1) [0; 1; 2]%nat
                       ++ mkNodeSet 3 0 1
                          :: map (fun h => mkNodeSet h 0 1)
                               [4; 5; 6; 7; 8; 9; 10; 11; 12; 13]%nat))
    by (vm_compute; reflexivity).
  destruct (cleanupAudioNodes_first_match "1" 3 busySlot _ _ _ Hn) as [H _].
  - repeat constructor; simpl; lia.
  - destruct (H eq_refl) as (H1 & H2 & _). split; [exact H1|].
    rewrite H2. vm_compute. reflexivity.
Defined.

(** *** End of stream *)

Lemma removeFirst_elem (audio : nat) (l : list nat) :
  audio ∈ l ->
  exists pre post, l = pre ++ audio :: post /\ (audio ∉ pre)
                   /\ removeFirst audio l = Some (pre ++ post).
Proof.
  induction l as [|x l IH]; intros Hin; [inversion Hin|].
  simpl. destruct (Nat.eqb_spec x audio) as [->|Hne].
  - exists [], l. split; [reflexivity|]. split; [apply not_elem_of_nil | reflexivity].
  - apply elem_of_cons in Hin. destruct Hin as [->|Hin]; [contradiction|].
    destruct (IH Hin) as (pre & post & -> & Hpre & ->).
    exists (x :: pre), post. split; [reflexivity|]. split; [|reflexivity].
    apply not_elem_of_cons. split; [congruence | exact Hpre].
Qed.

Lemma removeFirst_absent (audio : nat) (l : list nat) :
  audio ∉ l -> removeFirst audio l = None.
Proof.
  induction l as [|x l IH]; intros Hin; [reflexivity|].
  apply not_elem_of_cons in Hin. destruct Hin as [Hne Hin].
  simpl. destruct (Nat.eqb_spec x audio); [congruence|]. rewrite IH by assumption. reflexivity.
Qed.

(** The effect of the echo's [onended] in terms of the list it leaves. *)
Lemma onEchoEnded_effect (id : string) (audio : nat) (e : Engine) (a : AudioElement)
  (l : list nat) :
  elements e !! audio = Some a ->
  audioInstancesRefs e !! id = Some l ->
  audioInstancesRefs (onEchoEnded id audio e)
  = <[id := default l (removeFirst audio l)]> (audioInstancesRefs e)
  /\ isPlaying (onEchoEnded id audio e)
     = match default l (removeFirst audio l) with
       | [] => <[id := false]> (isPlaying e)
       | _ => isPlaying e
       end
  /\ audioElements (resourceCountRef (onEchoEnded id audio e))
     = match removeFirst audio l with
       | Some _ => Z.max 0 (audioElements (resourceCountRef e) - 1)
       | None => audioElements (resourceCountRef e)
       end
  /\ objectUrls (resourceCountRef (onEchoEnded id audio e))
     = Z.max 0 (objectUrls (resourceCountRef e) - 1)
  /\ liveUrls (onEchoEnded id audio e) = liveUrls e ∖ {[src a]}
  /\ elements (onEchoEnded id audio e) = elements e
  /\ cachedAudioRef (onEchoEnded id audio e) = cachedAudioRef e.
Proof.
  intros Ha Hl. unfold onEchoEnded. cbv zeta.
  assert (Hc : exists e1, cleanupAudioNodes id audio e = e1
            /\ audioInstancesRefs e1 = audioInstancesRefs e /\ isPlaying e1 = isPlaying e
            /\ audioElements (resourceCountRef e1) = audioElements (resourceCountRef e)
            /\ objectUrls (resourceCountRef e1) = objectUrls (resourceCountRef e)
            /\ liveUrls e1 = liveUrls e /\ elements e1 = elements e
            /\ cachedAudioRef e1 = cachedAudioRef e).
  { eexists. split; [reflexivity|]. unfold cleanupAudioNodes.
    destruct (audioNodesRef e !! id) as [nodes|]; [|repeat split].
    destruct (removeNodeOf audio nodes); repeat split. }
  destruct Hc as (e1 & -> & Hi1 & Hp1 & He1 & Hu1 & Hl1 & Hel1 & Hc1).
  assert (Hlk : audioInstancesRefs e1 !! id = Some l) by (rewrite Hi1; exact Hl).
  rewrite Hlk.
  assert (Hm : exists e2,
            markIdleIfEmpty id
              match removeFirst audio l with
              | Some rest =>
                  countElements decrement (setInstances (<[id:=rest]> (audioInstancesRefs e1)) e1)
              | None => e1
              end = e2
            /\ audioInstancesRefs e2 = <[id := default l (removeFirst audio l)]> (audioInstancesRefs e)
            /\ isPlaying e2 = match default l (removeFirst audio l) with
                              | [] => <[id := false]> (isPlaying e)
                              | _ => isPlaying e
                              end
            /\ audioElements (resourceCountRef e2)
               = match removeFirst audio l with
                 | Some _ => Z.max 0 (audioElements (resourceCountRef e) - 1)
                 | None => audioElements (resourceCountRef e)
                 end
            /\ objectUrls (resourceCountRef e2) = objectUrls (resourceCountRef e)
            /\ liveUrls e2 = liveUrls e /\ elements e2 = elements e
            /\ cachedAudioRef e2 = cachedAudioRef e).
  { eexists. split; [reflexivity|]. unfold markIdleIfEmpty.
    destruct (removeFirst audio l) as [rest|]; cbn [from_option Datatypes.id].
    - fields. rewrite lookup_insert_eq, Hi1.
      destruct rest; fields; cbn [audioElements audioNodes objectUrls];
        unfold decrement; rewrite ?He1;
        (split; [reflexivity|]); (split; [congruence|]); (split; [reflexivity|]);
        (split; [assumption|]); (split; [assumption|]); split; assumption.
    - rewrite Hi1, Hl.
      assert (Hid : audioInstancesRefs e1 = <[id:=l]> (audioInstancesRefs e))
        by (rewrite Hi1; symmetry; apply insert_id, Hl).
      destruct l; fields; cbn [audioElements audioNodes objectUrls];
        (split; [assumption|]); (split; [congruence|]); (split; [assumption|]);
        (split; [assumption|]); (split; [assumption|]); split; assumption. }
  destruct Hm as (e2 & -> & Hi2 & Hp2 & He2 & Hu2 & Hl2 & Hel2 & Hc2).
  unfold releaseUrl. rewrite Hel2, Ha. fields. cbn [audioElements audioNodes objectUrls].
  unfold decrement. rewrite Hu2, Hl2.
  split; [exact Hi2|]. split; [exact Hp2|]. split; [exact He2|]. split; [reflexivity|].
  split; [reflexivity|]. split; assumption.
Qed.

(** X8. When an echo instance ends, [ended] takes its first occurrence out
    of the slot's list, lowers the element counter and the URL counter by
    one (not below zero) and revokes the element's object URL; the slot is
    marked idle exactly when the list is empty afterwards, and the playing
    flags are otherwise untouched.  Elements and the cache are not
    changed. *)
Theorem echo_ended_unregisters (id : string) (audio : nat) (e : Engine) (a : AudioElement)
  (pre post : list nat) :
  elements e !! audio = Some a ->
  onended a = Some (echoEnded id) ->
  audioInstancesRefs e !! id = Some (pre ++ audio :: post) ->
  audio ∉ pre ->
  let e' := ended audio e in
  audioInstancesRefs e' = <[id := pre ++ post]> (audioInstancesRefs e)
  /\ (pre ++ post = [] -> isPlaying e' = <[id := false]> (isPlaying e))
  /\ (pre ++ post <> [] -> isPlaying e' = isPlaying e)
  /\ audioElements (resourceCountRef e') = Z.max 0 (audioElements (resourceCountRef e) - 1)
  /\ objectUrls (resourceCountRef e') = Z.max 0 (objectUrls (resourceCountRef e) - 1)
  /\ (src a ∉ liveUrls e')
  /\ elements e' = elements e
  /\ cachedAudioRef e' = cachedAudioRef e.
Proof.
  intros Ha Hh Hl Hpre. cbv zeta. unfold ended. rewrite Ha. cbn [mbind option_bind].
  rewrite Hh.
  destruct (onEchoEnded_effect id audio e a _ Ha Hl) as (H1 & H2 & H3 & H4 & H5 & H6 & H7).
  assert (Hr : removeFirst audio (pre ++ audio :: post) = Some (pre ++ post)).
  { clear -Hpre. induction pre as [|x pre IH]; simpl.
    - rewrite Nat.eqb_refl. reflexivity.
    - apply not_elem_of_cons in Hpre. destruct Hpre as [Hne Hpre].
      destruct (Nat.eqb_spec x audio); [congruence|]. rewrite IH by assumption. reflexivity. }
  rewrite Hr in H1, H2, H3. cbn [from_option Datatypes.id] in H1, H2.
  split; [exact H1|].
  split; [intros E; rewrite E in H2; exact H2|].
  split; [intros E; destruct (pre ++ post); [congruence | exact H2]|].
  split; [exact H3|]. split; [exact H4|].
  split; [|split; assumption].
  rewrite H5. intros Hin. apply elem_of_difference in Hin. destruct Hin as [_ Hin].
  apply Hin, elem_of_singleton. reflexivity.
Qed.

(** X9. A stale end-of-stream notification is tolerated: when the element
    is no longer in the slot's list, [ended] leaves the list and the
    element counter as they are; the element's object URL is still revoked
    and the URL counter still lowered, floored at zero.  The playing flags
    are untouched unless the list is empty, and no element is changed. *)
Theorem echo_ended_stale (id : string) (audio : nat) (e : Engine) (a : AudioElement)
  (l : list nat) :
  elements e !! audio = Some a ->
  onended a = Some (echoEnded id) ->
  audioInstancesRefs e !! id = Some l ->
  audio ∉ l ->
  let e' := ended audio e in
  audioInstancesRefs e' = audioInstancesRefs e
  /\ audioElements (resourceCountRef e') = audioElements (resourceCountRef e)
  /\ objectUrls (resourceCountRef e') = Z.max 0 (objectUrls (resourceCountRef e) - 1)
  /\ (src a ∉ liveUrls e')
  /\ (l <> [] -> isPlaying e' = isPlaying e)
  /\ elements e' = elements e.
Proof.
  intros Ha Hh Hl Hout. cbv zeta. unfold ended. rewrite Ha. cbn [mbind option_bind].
  rewrite Hh.
  destruct (onEchoEnded_effect id audio e a _ Ha Hl) as (H1 & H2 & H3 & H4 & H5 & H6 & H7).
  rewrite (removeFirst_absent audio l Hout) in H1, H2, H3.
  cbn [from_option Datatypes.id] in H1, H2.
  split; [rewrite H1; apply insert_id, Hl|]. split; [exact H3|]. split; [exact H4|].
  split.
  { rewrite H5. intros Hin. apply elem_of_difference in Hin. destruct Hin as [_ Hin].
    apply Hin, elem_of_singleton. reflexivity. }
  split; [intros Hne; destruct l; [congruence | exact H2]|]. exact H6.
Qed.

Lemma echo_ended_unregisters_witness :
  audioInstancesRefs (ended 2 echoing) !! "1" = Some [0; 1; 3; 4]%nat
  /\ isPlaying (ended 2 echoing) = isPlaying echoing.
Proof.
  assert (Ha : exists a, elements echoing !! 2%nat = Some a
                         /\ onended a = Some (echoEnded "1"))
    by (vm_compute; eexists; split; reflexivity).
  destruct Ha as (a & Ha & Hh).
  assert (Hl : audioInstancesRefs echoing !! "1" = Some ([0; 1] ++ 2 :: [3; 4])%nat)
    by (vm_compute; reflexivity).
  destruct (echo_ended_unregisters "1" 2 echoing a [0; 1]%nat [3; 4]%nat Ha Hh Hl)
    as (H1 & _ & H3 & _).
  - intros Hin. apply elem_of_cons in Hin. destruct Hin as [Hin|Hin]; [discriminate|].
    apply elem_of_cons in Hin. destruct Hin as [Hin|Hin]; [discriminate|]. inversion Hin.
  - split.
    + rewrite H1. apply lookup_insert_eq.
    + apply H3. discriminate.
Defined.

Lemma echo_ended_stale_witness :
  audioInstancesRefs (ended 2 (ended 2 echoing)) = audioInstancesRefs (ended 2 echoing)
  /\ audioElements (resourceCountRef (ended 2 (ended 2 echoing)))
     = audioElements (resourceCountRef (ended 2 echoing))
  /\ objectUrls (resourceCountRef (ended 2 (ended 2 echoing)))
     = Z.max 0 (objectUrls (resourceCountRef (ended 2 echoing)) - 1).
Proof.
  assert (Ha : exists a, elements (ended 2 echoing) !! 2%nat = Some a
                         /\ onended a = Some (echoEnded "1"))
    by (vm_compute; eexists; split; reflexivity).
  destruct Ha as (a & Ha & Hh).
  assert (Hl : audioInstancesRefs (ended 2 echoing) !! "1" = Some [0; 1; 3; 4]%nat)
    by (vm_compute; reflexivity).
  destruct (echo_ended_stale "1" 2 (ended 2 echoing) a _ Ha Hh Hl) as (H1 & H2 & H3 & _).
  - intros Hin.
    repeat (apply elem_of_cons in Hin; destruct Hin as [Hin|Hin]; [discriminate|]).
    inversion Hin.
  - split; [exact H1 | split; [exact H2 | exact H3]].
Defined.

(** *** The echo burst in general *)

(** While echo is on, the feedback is positive, so the loop bound lies
    between 3 and 6; the spacing is at least 100 ms. *)
Lemma echoCount_range (data : AudioData) :
  hasEcho data = true -> (3 <= echoCount data <= 6)%Z.
Proof.
  unfold hasEcho, echoEnabled, echoCount, Qgtb. intros H.
  apply andb_true_iff in H. destruct H as [_ H].
  apply andb_true_iff in H. destruct H as [_ H].
  apply negb_true_iff in H.
  assert (Hpos : (0 <= orNumber (echoFeedback data) 0 * 6)%Q).
  { destruct (Qlt_le_dec 0 (orNumber (echoFeedback data) 0)) as [Hlt|Hle].
    - apply Qmult_le_0_compat; [apply Qlt_le_weak, Hlt | discriminate].
    - apply Qle_bool_iff in Hle. congruence. }
  apply Qfloor_resp_le in Hpos. change (Qfloor 0) with 0%Z in Hpos. lia.
Qed.

Lemma delayMs_floor (data : AudioData) : (100 <= delayMs data)%Q.
Proof. unfold delayMs. apply Q.le_max_r. Qed.

Lemma echoFeedback_positive (data : AudioData) :
  hasEcho data = true -> (0 <= orNumber (echoFeedback data) (1 # 2))%Q.
Proof.
  unfold hasEcho, echoEnabled, Qgtb. intros H.
  apply andb_true_iff in H. destruct H as [_ H].
  apply andb_true_iff in H. destruct H as [_ H].
  apply negb_true_iff in H. unfold orNumber in *.
  destruct (echoFeedback data) as [v|]; [|discriminate H].
  destruct (Qeq_bool v 0); [discriminate H|].
  apply Qlt_le_weak, Qnot_le_lt. intros Hle. apply Qle_bool_iff in Hle. congruence.
Qed.



(** *** A bound on every instance list *)

Lemma shrinks_refl (m : gmap string (list nat)) : shrinks m m.
Proof. intros id l H. exists l. split; [exact H | lia]. Qed.

Lemma shrinks_insert (m : gmap string (list nat)) (id : string) (l l' : list nat) :
  m !! id = Some l -> (length l' <= length l)%nat -> shrinks m (<[id := l']> m).
Proof.
  intros Hl Hlen other x Hx. destruct (decide (id = other)) as [<-|Hne].
  - rewrite lookup_insert_eq in Hx. injection Hx as <-. exists l. split; assumption.
  - rewrite lookup_insert_ne in Hx by exact Hne. exists x. split; [exact Hx | lia].
Qed.

Lemma capped_shrinks (m m' : gmap string (list nat)) : shrinks m m' -> capped m -> capped m'.
Proof.
  intros Hs Hc id l' Hl'. destruct (Hs id l' Hl') as (l & Hl & Hlen).
  pose proof (Hc id l Hl) as H. simpl in H. lia.
Qed.

Lemma removeFirst_length (audio : nat) (l rest : list nat) :
  removeFirst audio l = Some rest -> (length rest <= length l)%nat.
Proof.
  revert rest. induction l as [|x l IH]; intros rest H; simpl in H; [discriminate|].
  destruct (x =? audio)%nat.
  - injection H as <-. simpl. lia.
  - destruct (removeFirst audio l) as [r|]; [|discriminate].
    injection H as <-. specialize (IH r eq_refl). simpl. lia.
Qed.

Lemma shrinks_limitAudioInstances (id : string) (cap : nat) (e : Engine) :
  shrinks (audioInstancesRefs e) (audioInstancesRefs (limitAudioInstances id cap e)).
Proof.
  unfold limitAudioInstances.
  destruct (audioInstancesRefs e !! id) as [instances|] eqn:Hi; [|apply shrinks_refl].
  destruct (cap <=? length instances)%nat; [|apply shrinks_refl]. cbv zeta.
  match goal with
  | |- context [foldl (evict id) ?x ?l] =>
      destruct (shell_evictions id l x) as (_ & _ & H3); rewrite H3
  end.
  fields. apply (shrinks_insert _ id instances); [exact Hi|]. rewrite length_drop. lia.
Qed.

Lemma instances_markIdleIfEmpty (id : string) (e : Engine) :
  audioInstancesRefs (markIdleIfEmpty id e) = audioInstancesRefs e.
Proof.
  unfold markIdleIfEmpty. destruct (audioInstancesRefs e !! id) as [[|? ?]|]; reflexivity.
Qed.

Lemma shrinks_unregister (id : string) (audio : nat) (e : Engine) (count : bool) :
  shrinks (audioInstancesRefs e)
    (audioInstancesRefs
       match audioInstancesRefs e !! id with
       | Some instances =>
           markIdleIfEmpty id
             match removeFirst audio instances with
             | Some rest =>
                 (if count then countElements decrement else fun x => x)
                   (setInstances (<[id := rest]> (audioInstancesRefs e)) e)
             | None => e
             end
       | None => e
       end).
Proof.
  destruct (audioInstancesRefs e !! id) as [instances|] eqn:Hi; [|apply shrinks_refl].
  rewrite instances_markIdleIfEmpty.
  destruct (removeFirst audio instances) as [rest|] eqn:Hr; [|apply shrinks_refl].
  destruct count; fields;
    apply (shrinks_insert _ id instances); try exact Hi; apply (removeFirst_length audio), Hr.
Qed.

Lemma shrinks_ended (audio : nat) (e : Engine) :
  shrinks (audioInstancesRefs e) (audioInstancesRefs (ended audio e)).
Proof.
  unfold ended. destruct (elements e !! audio ≫= onended) as [[id|id]|]; [| |apply shrinks_refl].
  - unfold onEchoEnded. cbv zeta.
    rewrite (proj2 (proj2 (shell_releaseUrl audio _))).
    destruct (shell_cleanupAudioNodes id audio e) as (_ & _ & H3).
    remember (cleanupAudioNodes id audio e) as e1 eqn:E1. clear E1. rewrite <- H3.
    apply (shrinks_unregister id audio e1 true).
  - unfold onCachedEnded. cbv zeta.
    rewrite (proj2 (proj2 (shell_cleanupAudioNodes id audio _))).
    rewrite (proj2 (proj2 (shell_releaseUrl audio _))).
    apply (shrinks_unregister id audio e false).
Qed.

Lemma shrinks_cleared (m : gmap string (list nat)) : shrinks m ((fun _ => []) <$> m).
Proof.
  intros id l' H. rewrite lookup_fmap in H.
  destruct (m !! id) as [l|]; [|discriminate]. injection H as <-.
  exists l. split; [reflexivity | simpl; lia].
Qed.

Lemma shrinks_forceCleanupAllAudio (e : Engine) :
  shrinks (audioInstancesRefs e) (audioInstancesRefs (forceCleanupAllAudio e)).
Proof.
  pose proof (forceCleanupAllAudio_skeleton e) as H.
  remember (forceCleanupAllAudio e) as e1 eqn:E1. clear E1.
  unfold skeleton in H. injection H as _ _ _ _ Hi _ _ _ _ _ _ _.
  rewrite Hi. apply shrinks_cleared.
Qed.

Lemma shrinks_performPeriodicCleanup (e : Engine) :
  shrinks (audioInstancesRefs e) (audioInstancesRefs (performPeriodicCleanup e)).
Proof.
  unfold performPeriodicCleanup. cbv zeta.
  match goal with
  | |- context [forceCleanupAllAudio ?x] =>
      pose proof (shrinks_forceCleanupAllAudio x) as Hf;
      change (audioInstancesRefs x) with (audioInstancesRefs e) in Hf;
      remember (forceCleanupAllAudio x) as e1 eqn:E1; clear E1;
      remember x as e0 eqn:E0
  end.
  assert (H0 : audioInstancesRefs e0 = audioInstancesRefs e) by (subst e0; reflexivity).
  clear E0.
  destruct (_ || _).
  - destruct (audioContextRef e1) as [[| |]|]; exact Hf.
  - destruct (audioContextRef e0) as [[| |]|]; fields; rewrite H0; apply shrinks_refl.
Qed.

Lemma instances_importData (file : File) (e : Engine) :
  audioInstancesRefs (snd (importData file e)) = audioInstancesRefs e.
Proof.
  unfold importData.
  destruct (negb _); [reflexivity|].
  destruct (zipContent file) as [zip|]; [|reflexivity].
  destruct (settingsJson zip) as [[settings|]|]; try reflexivity.
  destruct (_ || _); [reflexivity|]. cbn [snd]. fields.
  match goal with
  | |- context [foldl ?f ?x ?l] =>
      pose proof (skeleton_stopCached x l) as H; unfold skeleton in H;
      remember (foldl f x l) as e1 eqn:E1; clear E1
  end.
  injection H as _ _ _ _ Hi _ _ _ _ _ _ _. rewrite Hi.
  destruct (asStrings _); reflexivity.
Qed.

Lemma instances_updateAudioData (id : string) (data : PartialAudioData) (e : Engine) :
  audioInstancesRefs (updateAudioData id data e) = audioInstancesRefs e.
Proof.
  unfold updateAudioData. cbv zeta. fields.
  destruct (cachedAudioRef e !! id) as [[? ?]|]; reflexivity.
Qed.

(** What a turn of the echo loop does to the instance map, whether the
    volume setter accepts or refuses: the new element is appended to the
    slot's list, or nothing is. *)
Lemma echoStep_instances (env : Browser) (id : string) (data : AudioData) (e : Engine)
    (i : nat) :
  (exists e', echoStep env id data e i = Normal e'
              /\ audioInstancesRefs e' = push id (nextAudio e) (audioInstancesRefs e))
  \/ (exists e', echoStep env id data e i = Abrupt e'
                 /\ audioInstancesRefs e' = audioInstancesRefs e).
Proof.
  unfold echoStep, echoOpen, createObjectURL, newAudio, echoClose. cbv beta iota zeta.
  destruct (volumeAccepted _); [left | right]; (eexists; split; [reflexivity|]); fields;
    [|reflexivity].
  destruct (audioContextRef e) as [[| |]|]; try destruct (wiringOk env); reflexivity.
Qed.

Lemma echoLoop_instances (env : Browser) (id : string) (data : AudioData) (l : list nat) :
  forall e, exists xs,
    (length xs <= length l)%nat
    /\ audioInstancesRefs (stateOf (echoLoop env id data l e))
       = foldl (fun m x => push id x m) (audioInstancesRefs e) xs.
Proof.
  induction l as [|i l IH]; intros e; cbn [echoLoop].
  - exists []. split; [reflexivity | reflexivity].
  - destruct (echoStep_instances env id data e i) as [(e1 & -> & Hi) | (e1 & -> & Hi)].
    + destruct (IH e1) as (xs & Hlen & Hxs). exists (nextAudio e :: xs).
      split; [simpl; lia|]. rewrite Hxs, Hi. reflexivity.
    + exists []. split; [simpl; lia | exact Hi].
Qed.

Lemma instances_playEcho (env : Browser) (id : string) (data : AudioData) (e : Engine) :
  exists xs,
    (length xs <= Z.to_nat (echoCount data + 1))%nat
    /\ audioInstancesRefs (playEcho env id data e)
       = foldl (fun m x => push id x m) (audioInstancesRefs e) xs.
Proof.
  destruct (echoLoop_instances env id data (seq 0 (Z.to_nat (echoCount data + 1))) e)
    as (xs & Hlen & Hxs).
  exists xs. rewrite length_seq in Hlen. split; [exact Hlen|].
  unfold playEcho. destruct (echoLoop _ _ _ _ _) as [e1|e1]; exact Hxs.
Qed.

Lemma instances_finishCached (env : Browser) (id : string) (data : AudioData)
  (web isNew : bool) (audio : nat) (e : Engine) :
  audioInstancesRefs (finishCached env id data web isNew audio e)
  = push id audio (audioInstancesRefs e).
Proof.
  unfold finishCached, registerCached. cbv zeta.
  rewrite (proj1 (proj2 (proj2 (tryPlay_frame env audio _)))).
  fields.
  set (e1 := setSink env (outputDeviceId e) audio e).
  assert (H1 : audioInstancesRefs e1 = audioInstancesRefs e) by reflexivity.
  clearbody e1.
  set (e2 := if web && isNew then wireCached env id data audio e1 else e1).
  assert (H2 : view e2 = view e1).
  { subst e2. destruct (web && isNew); [apply view_wireCached | reflexivity]. }
  clearbody e2. unfold view in H2. injection H2 as _ _ Hi2 _.
  destruct isNew; fields; rewrite Hi2, H1; reflexivity.
Qed.

Lemma instances_playCached (env : Browser) (id : string) (data : AudioData) (web : bool)
  (e : Engine) :
  exists xs,
    (length xs <= 1)%nat
    /\ audioInstancesRefs (playCached env id data web e)
       = foldl (fun m x => push id x m) (audioInstancesRefs e) xs.
Proof.
  destruct (acquireCached_frame id data e) as (_ & Hi & _).
  destruct (Qlt_le_dec (orNumber (volume data) 1) 0) as [Hneg|Hv].
  - exists []. split; [simpl; lia|]. rewrite (playCached_refused _ _ _ _ _ Hneg). fields.
    exact Hi.
  - unfold playCached. destruct (acquireCached id data e) as [[audio isNew] e1].
    cbn [snd] in Hi. rewrite (configure_accepted _ _ _ Hv).
    exists [audio]. split; [reflexivity|]. rewrite instances_finishCached. fields.
    rewrite Hi. reflexivity.
Qed.

Lemma capped_pushes (id : string) (xs : list nat) (m : gmap string (list nat)) :
  capped m -> (length (default [] (m !! id)) < maxInstances)%nat -> (length xs <= 7)%nat ->
  capped (foldl (fun m x => push id x m) m xs).
Proof.
  intros Hc Hlen Hxs other l Hl.
  destruct (decide (other = id)) as [->|Hne].
  - destruct xs as [|x xs]; [exact (Hc id l Hl)|].
    rewrite lookup_pushes in Hl by discriminate. injection Hl as <-.
    rewrite length_app. unfold slotBound, maxInstances in *. simpl in *. lia.
  - rewrite lookup_pushes_ne in Hl by exact Hne. exact (Hc other l Hl).
Qed.

(** A call that nothing interrupts keeps the bound. *)
Lemma capped_playAudio (env : Browser) (id : string) (e : Engine) :
  capped (audioInstancesRefs e) -> capped (audioInstancesRefs (playAudio env id e)).
Proof.
  intros Hc. unfold playAudio.
  destruct (audioData e !! id) as [data|]; [|exact Hc].
  destruct (audioBlob data); [|exact Hc].
  destruct (_ && _).
  { destruct (cachedAudioRef e !! id) as [[? ?]|]; exact Hc. }
  pose proof (capped_shrinks _ _ (shrinks_limitAudioInstances id maxInstances e) Hc) as Hc1.
  destruct (limitAudioInstances_frame id maxInstances e) as (_ & _ & Hn).
  specialize (Hn ltac:(unfold maxInstances; lia)).
  remember (limitAudioInstances id maxInstances e) as e1 eqn:E1. clear E1.
  assert (Hgo : forall e2 : Engine, audioInstancesRefs e2 = audioInstancesRefs e1 ->
            capped (audioInstancesRefs
                      (if hasEcho data then playEcho env id data e2
                       else playCached env id data (needsWebAudio data) e2))).
  { intros e2 H2. destruct (hasEcho data) eqn:Hecho.
    - pose proof (echoCount_range data Hecho) as Hr.
      destruct (instances_playEcho env id data e2) as (xs & Hlen & ->).
      rewrite H2. apply capped_pushes; [exact Hc1 | exact Hn | lia].
    - destruct (instances_playCached env id data (needsWebAudio data) e2) as (xs & Hlen & ->).
      rewrite H2. apply capped_pushes; [exact Hc1 | exact Hn | lia]. }
  assert (Hres : forall e2 : Engine, audioInstancesRefs e2 = audioInstancesRefs e1 ->
            audioInstancesRefs
              match audioContextRef e2 with
              | Some suspended => if resumeOk env then setContext (Some running) e2 else e2
              | _ => e2
              end = audioInstancesRefs e1).
  { intros e2 H2. destruct (audioContextRef e2) as [[| |]|]; try destruct (resumeOk env);
      exact H2. }
  destruct (audioContextRef e1) as [st|] eqn:Hctx.
  - apply Hgo, Hres. reflexivity.
  - destruct (createContext env) as [st|]; [|exact Hc1].
    apply Hgo, Hres. reflexivity.
Qed.

(** *** A call in pieces and the call as a whole *)

Lemma drive_done (fuel : nat) (env : Browser) (e : Engine) : drive fuel env e None = e.
Proof. destruct fuel; reflexivity. Qed.

Lemma drive_step (fuel : nat) (env : Browser) (e : Engine) (task : Task) :
  drive (S fuel) env e (Some task)
  = drive fuel env (fst (continue env task e)) (snd (continue env task e)).
Proof. cbn [drive]. destruct (continue env task e) as [e' task']. reflexivity. Qed.

Lemma device_echoOpen (e : Engine) : outputDeviceId (snd (echoOpen e)) = outputDeviceId e.
Proof. reflexivity. Qed.

Lemma device_echoClose (env : Browser) (id : string) (data : AudioData) (device : string)
    (i audio : nat) (e : Engine) :
  outputDeviceId (stateOf (echoClose env id data device i audio e)) = outputDeviceId e.
Proof.
  unfold echoClose. cbv zeta. destruct (volumeAccepted _); cbn [stateOf]; fields;
    [|reflexivity].
  destruct (audioContextRef e) as [[| |]|]; try destruct (wiringOk env); reflexivity.
Qed.

Lemma device_acquireCached (id : string) (data : AudioData) (e : Engine) :
  outputDeviceId (snd (acquireCached id data e)) = outputDeviceId e.
Proof.
  unfold acquireCached. destruct (cachedAudioRef e !! id) as [[audio url]|]; reflexivity.
Qed.

Lemma device_configure (data : AudioData) (audio : nat) (e : Engine) :
  outputDeviceId (stateOf (configure data audio e)) = outputDeviceId e.
Proof. unfold configure. cbv zeta. destruct (volumeAccepted _); reflexivity. Qed.

(** The echo loop run turn by turn, each turn going on as soon as it
    stopped, is the echo loop. *)
Lemma drive_echoTurns (env : Browser) (id : string) (data : AudioData) (device : string)
    (m : nat) :
  forall (k : nat) (e : Engine) (fuel : nat),
    outputDeviceId e = device -> (m <= fuel)%nat ->
    (k + m = Z.to_nat (echoCount data + 1))%nat ->
    drive fuel env (fst (echoTurns env id data device (seq k m) e))
      (snd (echoTurns env id data device (seq k m) e))
    = match echoLoop env id data (seq k m) e with
      | Normal e' => setIsPlaying (<[id := true]> (isPlaying e')) e'
      | Abrupt e' => e'
      end.
Proof.
  induction m as [|m IH]; intros k e fuel Hdev Hfuel Hk; cbn [seq echoTurns echoLoop].
  - apply drive_done.
  - unfold echoStep. pose proof (device_echoOpen e) as Ho.
    destruct (echoOpen e) as [audio e1]. cbn [snd] in Ho. rewrite Hdev.
    assert (H1 : outputDeviceId e1 = device) by congruence.
    pose proof (device_echoClose env id data device k audio e1) as Hc.
    clear Ho Hdev. destruct device as [|c device].
    + destruct (echoClose env id data EmptyString k audio e1) as [e2|e2];
        cbn [stateOf] in Hc; [|apply drive_done].
      apply IH; [congruence | lia | lia].
    + cbn [fst snd]. destruct fuel as [|fuel]; [lia|]. cbn [drive continue].
      destruct (echoClose env id data (String c device) k audio e1) as [e2|e2];
        cbn [stateOf] in Hc; [|apply drive_done].
      replace (Z.to_nat (echoCount data + 1) - S k)%nat with m by lia.
      specialize (IH (S k) e2 fuel ltac:(congruence) ltac:(lia) ltac:(lia)).
      destruct (echoTurns env id data (String c device) (seq (S k) m) e2) as [e3 t3].
      exact IH.
Qed.

Lemma drive_callPlay (env : Browser) (audio : nat) (e : Engine) (fuel : nat) :
  (2 <= fuel)%nat ->
  drive fuel env (fst (callPlay env audio e)) (snd (callPlay env audio e))
  = tryPlay env audio e.
Proof.
  intros Hfuel. unfold callPlay, tryPlay. destruct (playOk env); [apply drive_done|].
  destruct fuel as [|[|fuel]]; try lia. cbn [fst snd drive continue].
  destruct (audioContextRef e) as [[| |]|] eqn:Hc; try reflexivity.
  cbn [drive continue]. unfold resumed. rewrite Hc.
  destruct (resumeOk env); [|apply drive_done]. destruct (retryOk env); apply drive_done.
Qed.

Lemma drive_cachedTurn (env : Browser) (id : string) (data : AudioData) (e : Engine)
    (fuel : nat) :
  (3 <= fuel)%nat ->
  drive fuel env (fst (cachedTurn env id data (outputDeviceId e) e))
    (snd (cachedTurn env id data (outputDeviceId e) e))
  = playCached env id data (needsWebAudio data) e.
Proof.
  intros Hfuel. unfold cachedTurn, playCached.
  pose proof (device_acquireCached id data e) as Ha.
  destruct (acquireCached id data e) as [[audio isNew] e1]. cbn [snd] in Ha.
  pose proof (device_configure data audio e1) as Hc.
  destruct (configure data audio e1) as [e2|e2]; cbn [stateOf] in Hc; [|apply drive_done].
  unfold finishCached. rewrite Hc, Ha.
  destruct (outputDeviceId e) as [|c device].
  - apply drive_callPlay. lia.
  - cbn [fst snd]. destruct fuel as [|fuel]; [lia|]. cbn [drive continue].
    rewrite (surjective_pairing (callPlay _ _ _)). apply drive_callPlay. lia.
Qed.

Lemma drive_dispatch (env : Browser) (id : string) (data : AudioData) (e : Engine)
    (fuel : nat) :
  (7 <= fuel)%nat ->
  drive fuel env (fst (dispatch env id data (outputDeviceId e) e))
    (snd (dispatch env id data (outputDeviceId e) e))
  = if hasEcho data then playEcho env id data e
    else playCached env id data (needsWebAudio data) e.
Proof.
  intros Hfuel. unfold dispatch. destruct (hasEcho data).
  - unfold playEcho. apply drive_echoTurns; [reflexivity| |reflexivity].
    unfold echoCount. lia.
  - apply drive_cachedTurn. lia.
Qed.

(** A call of [playAudio] whose pieces follow one another with nothing in
    between is [playAudio]. *)
Lemma drive_launch (env : Browser) (id : string) (e : Engine) :
  drive 8 env (fst (launch env id e)) (snd (launch env id e)) = playAudio env id e.
Proof.
  unfold launch, playAudio.
  destruct (audioData e !! id) as [data|]; [|reflexivity].
  destruct (audioBlob data); [|reflexivity].
  destruct (_ && _); [reflexivity|]. cbv zeta.
  destruct (limitAudioInstances_frame id maxInstances e) as (Hs & _ & _).
  remember (limitAudioInstances id maxInstances e) as e1 eqn:E1. clear E1.
  unfold shell in Hs. injection Hs as _ _ _ Hdev _ _ _ _ _. rewrite <- Hdev.
  assert (Hgo : forall e2 : Engine, outputDeviceId e2 = outputDeviceId e1 ->
            drive 8 env
              (fst match audioContextRef e2 with
                   | Some suspended => (e2, Some (awaitingResume id data (outputDeviceId e1)))
                   | _ => dispatch env id data (outputDeviceId e1) e2
                   end)
              (snd match audioContextRef e2 with
                   | Some suspended => (e2, Some (awaitingResume id data (outputDeviceId e1)))
                   | _ => dispatch env id data (outputDeviceId e1) e2
                   end)
            = (let e4 := match audioContextRef e2 with
                         | Some suspended =>
                             if resumeOk env then setContext (Some running) e2 else e2
                         | _ => e2
                         end in
               if hasEcho data then playEcho env id data e4
               else playCached env id data (needsWebAudio data) e4)).
  { intros e2 H2. cbv zeta. rewrite <- H2.
    destruct (audioContextRef e2) as [[| |]|] eqn:Hc; try (apply drive_dispatch; lia).
    cbn [fst snd]. rewrite drive_step. cbn [continue]. unfold resumed. rewrite Hc.
    set (e4 := if resumeOk env then setContext (Some running) e2 else e2).
    assert (H4 : outputDeviceId e2 = outputDeviceId e4)
      by (subst e4; destruct (resumeOk env); reflexivity).
    clearbody e4. rewrite H4. apply drive_dispatch. lia. }
  destruct (audioContextRef e1) as [st|] eqn:Hctx.
  - apply Hgo. reflexivity.
  - destruct (createContext env) as [st|]; [|reflexivity].
    apply Hgo. reflexivity.
Qed.

Lemma launch_done (env : Browser) (id : string) (e : Engine) :
  snd (launch env id e) = None -> fst (launch env id e) = playAudio env id e.
Proof.
  intros H. rewrite <- (drive_launch env id e), H. symmetry. apply drive_done.
Qed.

(** *** A bound on the instance lists while calls do not overlap *)

Lemma capped_step (s : Session) (ev : Event) :
  pending s = [] -> pending (step s ev) = [] ->
  capped (audioInstancesRefs (engine s)) ->
  capped (audioInstancesRefs (engine (step s ev))).
Proof.
  intros Hp Hq Hc. destruct ev; cbn [step park engine pending] in *.
  - rewrite Hp in Hq. cbn [app] in Hq.
    assert (Hn : snd (launch env id (engine s)) = None)
      by (destruct (snd (launch env id (engine s))); [discriminate Hq | reflexivity]).
    rewrite (launch_done _ _ _ Hn). apply capped_playAudio, Hc.
  - rewrite Hp. cbn [lookup]. exact Hc.
  - apply (capped_shrinks _ _ (shrinks_ended audio (engine s)) Hc).
  - unfold echoTimer. destruct accepted; exact Hc.
  - rewrite instances_updateAudioData. exact Hc.
  - unfold handleDelete. rewrite instances_updateAudioData. exact Hc.
  - apply (capped_shrinks _ _ (shrinks_performPeriodicCleanup (engine s)) Hc).
  - apply (capped_shrinks _ _ (shrinks_forceCleanupAllAudio (engine s)) Hc).
  - rewrite instances_importData. exact Hc.
  - destruct (audioContextRef (engine s)); exact Hc.
Qed.

Lemma session_snoc (events : list Event) (ev : Event) :
  session (events ++ [ev]) = step (session events) ev.
Proof. unfold session. rewrite foldl_app. reflexivity. Qed.

(** X11. As long as no call of [playAudio] is left suspended (no prefix of
    the events ends with a call waiting at an [await]), no slot's instance
    list holds more than fourteen elements: the seven that
    [limitAudioInstances] leaves plus the seven of the longest echo burst.
    Calls that overlap escape the bound: three triggers of an echo slot
    with feedback 0.5 while the context is suspended each pass the cap
    check on an empty list, and once they have gone on the list holds 21
    elements. *)
Theorem instance_lists_bounded :
  (forall events : list Event,
     (forall n, pending (session (take n events)) = []) ->
     map_Forall (fun _ instances => (length instances <= 14)%nat)
       (audioInstancesRefs (run events)))
  /\ length <$> audioInstancesRefs (run overlapping) !! "1" = Some 21%nat.
Proof.
  split; [|vm_compute; reflexivity].
  intros events. unfold run.
  induction events as [|ev events IH] using rev_ind; intros Hcalm;
    change (capped (audioInstancesRefs (engine (session (events ++ [ev])))))
    || change (capped (audioInstancesRefs (engine (session [])))).
  - intros id l Hl. simpl in Hl. rewrite lookup_empty in Hl. discriminate.
  - assert (Hp : pending (session events) = []).
    { specialize (Hcalm (length events)). rewrite take_app_length in Hcalm. exact Hcalm. }
    assert (Hq : pending (session (events ++ [ev])) = []).
    { specialize (Hcalm (length (events ++ [ev]))). rewrite firstn_all in Hcalm.
      exact Hcalm. }
    rewrite session_snoc in *. apply capped_step; [exact Hp | exact Hq |].
    apply IH. intros n. destruct (le_lt_dec n (length events)) as [Hle|Hgt].
    + specialize (Hcalm n). rewrite take_app_le in Hcalm by exact Hle. exact Hcalm.
    + rewrite take_ge by lia. exact Hp.
Qed.

Lemma instance_lists_bounded_witness :
  map_Forall (fun _ instances => (length instances <= 14)%nat)
    (audioInstancesRefs (run [Edit "1" (echoPad (5 # 10)); Trigger browser "1";
                              Trigger browser "1"]))
  /\ length <$> audioInstancesRefs (run [Edit "1" (echoPad (5 # 10)); Trigger browser "1";
                                         Trigger browser "1"]) !! "1" = Some 14%nat.
Proof.
  split; [|vm_compute; reflexivity].
  apply (proj1 instance_lists_bounded).
  intros n. do 4 (destruct n as [|n]; [vm_compute; reflexivity|]).
  vm_compute. reflexivity.
Defined.

(** *** Editing a pad *)

(** X12. [updateAudioData] drops the slot's cached element: afterwards the
    slot has no cache entry, the cached element (if it exists) is paused and
    its object URL is revoked.  The cache entries and the parameters of all
    other slots are untouched, and so are the instance lists, the node
    lists, the playing flags and the three counters. *)
Theorem updateAudioData_invalidates_cache (id : string) (data : PartialAudioData) (e : Engine) :
  let e' := updateAudioData id data e in
  cachedAudioRef e' !! id = None
  /\ (forall other, other <> id ->
      cachedAudioRef e' !! other = cachedAudioRef e !! other
      /\ audioData e' !! other = audioData e !! other)
  /\ (forall audio url, cachedAudioRef e !! id = Some (audio, url) ->
      (url ∉ liveUrls e') /\ (live e audio -> pausedAt e' audio))
  /\ audioInstancesRefs e' = audioInstancesRefs e
  /\ audioNodesRef e' = audioNodesRef e
  /\ isPlaying e' = isPlaying e
  /\ resourceCountRef e' = resourceCountRef e.
Proof.
  cbv zeta. unfold updateAudioData. cbv zeta. fields.
  destruct (cachedAudioRef e !! id) as [[audio url]|] eqn:Hc; fields.
  - split; [apply lookup_delete_eq|].
    split.
    { intros other Hne. split.
      - apply lookup_delete_ne. congruence.
      - apply lookup_insert_ne. congruence. }
    split; [|repeat split].
    intros audio' url' [= <- <-]. split.
    + intros Hin. apply elem_of_difference in Hin. destruct Hin as [_ Hin].
      apply Hin, elem_of_singleton. reflexivity.
    + intros [a Ha]. unfold pausedAt. fields. rewrite lookup_alter_eq, Ha. simpl.
      eexists. split; reflexivity.
  - split; [exact Hc|].
    split.
    { intros other Hne. split; [reflexivity|]. apply lookup_insert_ne. congruence. }
    split; [|repeat split].
    intros audio url [=].
Qed.

(** *** The sweep *)

Lemma totalLength_cleared {A : Type} (m : gmap string (list A)) :
  totalLength ((fun _ => @nil A) <$> m) = 0%Z.
Proof.
  unfold totalLength. pose proof (cleared_lists m) as H.
  induction H as [|[k l] rest Hl _ IH]; [reflexivity|].
  simpl in Hl. subst l. simpl. rewrite IH. reflexivity.
Qed.

(** X13. After [performPeriodicCleanup] the element counter and the node
    counter equal the total lengths of the instance lists and the node
    lists as they are then, and neither exceeds 50; a closed context is no
    longer referenced.  When both totals were at most 50 before, the lists
    and the playing flags are left as they were. *)
Theorem performPeriodicCleanup_recounts (e : Engine) :
  let e' := performPeriodicCleanup e in
  audioElements (resourceCountRef e') = totalLength (audioInstancesRefs e')
  /\ audioNodes (resourceCountRef e') = totalLength (audioNodesRef e')
  /\ (audioElements (resourceCountRef e') <= 50)%Z
  /\ (audioNodes (resourceCountRef e') <= 50)%Z
  /\ audioContextRef e' <> Some closed
  /\ ((totalLength (audioInstancesRefs e) <= 50)%Z ->
      (totalLength (audioNodesRef e) <= 50)%Z ->
      audioInstancesRefs e' = audioInstancesRefs e
      /\ audioNodesRef e' = audioNodesRef e
      /\ isPlaying e' = isPlaying e
      /\ cachedAudioRef e' = cachedAudioRef e
      /\ elements e' = elements e).
Proof.
  cbv zeta. unfold performPeriodicCleanup. cbv zeta.
  set (e0 := setCount _ e).
  assert (H0 : skeleton e0
               = (audioData e, isPlaying e, buttonOrder e, outputDeviceId e,
                  audioInstancesRefs e, audioContextRef e, audioNodesRef e,
                  mkCount (totalLength (audioInstancesRefs e)) (totalLength (audioNodesRef e))
                    (objectUrls (resourceCountRef e)),
                  cachedAudioRef e, nextAudio e, nextUrl e, timers e)
               /\ elements e0 = elements e) by (split; reflexivity).
  clearbody e0. destruct H0 as [H0 He0].
  unfold skeleton in H0. injection H0 as _ Hp0 _ _ Hi0 Hx0 Hn0 Hc0 Hk0 _ _ _.
  pose proof (forceCleanupAllAudio_skeleton e0) as Hf.
  remember (forceCleanupAllAudio e0) as e1 eqn:E1. clear E1.
  unfold skeleton in Hf. injection Hf as _ Hp1 _ _ Hi1 Hx1 Hn1 Hc1 _ _ _ _.
  assert (Hdrop : forall x : Engine,
            let x' := match audioContextRef x with
                      | Some closed => setContext None x
                      | _ => x
                      end in
            audioContextRef x' <> Some closed
            /\ audioInstancesRefs x' = audioInstancesRefs x
            /\ audioNodesRef x' = audioNodesRef x
            /\ resourceCountRef x' = resourceCountRef x
            /\ isPlaying x' = isPlaying x
            /\ cachedAudioRef x' = cachedAudioRef x
            /\ elements x' = elements x).
  { intros x. cbv zeta.
    destruct (audioContextRef x) as [[| |]|] eqn:Hx; fields; rewrite ?Hx;
      repeat split; discriminate. }
  destruct (Z.ltb_spec 50 (totalLength (audioInstancesRefs e))) as [Ha|Ha];
    [|destruct (Z.ltb_spec 50 (totalLength (audioNodesRef e))) as [Hb|Hb]]; cbn [orb].
  - destruct (Hdrop e1) as (D1 & D2 & D3 & D4 & _). cbv zeta in D1, D2, D3, D4.
    rewrite D2, D3, D4, Hc1, Hi1, Hn1, !totalLength_cleared. cbn [audioElements audioNodes].
    split; [reflexivity|]. split; [reflexivity|]. split; [lia|]. split; [lia|].
    split; [exact D1|]. intros. lia.
  - destruct (Hdrop e1) as (D1 & D2 & D3 & D4 & _). cbv zeta in D1, D2, D3, D4.
    rewrite D2, D3, D4, Hc1, Hi1, Hn1, !totalLength_cleared. cbn [audioElements audioNodes].
    split; [reflexivity|]. split; [reflexivity|]. split; [lia|]. split; [lia|].
    split; [exact D1|]. intros. lia.
  - destruct (Hdrop e0) as (D1 & D2 & D3 & D4 & D5 & D6 & D7).
    cbv zeta in D1, D2, D3, D4, D5, D6, D7.
    rewrite D2, D3, D4, D5, D6, D7, Hc0, Hi0, Hn0, Hp0, Hk0, He0.
    cbn [audioElements audioNodes].
    split; [reflexivity|]. split; [reflexivity|]. split; [lia|]. split; [lia|].
    split; [exact D1|]. intros _ _. repeat split.
Qed.

(** *** Triggers that do nothing *)

(** X14. [playAudio] on an id without data or on a slot without a clip
    returns the state as it is.  When the slot has a clip, the call is not
    a stop, and no audio context exists or can be created, the call ends
    after [limitAudioInstances]: no element and no URL is created, no timer
    is set, and the playing flags and the cache are unchanged. *)
Theorem playAudio_without_effect (env : Browser) (id : string) (e : Engine) :
  (audioData e !! id ≫= audioBlob = None -> playAudio env id e = e)
  /\ (forall data, audioData e !! id = Some data -> is_Some (audioBlob data) ->
      default false (loop data) && default false (isPlaying e !! id) = false ->
      audioContextRef e = None -> createContext env = None ->
      playAudio env id e = limitAudioInstances id maxInstances e
      /\ nextAudio (playAudio env id e) = nextAudio e
      /\ nextUrl (playAudio env id e) = nextUrl e
      /\ timers (playAudio env id e) = timers e
      /\ isPlaying (playAudio env id e) = isPlaying e
      /\ cachedAudioRef (playAudio env id e) = cachedAudioRef e
      /\ audioContextRef (playAudio env id e) = None).
Proof.
  split.
  - intros H. unfold playAudio. destruct (audioData e !! id) as [data|]; [|reflexivity].
    simpl in H. rewrite H. reflexivity.
  - intros data Hd [blob Hb] Hstop Hctx Hnew. unfold playAudio.
    rewrite Hd, Hb, Hstop.
    destruct (limitAudioInstances_frame id maxInstances e) as (Hs & _ & _).
    remember (limitAudioInstances id maxInstances e) as e1 eqn:E1. clear E1.
    unfold shell in Hs. injection Hs as _ Hp _ _ Hx Hc Hn Hu Ht.
    rewrite Hx, Hctx, Hnew. repeat split; congruence.
Qed.

(** *** The forced cleanup and the elements *)

Lemma quieter_refl (e : Engine) : quieter e e.
Proof.
  split; [|intros url H; exact H].
  intros h a Ha. exists a. repeat split; auto.
Qed.

Lemma quieter_trans (a b c : Engine) : quieter a b -> quieter b c -> quieter a c.
Proof.
  intros [H1 U1] [H2 U2]. split; [|intros url H; apply U1, U2, H].
  intros h x Hx. destruct (H1 h x Hx) as (y & Hy & Sy & Py & Ty).
  destruct (H2 h y Hy) as (z & Hz & Sz & Pz & Tz).
  exists z. split; [exact Hz|]. split; [congruence|]. split; auto.
Qed.

Lemma quieter_stopAndRevoke (e : Engine) (audio url : nat) :
  quieter e (stopAndRevoke e audio url).
Proof.
  unfold quieter, stopAndRevoke, revokeObjectURL, rewind, pause, onElement. fields. split.
  - intros h a Ha. destruct (decide (h = audio)) as [->|Hne].
    + eexists. split; [rewrite !lookup_alter_eq, Ha; simpl; reflexivity|]. simpl.
      repeat split; auto.
    + exists a. split; [rewrite !lookup_alter_ne by congruence; exact Ha|].
      repeat split; auto.
  - intros u Hu. apply elem_of_difference in Hu. tauto.
Qed.

Lemma stopAndRevoke_stops (e : Engine) (audio url : nat) :
  (url ∉ liveUrls (stopAndRevoke e audio url))
  /\ (live e audio -> stoppedAt (stopAndRevoke e audio url) audio).
Proof.
  unfold stopAndRevoke, revokeObjectURL, rewind, pause, onElement, stoppedAt. fields. split.
  - intros Hu. apply elem_of_difference in Hu. destruct Hu as [_ Hu].
    apply Hu, elem_of_singleton. reflexivity.
  - intros [a Ha]. eexists. split.
    + rewrite !lookup_alter_eq, Ha. simpl. reflexivity.
    + split; reflexivity.
Qed.

Lemma quieter_stopInstance (e : Engine) (audio : nat) : quieter e (stopInstance e audio).
Proof.
  unfold stopInstance. destruct (elements e !! audio).
  - apply quieter_stopAndRevoke.
  - apply quieter_refl.
Qed.

Lemma stopInstance_stops (e : Engine) (audio url : nat) :
  sourcedAt url e audio ->
  stoppedAt (stopInstance e audio) audio /\ (url ∉ liveUrls (stopInstance e audio)).
Proof.
  intros (a & Ha & Hs). unfold stopInstance. rewrite Ha, Hs.
  destruct (stopAndRevoke_stops e audio url) as [Hu Hst].
  split; [apply Hst; exists a; exact Ha | exact Hu].
Qed.

Lemma quieter_foldl {A : Type} (f : Engine -> A -> Engine) (l : list A) (e : Engine) :
  (forall e x, quieter e (f e x)) -> quieter e (foldl f e l).
Proof.
  intros Hf. revert e. induction l as [|x l IH]; intros e; simpl; [apply quieter_refl|].
  eapply quieter_trans; [apply Hf | apply IH].
Qed.

(** What one step of a fold establishes survives the rest of the fold. *)
Lemma foldl_establish {A : Type} (f : Engine -> A -> Engine) (Pre Post : Engine -> Prop)
    (x : A) (l : list A) (e : Engine) :
  (forall e y, quieter e (f e y)) ->
  (forall e e', quieter e e' -> Pre e -> Pre e') ->
  (forall e e', quieter e e' -> Post e -> Post e') ->
  (forall e, Pre e -> Post (f e x)) ->
  x ∈ l -> Pre e -> Post (foldl f e l).
Proof.
  intros Hf Hpre Hpost Hx Hin. revert e.
  induction l as [|y l IH]; intros e He; [inversion Hin|].
  simpl. apply elem_of_cons in Hin. destruct Hin as [<-|Hin].
  - eapply Hpost; [apply quieter_foldl, Hf | apply Hx, He].
  - apply IH; [exact Hin|]. eapply Hpre; [apply Hf | exact He].
Qed.

Lemma quieter_live (audio : nat) (e e' : Engine) : quieter e e' -> live e audio -> live e' audio.
Proof.
  intros [H _] [a Ha]. destruct (H audio a Ha) as (a' & Ha' & _). exists a'. exact Ha'.
Qed.

Lemma quieter_sourcedAt (url audio : nat) (e e' : Engine) :
  quieter e e' -> sourcedAt url e audio -> sourcedAt url e' audio.
Proof.
  intros [H _] (a & Ha & Hs). destruct (H audio a Ha) as (a' & Ha' & Hs' & _).
  exists a'. split; [exact Ha' | congruence].
Qed.

Lemma quieter_stoppedAt (audio : nat) (e e' : Engine) :
  quieter e e' -> stoppedAt e audio -> stoppedAt e' audio.
Proof.
  intros [H _] (a & Ha & Hp & Ht). destruct (H audio a Ha) as (a' & Ha' & _ & Hp' & Ht').
  exists a'. split; [exact Ha'|]. split; auto.
Qed.

Lemma quieter_revoked (url : nat) (e e' : Engine) :
  quieter e e' -> url ∉ liveUrls e -> url ∉ liveUrls e'.
Proof. intros [_ H] Hu Hin. apply Hu, H, Hin. Qed.

Lemma quieter_stopCached (e : Engine) (l : list (string * (nat * nat))) :
  quieter e (foldl (fun e '(_, (audio, url)) => stopAndRevoke e audio url) e l).
Proof. apply quieter_foldl. intros e' [? [? ?]]. apply quieter_stopAndRevoke. Qed.

Lemma quieter_stopInstances (e : Engine) (l : list (string * list nat)) :
  quieter e (foldl (fun e '(_, instances) => foldl stopInstance e instances) e l).
Proof.
  apply quieter_foldl. intros e' [? instances].
  apply quieter_foldl. apply quieter_stopInstance.
Qed.

(** The element store and the URL store after a forced cleanup are those
    left by its two loops. *)
Lemma forceCleanupAllAudio_stores (e : Engine) :
  let e1 := foldl (fun e '(_, (audio, url)) => stopAndRevoke e audio url) e
              (map_to_list (cachedAudioRef e)) in
  let e2 := foldl (fun e '(_, instances) => foldl stopInstance e instances) (setCached ∅ e1)
              (map_to_list (audioInstancesRefs e)) in
  elements (forceCleanupAllAudio e) = elements e2
  /\ liveUrls (forceCleanupAllAudio e) = liveUrls e2.
Proof.
  cbv zeta. unfold forceCleanupAllAudio. cbv zeta. fields.
  pose proof (skeleton_stopCached e (map_to_list (cachedAudioRef e))) as H1.
  remember (foldl _ e (map_to_list (cachedAudioRef e))) as e1 eqn:E1. clear E1.
  unfold skeleton in H1. injection H1 as _ _ _ _ Hi _ _ _ _ _ _ _.
  rewrite Hi. split; reflexivity.
Qed.

(** X15. [forceCleanupAllAudio] stops everything it tracks: every element
    in the cache and every existing element in an instance list ends up
    paused at time 0, and the URL of every cache entry and the source URL of
    every listed element is revoked.  No element is started or moved off
    time 0, none disappears, and no URL becomes live. *)
Theorem forceCleanupAllAudio_stops_everything (e : Engine) :
  let e' := forceCleanupAllAudio e in
  (forall id audio url, cachedAudioRef e !! id = Some (audio, url) ->
     (url ∉ liveUrls e') /\ (live e audio -> stoppedAt e' audio))
  /\ (forall id instances audio url,
        audioInstancesRefs e !! id = Some instances -> audio ∈ instances ->
        sourcedAt url e audio ->
        stoppedAt e' audio /\ (url ∉ liveUrls e'))
  /\ quieter e e'.
Proof.
  cbv zeta.
  destruct (forceCleanupAllAudio_stores e) as [He Hu]. cbv zeta in He, Hu.
  pose proof (quieter_stopCached e (map_to_list (cachedAudioRef e))) as Q1.
  set (e1 := foldl _ e (map_to_list (cachedAudioRef e))) in *.
  pose proof (quieter_stopInstances (setCached ∅ e1) (map_to_list (audioInstancesRefs e))) as Q2.
  set (e2 := foldl _ (setCached ∅ e1) _) in *.
  assert (Q12 : quieter e1 e2).
  { destruct Q2 as [Qa Qb]. split; [exact Qa | exact Qb]. }
  assert (Qf : forall x, quieter x e2 -> quieter x (forceCleanupAllAudio e)).
  { intros x [Qa Qb]. split.
    - intros h a Ha. rewrite He. apply Qa, Ha.
    - intros url. rewrite Hu. apply Qb. }
  assert (Q : quieter e (forceCleanupAllAudio e)).
  { apply Qf. eapply quieter_trans; [exact Q1 | exact Q12]. }
  split; [|split; [|exact Q]].
  - intros id audio url Hc.
    assert (Hin : (id, (audio, url)) ∈ map_to_list (cachedAudioRef e))
      by (apply elem_of_map_to_list; exact Hc).
    split.
    + apply (quieter_revoked url e1); [apply Qf, Q12|].
      apply (foldl_establish (fun e '(_, (audio, url)) => stopAndRevoke e audio url)
               (fun _ => True) (fun x => url ∉ liveUrls x) (id, (audio, url))).
      * intros x [? [? ?]]. apply quieter_stopAndRevoke.
      * auto.
      * intros x x'. apply quieter_revoked.
      * intros x _. apply stopAndRevoke_stops.
      * exact Hin.
      * exact I.
    + intros Hl. apply (quieter_stoppedAt audio e1); [apply Qf, Q12|].
      apply (foldl_establish (fun e '(_, (audio, url)) => stopAndRevoke e audio url)
               (fun x => live x audio) (fun x => stoppedAt x audio) (id, (audio, url))).
      * intros x [? [? ?]]. apply quieter_stopAndRevoke.
      * intros x x'. apply quieter_live.
      * intros x x'. apply quieter_stoppedAt.
      * intros x Hx. apply stopAndRevoke_stops, Hx.
      * exact Hin.
      * exact Hl.
  - intros id instances audio url Hi Hin Hs.
    assert (Hin' : (id, instances) ∈ map_to_list (audioInstancesRefs e))
      by (apply elem_of_map_to_list; exact Hi).
    assert (H2 : stoppedAt e2 audio /\ (url ∉ liveUrls e2)).
    { apply (foldl_establish (fun e '(_, instances) => foldl stopInstance e instances)
               (fun x => sourcedAt url x audio)
               (fun x => stoppedAt x audio /\ (url ∉ liveUrls x)) (id, instances)).
      * intros x [? l]. apply quieter_foldl, quieter_stopInstance.
      * intros x x'. apply quieter_sourcedAt.
      * intros x x' Hq [Ha Hb]. split; [eapply quieter_stoppedAt | eapply quieter_revoked]; eauto.
      * intros x Hx.
        apply (foldl_establish stopInstance (fun x => sourcedAt url x audio)
                 (fun x => stoppedAt x audio /\ (url ∉ liveUrls x)) audio).
        -- apply quieter_stopInstance.
        -- intros y y'. apply quieter_sourcedAt.
        -- intros y y' Hq [Ha Hb].
           split; [eapply quieter_stoppedAt | eapply quieter_revoked]; eauto.
        -- intros y. apply stopInstance_stops.
        -- exact Hin.
        -- exact Hx.
      * exact Hin'.
      * destruct Hs as (a & Ha & Hsa).
        destruct Q1 as [Qa _]. destruct (Qa audio a Ha) as (a' & Ha' & Hs' & _).
        exists a'. split; [exact Ha' | congruence]. }
    destruct H2 as [(a & Ha & Hp & Ht) Hr]. split.
    + exists a. rewrite He. split; [exact Ha|]. split; assumption.
    + rewrite Hu. exact Hr.
Qed.

(** *** The cached path *)

Lemma quieter_evict (id : string) (e : Engine) (audio : nat) : quieter e (evict id e audio).
Proof.
  split.
  - intros h a Ha. rewrite elements_evict. fields.
    destruct (decide (h = audio)) as [->|Hne].
    + eexists. split; [rewrite lookup_alter_eq, Ha; simpl; reflexivity|]. simpl.
      repeat split; auto.
    + exists a. split; [rewrite lookup_alter_ne by congruence; exact Ha|].
      repeat split; auto.
  - intros url. unfold evict, releaseUrl. fields.
    assert (Hl : liveUrls (cleanupAudioNodes id audio (pause audio e)) = liveUrls e).
    { unfold cleanupAudioNodes. fields.
      destruct (audioNodesRef e !! id) as [nodes|]; [|reflexivity].
      destruct (removeNodeOf audio nodes); reflexivity. }
    destruct (elements (cleanupAudioNodes id audio (pause audio e)) !! audio).
    + fields. rewrite Hl. intros Hu. apply elem_of_difference in Hu. tauto.
    + rewrite Hl. auto.
Qed.

Lemma quieter_limitAudioInstances (id : string) (cap : nat) (e : Engine) :
  quieter e (limitAudioInstances id cap e).
Proof.
  unfold limitAudioInstances.
  destruct (audioInstancesRefs e !! id) as [instances|]; [|apply quieter_refl].
  destruct (cap <=? length instances)%nat; [|apply quieter_refl].
  cbv zeta.
  apply (quieter_trans e (setInstances (<[id := drop (length instances - cap + 1) instances]>
                                          (audioInstancesRefs e)) e)).
  - split; [|intros url H; exact H]. intros h a Ha. exists a. repeat split; auto.
  - apply quieter_foldl. apply quieter_evict.
Qed.

Lemma playAudio_prepared (env : Browser) (id : string) (e : Engine) (data : AudioData) :
  audioData e !! id = Some data ->
  is_Some (audioBlob data) ->
  default false (loop data) && default false (isPlaying e !! id) = false ->
  is_Some (audioContextRef e) \/ is_Some (createContext env) ->
  exists e3,
    playAudio env id e
    = (if hasEcho data then playEcho env id data e3
       else playCached env id data (needsWebAudio data) e3)
    /\ besidesContext e3 = besidesContext (limitAudioInstances id maxInstances e)
    /\ audioContextRef e3 = contextAtHand env e.
Proof.
  intros Hd [blob Hb] Hstop Hctx. unfold playAudio. rewrite Hd, Hb, Hstop.
  destruct (limitAudioInstances_frame id maxInstances e) as (Hs & _ & _).
  remember (limitAudioInstances id maxInstances e) as e1 eqn:E1. clear E1.
  unfold shell in Hs. injection Hs as _ _ _ _ Hx _ _ _ _.
  assert (Hgo : forall e2 : Engine,
            besidesContext e2 = besidesContext e1 ->
            exists e3,
              (let e4 := match audioContextRef e2 with
                         | Some suspended =>
                             if resumeOk env then setContext (Some running) e2 else e2
                         | _ => e2
                         end in
               if hasEcho data then playEcho env id data e4
               else playCached env id data (needsWebAudio data) e4)
              = (if hasEcho data then playEcho env id data e3
                 else playCached env id data (needsWebAudio data) e3)
              /\ besidesContext e3 = besidesContext e1
              /\ audioContextRef e3
                 = match audioContextRef e2 with
                   | Some suspended => Some (if resumeOk env then running else suspended)
                   | st => st
                   end).
  { intros e2 H2. cbv zeta. eexists. split; [reflexivity|].
    destruct (audioContextRef e2) as [[| |]|] eqn:Hx2; try destruct (resumeOk env);
      (split; [exact H2|]); try exact Hx2; reflexivity. }
  unfold contextAtHand. rewrite <- Hx.
  destruct (audioContextRef e1) as [st|] eqn:Hc1.
  - destruct (Hgo e1 eq_refl) as (e3 & H1 & H2 & H3). rewrite Hc1 in H3.
    exists e3. split; [exact H1|]. split; [exact H2 | exact H3].
  - destruct Hctx as [[st Hst] | [st Hst]]; [congruence|].
    rewrite Hst.
    destruct (Hgo (setContext (Some st) e1) eq_refl) as (e3 & H1 & H2 & H3).
    exists e3. split; [exact H1|]. split; [exact H2 | exact H3].
Qed.

Lemma tryPlay_elements (env : Browser) (audio : nat) (e : Engine) :
  exists g, elements (tryPlay env audio e) = alter g audio (elements e)
            /\ forall a, g a = mkAudio (src a) (paused (g a)) (currentTime a) (playbackRate a)
                                 (elementVolume a) (elementLoop a) (sinkId a) (onended a)
                         /\ (playOk env = true -> paused (g a) = false).
Proof.
  assert (Hno : exists g, elements e = alter g audio (elements e)
            /\ forall a, g a = mkAudio (src a) (paused (g a)) (currentTime a) (playbackRate a)
                                 (elementVolume a) (elementLoop a) (sinkId a) (onended a)
                         /\ (false = true -> paused (g a) = false)).
  { exists (fun a => a). split.
    - symmetry. apply alter_id. reflexivity.
    - intros [? ? ? ? ? ? ? ?]. split; [reflexivity | discriminate]. }
  assert (Hyes : forall b, exists g,
            alter (fun a => mkAudio (src a) false (currentTime a) (playbackRate a)
                              (elementVolume a) (elementLoop a) (sinkId a) (onended a))
              audio (elements e) = alter g audio (elements e)
            /\ forall a, g a = mkAudio (src a) (paused (g a)) (currentTime a) (playbackRate a)
                                 (elementVolume a) (elementLoop a) (sinkId a) (onended a)
                         /\ (b = true -> paused (g a) = false)).
  { intros b. eexists. split; [reflexivity|]. intros a. split; reflexivity. }
  unfold tryPlay. destruct (playOk env).
  - fields. apply Hyes.
  - destruct (audioContextRef e) as [[| |]|]; try exact Hno.
    destruct (resumeOk env); [|exact Hno].
    destruct (retryOk env); fields; [apply Hyes | exact Hno].
Qed.

Lemma tryPlay_rest (env : Browser) (audio : nat) (e : Engine) :
  (nextAudio (tryPlay env audio e), nextUrl (tryPlay env audio e),
   liveUrls (tryPlay env audio e), timers (tryPlay env audio e),
   audioNodesRef (tryPlay env audio e), resourceCountRef (tryPlay env audio e))
  = (nextAudio e, nextUrl e, liveUrls e, timers e, audioNodesRef e, resourceCountRef e).
Proof.
  unfold tryPlay. destruct (playOk env); [reflexivity|].
  destruct (audioContextRef e) as [[| |]|]; try reflexivity.
  destruct (resumeOk env); [|reflexivity].
  destruct (retryOk env); reflexivity.
Qed.

Lemma wireCached_rest (env : Browser) (id : string) (data : AudioData) (audio : nat)
  (e : Engine) :
  (nextAudio (wireCached env id data audio e), nextUrl (wireCached env id data audio e),
   liveUrls (wireCached env id data audio e), timers (wireCached env id data audio e))
  = (nextAudio e, nextUrl e, liveUrls e, timers e).
Proof.
  unfold wireCached. destruct (audioContextRef e) as [[| |]|]; try reflexivity.
  destruct (wiringOk env); reflexivity.
Qed.

Lemma configure_configured (data : AudioData) (audio : nat) (e : Engine) :
  (0 <= orNumber (volume data) 1)%Q ->
  configure data audio e = Normal (configuredState data audio e).
Proof. apply configure_accepted. Qed.

(** The element store after the cached path's second half. *)
Lemma finishCached_elements (env : Browser) (id : string) (data : AudioData)
  (web isNew : bool) (audio : nat) (e : Engine) :
  exists f,
    elements (finishCached env id data web isNew audio (configuredState data audio e))
    = alter f audio (elements e)
    /\ forall a, configured env id data a (f a)
                 /\ sinkId (f a) = boundSink env (outputDeviceId e) (sinkId a).
Proof.
  unfold finishCached, registerCached. cbv zeta.
  set (e1 := setSink env _ audio _).
  assert (H1 : elements e1
               = alter (fun a => mkAudio (src a) (paused a) (currentTime a) (speed data)
                                   (Qmin (orNumber (volume data) 1) 1)
                                   (default false (loop data))
                                   (boundSink env (outputDeviceId e) (sinkId a))
                                   (onended a)) audio (elements e))
    by (subst e1; unfold configuredState; fields; rewrite !alter_alter_eq; reflexivity).
  clearbody e1.
  set (e2 := if web && isNew then wireCached env id data audio e1 else e1).
  assert (H2 : elements e2 = elements e1).
  { subst e2. destruct (web && isNew); [|reflexivity].
    pose proof (view_wireCached env id data audio e1) as Hv. unfold view in Hv.
    injection Hv as _ _ _ Hv. exact Hv. }
  clearbody e2.
  set (e4 := if isNew then countElements Z.succ _ else _).
  assert (H4 : elements e4 = elements e2) by (subst e4; destruct isNew; reflexivity).
  clearbody e4.
  set (e6 := setOnended (cachedEnded id) audio _).
  assert (H6 : elements e6
               = alter (fun a => mkAudio (src a) (paused a) (currentTime a) (playbackRate a)
                                   (elementVolume a) (elementLoop a) (sinkId a)
                                   (Some (cachedEnded id))) audio (elements e4))
    by reflexivity.
  clearbody e6.
  destruct (tryPlay_elements env audio e6) as (g & Hg & Hgs).
  rewrite Hg, H6, H4, H2, H1, !alter_alter_eq.
  eexists. split; [reflexivity|].
  intros a. unfold configured. simpl.
  destruct (Hgs (mkAudio (src a) (paused a) (currentTime a) (speed data)
                   (Qmin (orNumber (volume data) 1) 1) (default false (loop data))
                   (boundSink env (outputDeviceId e) (sinkId a))
                   (Some (cachedEnded id)))) as [Hga Hgp].
  simpl in Hga. rewrite Hga. simpl.
  split; [|reflexivity].
  split; [reflexivity|]. split; [reflexivity|]. split; [reflexivity|].
  split; [reflexivity|]. split; [reflexivity|]. split; [reflexivity|]. exact Hgp.
Qed.

(** What the cached path's second half leaves alone, and what it
    registers. *)
Lemma finishCached_rest (env : Browser) (id : string) (data : AudioData)
  (web isNew : bool) (audio : nat) (e : Engine) :
  let e' := finishCached env id data web isNew audio (configuredState data audio e) in
  nextAudio e' = nextAudio e /\ nextUrl e' = nextUrl e /\ liveUrls e' = liveUrls e
  /\ timers e' = timers e /\ cachedAudioRef e' = cachedAudioRef e
  /\ audioInstancesRefs e' = push id audio (audioInstancesRefs e)
  /\ isPlaying e' = <[id := true]> (isPlaying e).
Proof.
  cbv zeta. unfold finishCached, registerCached. cbv zeta.
  set (e1 := setSink env _ audio _).
  assert (H1 : (nextAudio e1, nextUrl e1, liveUrls e1, timers e1) 
               = (nextAudio e, nextUrl e, liveUrls e, timers e)
               /\ view e1 = (isPlaying e, cachedAudioRef e, audioInstancesRefs e, elements e1))
    by (split; reflexivity).
  clearbody e1. destruct H1 as [H1 V1].
  set (e2 := if web && isNew then wireCached env id data audio e1 else e1).
  assert (H2 : (nextAudio e2, nextUrl e2, liveUrls e2, timers e2)
               = (nextAudio e1, nextUrl e1, liveUrls e1, timers e1)
               /\ view e2 = view e1).
  { subst e2. destruct (web && isNew); [|split; reflexivity].
    split; [apply wireCached_rest | apply view_wireCached]. }
  clearbody e2. destruct H2 as [H2 V2].
  set (e4 := if isNew then countElements Z.succ _ else _).
  assert (H4 : (nextAudio e4, nextUrl e4, liveUrls e4, timers e4)
               = (nextAudio e2, nextUrl e2, liveUrls e2, timers e2)
               /\ isPlaying e4 = isPlaying e2 /\ cachedAudioRef e4 = cachedAudioRef e2
               /\ audioInstancesRefs e4 = push id audio (audioInstancesRefs e2))
    by (subst e4; destruct isNew; repeat split).
  clearbody e4. destruct H4 as (H4 & P4 & C4 & I4).
  set (e6 := setOnended (cachedEnded id) audio _).
  assert (H6 : (nextAudio e6, nextUrl e6, liveUrls e6, timers e6)
               = (nextAudio e4, nextUrl e4, liveUrls e4, timers e4)
               /\ isPlaying e6 = <[id := true]> (isPlaying e4)
               /\ cachedAudioRef e6 = cachedAudioRef e4
               /\ audioInstancesRefs e6 = audioInstancesRefs e4)
    by (repeat split).
  clearbody e6. destruct H6 as (H6 & P6 & C6 & I6).
  destruct (tryPlay_frame env audio e6) as (P7 & C7 & I7 & _).
  pose proof (tryPlay_rest env audio e6) as H7.
  remember (tryPlay env audio e6) as e7 eqn:E7. clear E7.
  unfold view in V1, V2. rewrite V1 in V2.
  injection V2 as Vp Vc Vi _.
  injection H7 as N7 U7 L7 T7 _ _. injection H6 as N6 U6 L6 T6.
  injection H4 as N4 U4 L4 T4. injection H2 as N2 U2 L2 T2. injection H1 as N1 U1 L1 T1.
  split; [congruence|]. split; [congruence|]. split; [congruence|]. split; [congruence|].
  split; [congruence|]. split; congruence.
Qed.

(** The node lists and the counters after the cached path's second half. *)
Lemma finishCached_ledger (env : Browser) (id : string) (data : AudioData)
  (web isNew : bool) (audio : nat) (e : Engine) :
  let e' := finishCached env id data web isNew audio (configuredState data audio e) in
  let wired := web && isNew
               && match audioContextRef e with Some running => wiringOk env | _ => false end in
  audioNodesRef e'
  = (if wired
     then push id (mkNodeSet audio (orNumber (Some (balance data)) 0)
                     (if Qgtb (orNumber (volume data) 1) 1 then orNumber (volume data) 1 else 1))
            (audioNodesRef e)
     else audioNodesRef e)
  /\ audioElements (resourceCountRef e')
     = (if isNew then Z.succ (audioElements (resourceCountRef e))
        else audioElements (resourceCountRef e))
  /\ audioNodes (resourceCountRef e')
     = (if wired then Z.succ (audioNodes (resourceCountRef e))
        else audioNodes (resourceCountRef e))
  /\ objectUrls (resourceCountRef e') = objectUrls (resourceCountRef e).
Proof.
  cbv zeta. unfold finishCached, registerCached. cbv zeta.
  match goal with
  | |- context [tryPlay env audio ?x] => set (y := x)
  end.
  pose proof (tryPlay_rest env audio y) as H7.
  remember (tryPlay env audio y) as z eqn:Ez. clear Ez.
  injection H7 as _ _ _ _ N7 R7. rewrite N7, R7. clear z N7 R7. subst y.
  unfold wireCached, configuredState.
  destruct web, isNew; cbn [andb]; fields;
    try (repeat split; reflexivity);
    destruct (audioContextRef e) as [[| |]|]; fields; try (repeat split; reflexivity);
    destruct (wiringOk env); fields; repeat split; reflexivity.
Qed.

Ltac fields_in H :=
  cbn [audioData isPlaying buttonOrder outputDeviceId audioInstancesRefs audioContextRef
       audioNodesRef resourceCountRef cachedAudioRef elements liveUrls nextAudio nextUrl
       timers setAudioData setIsPlaying setButtonOrder setInstances setContext setNodes
       setCount setCached setElements setLiveUrls setNextAudio setNextUrl setTimers
       onElement pause rewind start revokeObjectURL countElements countNodes countUrls
       stopAndRevoke wire setPlaybackRate setVolume setLoop setSink setOnended
       audioElements audioNodes objectUrls] in H.





(** *** The end of a cached element *)

Lemma cleanupAudioNodes_keeps (id : string) (audio : nat) (e : Engine) :
  (audioInstancesRefs (cleanupAudioNodes id audio e), isPlaying (cleanupAudioNodes id audio e),
   audioElements (resourceCountRef (cleanupAudioNodes id audio e)),
   objectUrls (resourceCountRef (cleanupAudioNodes id audio e)),
   liveUrls (cleanupAudioNodes id audio e), elements (cleanupAudioNodes id audio e),
   cachedAudioRef (cleanupAudioNodes id audio e))
  = (audioInstancesRefs e, isPlaying e, audioElements (resourceCountRef e),
     objectUrls (resourceCountRef e), liveUrls e, elements e, cachedAudioRef e).
Proof.
  unfold cleanupAudioNodes.
  destruct (audioNodesRef e !! id) as [nodes|]; [|reflexivity].
  destruct (removeNodeOf audio nodes); reflexivity.
Qed.

(** The effect of the cached element's [onended] in terms of the list it
    leaves. *)
Lemma onCachedEnded_effect (id : string) (audio : nat) (e : Engine) (a : AudioElement)
  (l : list nat) :
  elements e !! audio = Some a ->
  audioInstancesRefs e !! id = Some l ->
  audioInstancesRefs (onCachedEnded id audio e)
  = <[id := default l (removeFirst audio l)]> (audioInstancesRefs e)
  /\ isPlaying (onCachedEnded id audio e)
     = match default l (removeFirst audio l) with
       | [] => <[id := false]> (isPlaying e)
       | _ => isPlaying e
       end
  /\ audioElements (resourceCountRef (onCachedEnded id audio e))
     = audioElements (resourceCountRef e)
  /\ objectUrls (resourceCountRef (onCachedEnded id audio e))
     = Z.max 0 (objectUrls (resourceCountRef e) - 1)
  /\ liveUrls (onCachedEnded id audio e) = liveUrls e ∖ {[src a]}
  /\ elements (onCachedEnded id audio e) = elements e
  /\ cachedAudioRef (onCachedEnded id audio e) = cachedAudioRef e.
Proof.
  intros Ha Hl. unfold onCachedEnded. cbv zeta. rewrite Hl.
  assert (Hm : exists e2,
            markIdleIfEmpty id
              match removeFirst audio l with
              | Some rest => setInstances (<[id:=rest]> (audioInstancesRefs e)) e
              | None => e
              end = e2
            /\ audioInstancesRefs e2 = <[id := default l (removeFirst audio l)]> (audioInstancesRefs e)
            /\ isPlaying e2 = match default l (removeFirst audio l) with
                              | [] => <[id := false]> (isPlaying e)
                              | _ => isPlaying e
                              end
            /\ resourceCountRef e2 = resourceCountRef e
            /\ liveUrls e2 = liveUrls e /\ elements e2 = elements e
            /\ cachedAudioRef e2 = cachedAudioRef e).
  { eexists. split; [reflexivity|]. unfold markIdleIfEmpty.
    destruct (removeFirst audio l) as [rest|]; cbn [from_option Datatypes.id].
    - fields. rewrite lookup_insert_eq.
      destruct rest; fields; repeat split.
    - rewrite Hl.
      assert (Hid : audioInstancesRefs e = <[id:=l]> (audioInstancesRefs e))
        by (symmetry; apply insert_id, Hl).
      destruct l; fields; (split; [exact Hid|]); repeat split. }
  destruct Hm as (e2 & -> & Hi2 & Hp2 & Hr2 & Hl2 & Hel2 & Hc2).
  pose proof (cleanupAudioNodes_keeps id audio (releaseUrl audio e2)) as Hk.
  remember (cleanupAudioNodes id audio (releaseUrl audio e2)) as e4 eqn:E4. clear E4.
  injection Hk as K1 K2 K3 K4 K5 K6 K7.
  rewrite K1, K2, K3, K4, K5, K6, K7.
  unfold releaseUrl. rewrite Hel2, Ha. fields. cbn [audioElements audioNodes objectUrls].
  unfold decrement. rewrite Hr2, Hl2.
  split; [exact Hi2|]. split; [exact Hp2|]. split; [reflexivity|]. split; [reflexivity|].
  split; [reflexivity|]. split; assumption.
Qed.

(** X18. When the slot's cached element ends, [ended] takes its first
    occurrence out of the slot's list and marks the slot idle exactly when
    the list is empty afterwards.  It revokes the element's source URL and
    lowers the URL counter, but the cache keeps its entry for the element
    and the element counter is not lowered. *)
Theorem cached_ended_keeps_entry (id : string) (audio : nat) (e : Engine) (a : AudioElement)
  (pre post : list nat) :
  elements e !! audio = Some a ->
  onended a = Some (cachedEnded id) ->
  audioInstancesRefs e !! id = Some (pre ++ audio :: post) ->
  audio ∉ pre ->
  let e' := ended audio e in
  audioInstancesRefs e' = <[id := pre ++ post]> (audioInstancesRefs e)
  /\ (pre ++ post = [] -> isPlaying e' = <[id := false]> (isPlaying e))
  /\ (pre ++ post <> [] -> isPlaying e' = isPlaying e)
  /\ audioElements (resourceCountRef e') = audioElements (resourceCountRef e)
  /\ objectUrls (resourceCountRef e') = Z.max 0 (objectUrls (resourceCountRef e) - 1)
  /\ (src a ∉ liveUrls e')
  /\ elements e' = elements e
  /\ cachedAudioRef e' = cachedAudioRef e.
Proof.
  intros Ha Hh Hl Hpre. cbv zeta. unfold ended. rewrite Ha. cbn [mbind option_bind].
  rewrite Hh.
  destruct (onCachedEnded_effect id audio e a _ Ha Hl) as (H1 & H2 & H3 & H4 & H5 & H6 & H7).
  assert (Hr : removeFirst audio (pre ++ audio :: post) = Some (pre ++ post)).
  { clear -Hpre. induction pre as [|x pre IH]; simpl.
    - rewrite Nat.eqb_refl. reflexivity.
    - apply not_elem_of_cons in Hpre. destruct Hpre as [Hne Hpre].
      destruct (Nat.eqb_spec x audio); [congruence|]. rewrite IH by assumption. reflexivity. }
  rewrite Hr in H1, H2. cbn [from_option Datatypes.id] in H1, H2.
  split; [exact H1|].
  split; [intros E; rewrite E in H2; exact H2|].
  split; [intros E; destruct (pre ++ post); [congruence | exact H2]|].
  split; [exact H3|]. split; [exact H4|].
  split; [|split; assumption].
  rewrite H5. intros Hin. apply elem_of_difference in Hin. destruct Hin as [_ Hin].
  apply Hin, elem_of_singleton. reflexivity.
Qed.

Lemma cached_ended_keeps_entry_witness :
  let e := run [Edit "3" pannedPad; Trigger browser "3"; Trigger browser "3"] in
  audioInstancesRefs (ended 0 e) !! "3" = Some [0]%nat
  /\ isPlaying (ended 0 e) !! "3" = Some true
  /\ cachedAudioRef (ended 0 e) !! "3" = Some (0, 0)%nat
  /\ (0%nat ∉ liveUrls (ended 0 e)).
Proof.
  cbv zeta.
  set (e := run [Edit "3" pannedPad; Trigger browser "3"; Trigger browser "3"]).
  assert (Ha : exists a, elements e !! 0%nat = Some a
                         /\ onended a = Some (cachedEnded "3") /\ src a = 0%nat)
    by (vm_compute; eexists; split; [reflexivity | split; reflexivity]).
  destruct Ha as (a & Ha & Hh & Hs).
  assert (Hl : audioInstancesRefs e !! "3" = Some ([] ++ 0 :: [0])%nat)
    by (vm_compute; reflexivity).
  destruct (cached_ended_keeps_entry "3" 0 e a []%nat [0]%nat Ha Hh Hl)
    as (H1 & _ & H3 & _ & _ & H6 & _ & H8).
  - intros Hin. inversion Hin.
  - cbv zeta in H1, H3, H6, H8.
    split; [rewrite H1; apply lookup_insert_eq|].
    split; [rewrite H3 by discriminate; vm_compute; reflexivity|].
    split; [rewrite H8; vm_compute; reflexivity|].
    rewrite Hs in H6. exact H6.
Defined.

End EngineExtras.


(** ** Properties of the edit dialog *)

Module DialogExtras.
Import Codec Engine Scenarios Observations Predicates Fixtures Dialog Cases EngineProofs.

(** The entry [updateAudioData] stores. *)
Lemma updateAudioData_stored (id : string) (data : PartialAudioData) (e : Engine) :
  let prev := audioData e !! id in
  audioData (updateAudioData id data e)
  = <[id := {| padId := id;
               name := orString (readField (p_name data))
                         (orString (name <$> prev) (padName id));
               speed := match readField (p_speed data) with
                        | Some v => v
                        | None => orNumber (speed <$> prev) 1
                        end;
               balance := match readField (p_balance data) with
                          | Some v => v
                          | None => orNumber (balance <$> prev) 0
                          end;
               echoDelay := match readField (p_echoDelay data) with
                            | Some v => Some v
                            | None => match prev ≫= echoDelay with
                                      | Some v => Some v
                                      | None => Some (1 # 10)
                                      end
                            end;
               echoFeedback := match readField (p_echoFeedback data) with
                               | Some v => Some v
                               | None => Some (orNumber (prev ≫= echoFeedback) 0)
                               end;
               volume := match readField (p_volume data) with
                         | Some v => Some v
                         | None => Some (orNumber (prev ≫= volume) (75 # 100))
                         end;
               color := match readField (p_color data) with
                        | Some v => Some v
                        | None => prev ≫= color
                        end;
               loop := match readField (p_loop data) with
                       | Some v => Some v
                       | None => prev ≫= loop
                       end;
               audioBlob := match readField (p_audioBlob data) with
                            | Some v => Some v
                            | None => prev ≫= audioBlob
                            end |}]> (audioData e).
Proof.
  cbv zeta. unfold updateAudioData. cbv zeta.
  destruct (cachedAudioRef e !! id) as [[audio url]|]; reflexivity.
Qed.

Lemma orString_nonempty (x : option string) (d : string) :
  d <> EmptyString -> orString x d <> EmptyString.
Proof. intros Hd. destruct x as [[|c s]|]; simpl; congruence. Qed.

Lemma orString_given (v d : string) : v <> EmptyString -> orString (Some v) d = v.
Proof. intros Hv. destruct v; simpl; congruence. Qed.

Lemma padName_nonempty (id : string) : padName id <> EmptyString.
Proof. unfold padName. simpl. discriminate. Qed.

Lemma orNumber_settled (x : option Q) (d : Q) :
  orNumber (Some (orNumber x d)) d = orNumber x d.
Proof.
  unfold orNumber. destruct x as [v|].
  - destruct (Qeq_bool v 0) eqn:Hv.
    + destruct (Qeq_bool d 0); reflexivity.
    + rewrite Hv. reflexivity.
  - destruct (Qeq_bool d 0); reflexivity.
Qed.

Lemma orNumber_given (v d : Q) : ~ v == 0 -> orNumber (Some v) d = v.
Proof.
  intros Hv. unfold orNumber. destruct (Qeq_bool v 0) eqn:E; [|reflexivity].
  apply Qeq_bool_iff in E. contradiction.
Qed.

Lemma orNumber_zero (v : Q) : orNumber (Some v) 0 == v.
Proof.
  unfold orNumber. destruct (Qeq_bool v 0) eqn:E; [|reflexivity].
  apply Qeq_bool_iff in E. symmetry. exact E.
Qed.

(** X19. Saving a form and opening the dialog again on the stored entry
    shows the form that was saved: name, colour, loop flag and clip are the
    same and the numbers are equal, provided name and colour are not empty,
    speed and volume are not 0 and the form holds a clip.  A volume of 0,
    which the slider allows, comes back as 1. *)
Theorem save_then_reopen (padId : string) (form : Form) (e : Engine) :
  f_name form <> EmptyString ->
  f_color form <> EmptyString ->
  ~ f_speed form == 0 ->
  is_Some (f_audioBlob form) ->
  let shown := openForm padId (audioData (handleSave padId form e) !! padId) in
  f_name shown = f_name form
  /\ f_color shown = f_color form
  /\ f_loop shown = f_loop form
  /\ f_audioBlob shown = f_audioBlob form
  /\ f_speed shown == f_speed form
  /\ f_balance shown == f_balance form
  /\ f_echoDelay shown == f_echoDelay form
  /\ f_echoFeedback shown == f_echoFeedback form
  /\ (~ f_volume form == 0 -> f_volume shown == f_volume form)
  /\ (f_volume form == 0 -> f_volume shown = 1%Q).
Proof.
  intros Hn Hc Hs [blob Hb]. cbv zeta. unfold handleSave.
  rewrite updateAudioData_stored. cbv zeta. rewrite lookup_insert_eq.
  unfold openForm, savePayload. rewrite Hb. cbn -[orString orNumber Qeq].
  rewrite !(orString_given (f_name form)), (orString_given (f_color form)) by assumption.
  rewrite (orNumber_given (f_speed form)) by assumption.
  split; [reflexivity|]. split; [reflexivity|]. split; [reflexivity|].
  split; [reflexivity|]. split; [reflexivity|].
  split; [apply orNumber_zero|]. split; [apply orNumber_zero|].
  split; [apply orNumber_zero|]. split.
  - intros Hv. rewrite orNumber_given by assumption. reflexivity.
  - intros Hv. unfold orNumber. apply Qeq_bool_iff in Hv. rewrite Hv. reflexivity.
Qed.

Lemma save_then_reopen_witness :
  f_name (openForm "4" (audioData (handleSave "4" droneForm initial) !! "4")) = "Drone"
  /\ f_volume (openForm "4" (audioData (handleSave "4" droneForm initial) !! "4")) == 3 # 2.
Proof.
  assert (Hs : ~ f_speed droneForm == 0) by (intros H; vm_compute in H; discriminate H).
  assert (Hv : ~ f_volume droneForm == 0) by (intros H; vm_compute in H; discriminate H).
  destruct (save_then_reopen "4" droneForm initial) as (H1 & _ & _ & _ & _ & _ & _ & _ & H9 & _).
  - discriminate.
  - discriminate.
  - exact Hs.
  - exists clip. reflexivity.
  - cbv zeta in H1, H9. split; [exact H1 | exact (H9 Hv)].
Defined.

(** X20. Opening the dialog on a slot's stored data and saving without
    touching the form keeps the slot's clip and leaves every other slot's
    entry alone; doing it a second time changes nothing more.  It is not
    always the identity: a stored volume of 0 becomes 1. *)
Theorem reopenAndSave_settles (padId : string) (e : Engine) :
  audioData (reopenAndSave padId e) !! padId ≫= audioBlob = audioData e !! padId ≫= audioBlob
  /\ (forall other, other <> padId ->
      audioData (reopenAndSave padId e) !! other = audioData e !! other)
  /\ audioData (reopenAndSave padId (reopenAndSave padId e)) = audioData (reopenAndSave padId e)
  /\ (forall data v, audioData e !! padId = Some data -> volume data = Some v -> v == 0 ->
      audioData (reopenAndSave padId e) !! padId ≫= volume = Some 1%Q).
Proof.
  assert (Hone : forall x : Engine,
            audioData (reopenAndSave padId x)
            = <[padId := {| padId := padId;
                            name := orString (name <$> audioData x !! padId) (padName padId);
                            speed := orNumber (speed <$> audioData x !! padId) 1;
                            balance := orNumber (balance <$> audioData x !! padId) 0;
                            echoDelay := Some (orNumber (audioData x !! padId ≫= echoDelay) 0);
                            echoFeedback :=
                              Some (orNumber (audioData x !! padId ≫= echoFeedback) 0);
                            volume := Some (orNumber (audioData x !! padId ≫= volume) 1);
                            color := Some (orString (audioData x !! padId ≫= color) "slate");
                            loop := Some (default false (audioData x !! padId ≫= loop));
                            audioBlob := audioData x !! padId ≫= audioBlob |}]> (audioData x)).
  { intros x. unfold reopenAndSave, handleSave. rewrite updateAudioData_stored. cbv zeta.
    f_equal. unfold openForm, savePayload. cbn [f_name f_speed f_balance f_echoDelay
      f_echoFeedback f_volume f_color f_loop f_audioBlob p_name p_speed p_balance p_echoDelay
      p_echoFeedback p_volume p_color p_loop p_audioBlob readField].
    f_equal.
    - apply orString_given, orString_nonempty, padName_nonempty.
    - destruct (audioData x !! padId ≫= audioBlob); reflexivity. }
  split; [rewrite Hone, lookup_insert_eq; reflexivity|].
  split; [intros other Hne; rewrite Hone; apply lookup_insert_ne; congruence|].
  split.
  - rewrite (Hone (reopenAndSave padId e)). rewrite !Hone, lookup_insert_eq, insert_insert_eq.
    f_equal. simpl. f_equal.
    + apply orString_given, orString_nonempty, padName_nonempty.
    + apply orNumber_settled.
    + apply orNumber_settled.
    + f_equal. apply orNumber_settled.
    + f_equal. apply orNumber_settled.
    + f_equal. apply orNumber_settled.
    + f_equal. apply orString_given, orString_nonempty. discriminate.
  - intros data v Hd Hv Hz. rewrite Hone, lookup_insert_eq, Hd. simpl. rewrite Hv.
    unfold orNumber. apply Qeq_bool_iff in Hz. rewrite Hz. reflexivity.
Qed.

End DialogExtras.


(** ** Properties of import, export and the layout *)

Module ArchiveExtras.
Import Codec Engine Scenarios Observations Predicates Fixtures Dialog Archive Cases
  EngineProofs EngineExtras.

Lemma decimal_inj (i j : nat) : decimal i = decimal j -> i = j.
Proof.
  unfold decimal. intros H.
  apply (f_equal NilEmpty.uint_of_string) in H. rewrite !NilEmpty.usu in H.
  injection H as H. apply (f_equal Nat.of_uint) in H.
  rewrite !DecimalNat.Unsigned.of_to in H. exact H.
Qed.

Lemma lookup_foldl_insert_other {A : Type} (k : nat -> string) (v : nat -> A) (l : list nat)
    (m : gmap string A) (key : string) :
  (forall i, i ∈ l -> k i <> key) ->
  foldl (fun m i => <[k i := v i]> m) m l !! key = m !! key.
Proof.
  revert m. induction l as [|x l IH]; intros m Hl; simpl; [reflexivity|].
  rewrite IH.
  - apply lookup_insert_ne, Hl, elem_of_cons. left. reflexivity.
  - intros i Hi. apply Hl, elem_of_cons. right. exact Hi.
Qed.

Lemma lookup_foldl_insert {A : Type} (k : nat -> string) (v : nat -> A) (l : list nat)
    (m : gmap string A) (j : nat) :
  (forall a b, k a = k b -> a = b) -> j ∈ l ->
  foldl (fun m i => <[k i := v i]> m) m l !! k j = Some (v j).
Proof.
  intros Hinj. revert m. induction l as [|x l IH]; intros m Hj; [inversion Hj|].
  simpl. destruct (decide (j ∈ l)) as [Hin|Hout]; [apply IH, Hin|].
  apply elem_of_cons in Hj. destruct Hj as [->|Hj]; [|contradiction].
  rewrite lookup_foldl_insert_other.
  - apply lookup_insert_eq.
  - intros i Hi E. apply Hinj in E. subst i. contradiction.
Qed.

(** X21. A successful import replaces the whole slot store: afterwards
    exactly the ids 1 to 36 have an entry, each the one read from the
    archive, whatever was stored before.  The cache is emptied, its URLs
    are revoked and its elements stopped, while the instance lists, the
    node lists, the playing flags and the counters stay as they were. *)
Theorem importData_replaces_store (file : File) (e : Engine) :
  fst (importData file e) = inr tt ->
  exists zip settings,
    zipContent file = Some zip /\ settingsJson zip = Some (Some settings)
    /\ let e' := snd (importData file e) in
       (forall i, (1 <= i <= 36)%nat ->
          audioData e' !! decimal i = Some (importPad settings zip i))
       /\ (forall id, is_Some (audioData e' !! id) ->
             exists i, (1 <= i <= 36)%nat /\ id = decimal i)
       /\ cachedAudioRef e' = ∅
       /\ (forall id audio url, cachedAudioRef e !! id = Some (audio, url) ->
             (url ∉ liveUrls e') /\ (live e audio -> stoppedAt e' audio))
       /\ audioInstancesRefs e' = audioInstancesRefs e
       /\ audioNodesRef e' = audioNodesRef e
       /\ isPlaying e' = isPlaying e
       /\ resourceCountRef e' = resourceCountRef e.
Proof.
  unfold importData.
  destruct (negb (endsWith (fileName file) ".zip")); [discriminate|].
  destruct (zipContent file) as [zip|] eqn:Hz; [|discriminate].
  destruct (settingsJson zip) as [[settings|]|] eqn:Hs; try discriminate.
  destruct (negb (truthy settings) || negb (typeofObject settings)); [discriminate|].
  intros _. exists zip, settings. split; [reflexivity|]. split; [exact Hs|].
  cbv zeta. cbn [snd]. fields.
  set (e0 := match asStrings (property settings "_buttonOrder") with
             | Some order => setButtonOrder order e
             | None => e
             end).
  assert (H0 : cachedAudioRef e0 = cachedAudioRef e /\ elements e0 = elements e
               /\ liveUrls e0 = liveUrls e /\ skeleton e0
                  = (audioData e, isPlaying e, buttonOrder e0, outputDeviceId e,
                     audioInstancesRefs e, audioContextRef e, audioNodesRef e,
                     resourceCountRef e, cachedAudioRef e, nextAudio e, nextUrl e, timers e)).
  { subst e0. destruct (asStrings (property settings "_buttonOrder")); repeat split. }
  clearbody e0. destruct H0 as (C0 & E0 & U0 & S0).
  pose proof (skeleton_stopCached e0 (map_to_list (cachedAudioRef e0))) as S1.
  pose proof (quieter_stopCached e0 (map_to_list (cachedAudioRef e0))) as Q1.
  assert (Hstop : forall id audio url, cachedAudioRef e0 !! id = Some (audio, url) ->
            (url ∉ liveUrls (foldl (fun e '(_, (audio, url)) => stopAndRevoke e audio url) e0
                               (map_to_list (cachedAudioRef e0))))
            /\ (live e0 audio ->
                stoppedAt (foldl (fun e '(_, (audio, url)) => stopAndRevoke e audio url) e0
                             (map_to_list (cachedAudioRef e0))) audio)).
  { intros id audio url Hc.
    assert (Hin : (id, (audio, url)) ∈ map_to_list (cachedAudioRef e0))
      by (apply elem_of_map_to_list; exact Hc).
    split.
    - apply (foldl_establish (fun e '(_, (audio, url)) => stopAndRevoke e audio url)
               (fun _ => True) (fun x => url ∉ liveUrls x) (id, (audio, url))).
      + intros x [? [? ?]]. apply quieter_stopAndRevoke.
      + auto.
      + intros x x'. apply quieter_revoked.
      + intros x _. apply stopAndRevoke_stops.
      + exact Hin.
      + exact I.
    - intros Hl.
      apply (foldl_establish (fun e '(_, (audio, url)) => stopAndRevoke e audio url)
               (fun x => live x audio) (fun x => stoppedAt x audio) (id, (audio, url))).
      + intros x [? [? ?]]. apply quieter_stopAndRevoke.
      + intros x x'. apply quieter_live.
      + intros x x'. apply quieter_stoppedAt.
      + intros x Hx. apply stopAndRevoke_stops, Hx.
      + exact Hin.
      + exact Hl. }
  remember (foldl _ e0 (map_to_list (cachedAudioRef e0))) as e1 eqn:E1. clear E1.
  unfold skeleton in S1, S0. rewrite S0 in S1.
  injection S1 as _ P1 _ _ I1 _ N1 R1 _ _ _ _.
  split.
  { intros i Hi. apply (lookup_foldl_insert decimal (importPad settings zip)).
    - apply decimal_inj.
    - apply elem_of_seq. lia. }
  split.
  { intros id [d Hd].
    destruct (decide (Exists (fun i => decimal i = id) (seq 1 36))) as [Hyes|Hno].
    - apply Exists_exists in Hyes. destruct Hyes as (i & Hi & <-).
      exists i. split; [apply elem_of_seq in Hi; lia | reflexivity].
    - rewrite lookup_foldl_insert_other in Hd; [rewrite lookup_empty in Hd; discriminate|].
      intros i Hi E. apply Hno, Exists_exists. exists i. split; assumption. }
  split; [reflexivity|].
  split.
  { intros id audio url Hc. rewrite <- C0 in Hc. destruct (Hstop id audio url Hc) as [Hu Hst].
    unfold stoppedAt. fields. split; [exact Hu|].
    intros Hl. apply Hst. unfold live. rewrite E0. exact Hl. }
  split; [exact I1|]. split; [exact N1|]. split; [exact P1 | exact R1].
Qed.

Lemma importData_replaces_store_witness :
  audioData (snd (importData sessionArchive (run [Edit "1" (echoPad (3 # 10))]))) !! "36"
  = Some (defaultPad "36").
Proof.
  destruct (importData_replaces_store sessionArchive (run [Edit "1" (echoPad (3 # 10))]))
    as (zip & settings & Hz & Hs & H).
  - vm_compute. reflexivity.
  - cbv zeta in H. destruct H as (H & _).
    change "36" with (decimal 36). rewrite (H 36%nat) by lia.
    injection Hz as <-. injection Hs as <-. vm_compute. reflexivity.
Defined.

(** *** Export followed by import *)

Lemma member_app (key : string) (l1 l2 : list (string * JValue)) :
  member key (l1 ++ l2)
  = match member key l2 with
    | Some v => Some v
    | None => member key l1
    end.
Proof.
  induction l1 as [|[k v] l1 IH]; simpl.
  - destruct (member key l2); reflexivity.
  - rewrite IH. destruct (member key l2); reflexivity.
Qed.

Lemma member_absent (key : string) (l : list (string * JValue)) :
  key ∉ l.*1 -> member key l = None.
Proof.
  induction l as [|[k v] l IH]; intros Hk; simpl; [reflexivity|].
  simpl in Hk. apply not_elem_of_cons in Hk. destruct Hk as [Hne Hk].
  rewrite (IH Hk). destruct (String.eqb_spec k key); [congruence | reflexivity].
Qed.

Lemma member_unique (key : string) (v : JValue) (l : list (string * JValue)) :
  NoDup l.*1 -> (key, v) ∈ l -> member key l = Some v.
Proof.
  induction l as [|[k w] l IH]; intros Hnd Hin; [inversion Hin|].
  simpl in Hnd. apply NoDup_cons in Hnd. destruct Hnd as [Hk Hnd].
  apply elem_of_cons in Hin. simpl. destruct Hin as [[= <- <-]|Hin].
  - rewrite (member_absent key l Hk), String.eqb_refl. reflexivity.
  - rewrite (IH Hnd Hin). reflexivity.
Qed.

Lemma exportEntries_keys (e : Engine) : (exportEntries e).*1 = (map_to_list (audioData e)).*1.
Proof.
  unfold exportEntries. induction (map_to_list (audioData e)) as [|[k d] l IH]; simpl;
    [reflexivity | f_equal; exact IH].
Qed.

Lemma member_exportEntries (e : Engine) (id : string) :
  member id (exportEntries e) = padSettings <$> audioData e !! id.
Proof.
  destruct (audioData e !! id) as [data|] eqn:Hd; simpl.
  - apply member_unique.
    + rewrite exportEntries_keys. apply NoDup_fst_map_to_list.
    + unfold exportEntries. apply list_elem_of_fmap. exists (id, data).
      split; [reflexivity|]. apply elem_of_map_to_list, Hd.
  - apply member_absent. rewrite exportEntries_keys. intros Hin.
    apply list_elem_of_fmap in Hin. destruct Hin as ([k d] & -> & Hin).
    apply elem_of_map_to_list in Hin. simpl in Hd. congruence.
Qed.

Lemma decimal_digits (i : nat) : is_Some (NilEmpty.uint_of_string (decimal i)).
Proof. unfold decimal. rewrite NilEmpty.usu. eexists. reflexivity. Qed.

Lemma padEntry_exported (exportDate : string) (e : Engine) (i : nat) :
  padEntry (exportSettings exportDate e) i = padSettings <$> audioData e !! decimal i.
Proof.
  unfold padEntry, exportSettings. rewrite member_app.
  assert (Hb : decimal i <> "_buttonOrder")
    by (intros E; pose proof (decimal_digits i) as [d Hd]; rewrite E in Hd; discriminate Hd).
  assert (Hm : decimal i <> "_metadata")
    by (intros E; pose proof (decimal_digits i) as [d Hd]; rewrite E in Hd; discriminate Hd).
  cbn [member].
  destruct (String.eqb_spec "_metadata" (decimal i)); [congruence|].
  destruct (String.eqb_spec "_buttonOrder" (decimal i)); [congruence|].
  apply member_exportEntries.
Qed.

Lemma asStrings_exported (order : list string) :
  asStrings (Some (JArr (JStr <$> order))) = Some order.
Proof.
  unfold asStrings. f_equal. induction order as [|x order IH]; simpl; [reflexivity|].
  f_equal. exact IH.
Qed.

Lemma buttonOrder_exported (exportDate : string) (e : Engine) :
  asStrings (property (exportSettings exportDate e) "_buttonOrder") = Some (buttonOrder e).
Proof.
  unfold property, exportSettings. rewrite member_app. cbn [member String.eqb Ascii.eqb Bool.eqb].
  apply asStrings_exported.
Qed.

Lemma importPad_exported (settings : JValue) (zip : ZipArchive) (i : nat) (data : AudioData) :
  padEntry settings i = Some (padSettings data) ->
  importPad settings zip i
  = {| padId := decimal i;
       name := orString (Some (name data)) (padName (decimal i));
       speed := orNumber (Some (speed data)) 1;
       balance := orNumber (Some (balance data)) 0;
       echoDelay := Some (default (1 # 10) (echoDelay data));
       echoFeedback := Some (orNumber (echoFeedback data) 0);
       volume := Some (default (75 # 100) (volume data));
       color := color data;
       loop := loop data;
       audioBlob := if hasAudio data then zipFiles zip !! audioFileName (decimal i)
                    else None |}.
Proof.
  intros H. unfold importPad. rewrite H. unfold padSettings, hasAudio, audioFileName.
  destruct (echoDelay data), (echoFeedback data), (volume data), (color data), (loop data),
    (audioBlob data); reflexivity.
Qed.

Lemma string_length_append (a b : string) :
  String.length (String.append a b) = (String.length a + String.length b)%nat.
Proof. induction a as [|c a IH]; simpl; [reflexivity | rewrite IH; reflexivity]. Qed.

Lemma append_suffix_inj (a b suffix : string) :
  String.append a suffix = String.append b suffix -> a = b.
Proof.
  revert b. induction a as [|c a IH]; intros [|c' b] H; simpl in H.
  - reflexivity.
  - apply (f_equal String.length) in H. rewrite !string_length_append in H.
    cbn [String.length] in H. lia.
  - apply (f_equal String.length) in H. rewrite !string_length_append in H.
    cbn [String.length] in H. lia.
  - injection H as -> H. f_equal. apply IH, H.
Qed.

Lemma audioFileName_inj (a b : string) : audioFileName a = audioFileName b -> a = b.
Proof.
  unfold audioFileName. intros H.
  assert (Hp : forall x, String.append "pad-" x = String "p" (String "a" (String "d" (String "-" x))))
    by reflexivity.
  rewrite !Hp in H. injection H as H.
  apply append_suffix_inj in H. exact H.
Qed.

Lemma exportFiles_other (l : list (string * AudioData)) (files : gmap string Blob)
    (id : string) :
  id ∉ l.*1 ->
  foldl (fun files '(id, data) =>
           match audioBlob data with
           | Some blob => <[audioFileName id := stored blob]> files
           | None => files
           end) files l !! audioFileName id
  = files !! audioFileName id.
Proof.
  revert files. induction l as [|[k d] l IH]; intros files Hid; simpl; [reflexivity|].
  simpl in Hid. apply not_elem_of_cons in Hid. destruct Hid as [Hne Hid].
  rewrite (IH _ Hid). destruct (audioBlob d); [|reflexivity].
  apply lookup_insert_ne. intros E. apply audioFileName_inj in E. congruence.
Qed.

Lemma exportFiles_found (l : list (string * AudioData)) (files : gmap string Blob)
    (id : string) (data : AudioData) :
  NoDup l.*1 -> (id, data) ∈ l -> files !! audioFileName id = None ->
  foldl (fun files '(id, data) =>
           match audioBlob data with
           | Some blob => <[audioFileName id := stored blob]> files
           | None => files
           end) files l !! audioFileName id
  = stored <$> audioBlob data.
Proof.
  revert files. induction l as [|[k d] l IH]; intros files Hnd Hin Hf; [inversion Hin|].
  simpl in Hnd. apply NoDup_cons in Hnd. destruct Hnd as [Hk Hnd].
  apply elem_of_cons in Hin. simpl. destruct Hin as [[= <- <-]|Hin].
  - rewrite (exportFiles_other l _ id Hk). destruct (audioBlob data); simpl.
    + apply lookup_insert_eq.
    + exact Hf.
  - apply (IH _ Hnd Hin). destruct (audioBlob d); [|exact Hf].
    rewrite lookup_insert_ne; [exact Hf|].
    intros E. apply audioFileName_inj in E. subst k.
    apply Hk, list_elem_of_fmap. exists (id, data). split; [reflexivity | exact Hin].
Qed.

Lemma exportFiles_lookup (e : Engine) (id : string) (data : AudioData) :
  audioData e !! id = Some data ->
  exportFiles e !! audioFileName id = stored <$> audioBlob data.
Proof.
  intros Hd. unfold exportFiles. apply exportFiles_found.
  - apply NoDup_fst_map_to_list.
  - apply elem_of_map_to_list, Hd.
  - apply lookup_empty.
Qed.

Lemma substring_all (s : string) : String.substring 0 (String.length s) s = s.
Proof. induction s as [|c s IH]; simpl; [reflexivity | rewrite IH; reflexivity]. Qed.

Lemma substring_suffix (a suffix : string) :
  String.substring (String.length a) (String.length suffix) (String.append a suffix) = suffix.
Proof. induction a as [|c a IH]; simpl; [apply substring_all | exact IH]. Qed.

Lemma endsWith_append (a suffix : string) : endsWith (String.append a suffix) suffix = true.
Proof.
  unfold endsWith. rewrite string_length_append.
  replace (String.length a + String.length suffix - String.length suffix)%nat
    with (String.length a) by lia.
  rewrite substring_suffix, String.eqb_refl, andb_true_r.
  apply Nat.leb_le. lia.
Qed.

(** X22. An archive written by [exportData] is accepted by [importData],
    into any state.  The import restores the button order, and every pad
    1 to 36 that had an entry comes back with its colour, loop flag and
    the bytes of its clip; name, speed, balance, echo settings and volume
    come back with the import's defaults in place of empty, zero or
    missing values, and the clip's MIME type is dropped.  A pad without an
    entry comes back as the default pad. *)
Theorem export_import_round_trip (exportDate downloadDate : string) (e target : Engine) :
  let file := exportData exportDate downloadDate e in
  let e' := snd (importData file target) in
  fst (importData file target) = inr tt
  /\ buttonOrder e' = buttonOrder e
  /\ (forall i data, (1 <= i <= 36)%nat -> audioData e !! decimal i = Some data ->
      exists data',
        audioData e' !! decimal i = Some data'
        /\ padId data' = decimal i
        /\ name data' = orString (Some (name data)) (padName (decimal i))
        /\ speed data' = orNumber (Some (speed data)) 1
        /\ balance data' = orNumber (Some (balance data)) 0
        /\ echoDelay data' = Some (default (1 # 10) (echoDelay data))
        /\ echoFeedback data' = Some (orNumber (echoFeedback data) 0)
        /\ volume data' = Some (default (75 # 100) (volume data))
        /\ color data' = color data
        /\ loop data' = loop data
        /\ audioBlob data' = stored <$> audioBlob data)
  /\ (forall i, (1 <= i <= 36)%nat -> audioData e !! decimal i = None ->
      audioData e' !! decimal i = Some (defaultPad (decimal i))).
Proof.
  cbv zeta. unfold importData, exportData. cbn [fileName zipContent settingsJson].
  change (String.append "sound-pad-mixer-" (String.append (beforeT downloadDate) ".zip"))
    with (String.append (String.append "sound-pad-mixer-" (beforeT downloadDate)) ".zip").
  rewrite endsWith_append. cbn [negb].
  change (negb (truthy (exportSettings exportDate e))
          || negb (typeofObject (exportSettings exportDate e))) with false.
  cbv iota. cbv zeta. cbn [fst snd]. rewrite buttonOrder_exported. fields.
  split; [reflexivity|].
  set (zip := {| settingsJson := Some (Some (exportSettings exportDate e));
                 zipFiles := exportFiles e |}).
  assert (Hpad : forall i, (1 <= i <= 36)%nat ->
            foldl (fun m i => <[decimal i := importPad (exportSettings exportDate e) zip i]> m)
              (∅ : gmap string AudioData) (seq 1 36) !! decimal i
            = Some (importPad (exportSettings exportDate e) zip i)).
  { intros i Hi.
    apply (lookup_foldl_insert decimal (importPad (exportSettings exportDate e) zip)).
    - apply decimal_inj.
    - apply elem_of_seq. lia. }
  split.
  { assert (Hskel : forall (x : Engine) (l : list (string * (nat * nat))),
              buttonOrder (foldl (fun e '(_, (audio, url)) => stopAndRevoke e audio url) x l)
              = buttonOrder x).
    { intros x l. pose proof (skeleton_stopCached x l) as Hs.
      remember (foldl _ x l) as y eqn:Ey. clear Ey. unfold skeleton in Hs.
      injection Hs as _ _ Hb _ _ _ _ _ _ _ _ _. exact Hb. }
    rewrite Hskel. reflexivity. }
  split.
  - intros i data Hi Hd. eexists. split; [apply Hpad, Hi|].
    rewrite (importPad_exported _ _ i data)
      by (rewrite padEntry_exported, Hd; reflexivity).
    cbn [padId name speed balance echoDelay echoFeedback volume color loop audioBlob zipFiles].
    repeat (split; [reflexivity|]).
    subst zip. cbn [zipFiles]. rewrite (exportFiles_lookup e _ data Hd). unfold hasAudio.
    destruct (audioBlob data); reflexivity.
  - intros i Hi Hd. rewrite (Hpad i Hi). f_equal.
    unfold importPad. rewrite padEntry_exported, Hd. reflexivity.
Qed.

End ArchiveExtras.


(** ** Properties of the layout *)

Module LayoutExtras.
Import Codec Engine Scenarios Observations Predicates Fixtures Layout Cases EngineProofs.

Lemma move_forward {A : Type} (pre : list A) (a b : A) (post : list A) :
  take (S (length pre)) (delete (length pre) (pre ++ a :: b :: post))
  ++ a :: drop (S (length pre)) (delete (length pre) (pre ++ a :: b :: post))
  = pre ++ b :: a :: post.
Proof. induction pre as [|x pre IH]; simpl; [reflexivity | f_equal; exact IH]. Qed.

Lemma move_backward {A : Type} (pre : list A) (a b : A) (post : list A) :
  take (length pre) (delete (S (length pre)) (pre ++ a :: b :: post))
  ++ b :: drop (length pre) (delete (S (length pre)) (pre ++ a :: b :: post))
  = pre ++ b :: a :: post.
Proof. induction pre as [|x pre IH]; simpl; [reflexivity | f_equal; exact IH]. Qed.

Lemma split_at_pair {A : Type} (l : list A) (k : nat) (a b : A) :
  l !! k = Some a -> l !! S k = Some b ->
  exists pre post, l = pre ++ a :: b :: post /\ length pre = k.
Proof.
  revert k. induction l as [|x l IH]; intros k Ha Hb; [discriminate|].
  destruct k as [|k]; simpl in Ha, Hb.
  - injection Ha as ->. destruct l as [|y l]; [discriminate|]. injection Hb as ->.
    exists [], l. split; reflexivity.
  - destruct (IH k Ha Hb) as (pre & post & -> & Hk).
    exists (x :: pre), post. split; [reflexivity | simpl; f_equal; exact Hk].
Qed.

Lemma swapped_lookup {A : Type} (pre : list A) (a b : A) (post : list A) (index : nat) :
  (pre ++ b :: a :: post) !! index
  = if (index =? length pre)%nat then Some b
    else if (index =? S (length pre))%nat then Some a
    else (pre ++ a :: b :: post) !! index.
Proof.
  revert index. induction pre as [|x pre IH]; intros [|[|index]]; simpl; try reflexivity.
  - apply (IH 0%nat).
  - apply (IH (S index)).
Qed.

(** X23. A drag from one grid position to another keeps the order a
    permutation of what it was: the dragged pad lands on the target
    position and the other pads keep their relative order.  The data of
    the dragged pad and of the pad at the target position are exchanged,
    every other entry is unchanged, and the cache, the elements, the
    instance lists and the counters are not touched. *)
Theorem reorderButtons_effect (fromIndex toIndex : nat) (e e' : Engine) :
  fromIndex <> toIndex ->
  reorderButtons fromIndex toIndex e = Some e' ->
  exists fromId toId fromData toData,
    buttonOrder e !! fromIndex = Some fromId /\ buttonOrder e !! toIndex = Some toId
    /\ audioData e !! fromId = Some fromData /\ audioData e !! toId = Some toData
    /\ buttonOrder e' !! toIndex = Some fromId
    /\ delete toIndex (buttonOrder e') = delete fromIndex (buttonOrder e)
    /\ buttonOrder e' ≡ₚ buttonOrder e
    /\ audioData e' !! toId = Some (moved toId fromData)
    /\ (fromId <> toId -> audioData e' !! fromId = Some (moved fromId toData))
    /\ (forall other, other <> fromId -> other <> toId ->
        audioData e' !! other = audioData e !! other)
    /\ cachedAudioRef e' = cachedAudioRef e /\ elements e' = elements e
    /\ audioInstancesRefs e' = audioInstancesRefs e
    /\ resourceCountRef e' = resourceCountRef e.
Proof.
  intros Hne. unfold reorderButtons.
  destruct (Nat.eqb_spec fromIndex toIndex) as [|_]; [contradiction|].
  destruct (buttonOrder e !! fromIndex) as [fromId|] eqn:Hf; [|discriminate].
  destruct (buttonOrder e !! toIndex) as [toId|] eqn:Ht; [|discriminate].
  destruct (audioData e !! fromId) as [fromData|] eqn:Hfd; [|discriminate].
  destruct (audioData e !! toId) as [toData|] eqn:Htd; [|discriminate].
  cbv zeta. intros [= <-]. exists fromId, toId, fromData, toData. fields.
  assert (Hlen : (toIndex <= length (delete fromIndex (buttonOrder e)))%nat).
  { rewrite length_delete by (exists fromId; exact Hf).
    apply lookup_lt_Some in Ht. lia. }
  assert (Htake : length (take toIndex (delete fromIndex (buttonOrder e))) = toIndex)
    by (rewrite length_take; lia).
  split; [reflexivity|]. split; [reflexivity|]. split; [exact Hfd|]. split; [exact Htd|].
  split.
  { rewrite lookup_app_r by lia. rewrite Htake, Nat.sub_diag. reflexivity. }
  split.
  { rewrite <- Htake at 1. rewrite delete_middle. apply take_drop. }
  split.
  { rewrite <- Permutation_middle, take_drop. symmetry. apply delete_Permutation, Hf. }
  split; [apply lookup_insert_eq|].
  split.
  { intros Hd. rewrite lookup_insert_ne by congruence. apply lookup_insert_eq. }
  split.
  { intros other H1 H2. rewrite !lookup_insert_ne by congruence. reflexivity. }
  repeat split.
Qed.

Lemma reorderButtons_effect_witness :
  exists e', reorderButtons 0 1 twoPads = Some e'
             /\ buttonOrder e' !! 1%nat = Some "1"
             /\ audioData e' !! "2" ≫= loop = Some false.
Proof.
  assert (Hr : exists e', reorderButtons 0 1 twoPads = Some e')
    by (eexists; vm_compute; reflexivity).
  destruct Hr as [e' Hr]. exists e'. split; [exact Hr|].
  destruct (reorderButtons_effect 0 1 twoPads e' ltac:(discriminate) Hr)
    as (fromId & toId & fromData & toData & H1 & H2 & H3 & H4 & H5 & _ & _ & H8 & _).
  vm_compute in H1. injection H1 as <-. vm_compute in H2. injection H2 as <-.
  split; [exact H5|]. rewrite H8. vm_compute in H3. injection H3 as <-. reflexivity.
Defined.

(** X24. Dragging a pad onto its neighbour, in either direction, changes
    nothing a position of the grid plays: at every position the clip,
    speed, balance, echo settings, volume, colour and loop flag are what
    they were.  The order is exchanged and the data is exchanged back. *)
Theorem adjacent_drag_keeps_content (k : nat) (e e' : Engine) :
  NoDup (buttonOrder e) ->
  reorderButtons k (S k) e = Some e' \/ reorderButtons (S k) k e = Some e' ->
  forall index, content <$> padAt e' index = content <$> padAt e index.
Proof.
  intros Hnd Hr.
  assert (H : exists pre a b post da db,
            buttonOrder e = pre ++ a :: b :: post /\ length pre = k
            /\ audioData e !! a = Some da /\ audioData e !! b = Some db
            /\ buttonOrder e' = pre ++ b :: a :: post
            /\ audioData e' !! a = Some (moved a db)
            /\ audioData e' !! b = Some (moved b da)
            /\ forall other, other <> a -> other <> b ->
                 audioData e' !! other = audioData e !! other).
  { unfold reorderButtons in Hr.
    destruct (Nat.eqb_spec k (S k)) as [|_]; [lia|].
    destruct (Nat.eqb_spec (S k) k) as [|_]; [lia|].
    destruct (buttonOrder e !! k) as [a|] eqn:Ha, (buttonOrder e !! S k) as [b|] eqn:Hb;
      try (destruct Hr; discriminate).
    destruct (audioData e !! a) as [da|] eqn:Hda, (audioData e !! b) as [db|] eqn:Hdb;
      try (destruct Hr; discriminate).
    destruct (split_at_pair _ k a b Ha Hb) as (pre & post & Hl & Hk).
    assert (Hab : a <> b).
    { intros ->. apply (NoDup_lookup _ _ _ _ Hnd Ha) in Hb. lia. }
    exists pre, a, b, post, da, db. rewrite Hl in Hr |- *. subst k.
    rewrite move_forward, move_backward in Hr.
    split; [reflexivity|]. split; [reflexivity|]. split; [exact Hda|]. split; [exact Hdb|].
    destruct Hr as [[= <-]|[= <-]]; fields.
    - split; [reflexivity|].
      split; [rewrite lookup_insert_ne by congruence; apply lookup_insert_eq|].
      split; [apply lookup_insert_eq|].
      intros other H1 H2. rewrite !lookup_insert_ne by congruence. reflexivity.
    - split; [reflexivity|].
      split; [apply lookup_insert_eq|].
      split; [rewrite lookup_insert_ne by congruence; apply lookup_insert_eq|].
      intros other H1 H2. rewrite !lookup_insert_ne by congruence. reflexivity. }
  destruct H as (pre & a & b & post & da & db & Hl & Hk & Hda & Hdb & Hl' & Ha' & Hb' & Ho).
  intros index. unfold padAt. rewrite Hl', swapped_lookup.
  assert (Hat : (pre ++ a :: b :: post) !! length pre = Some a).
  { rewrite lookup_app_r by lia. rewrite Nat.sub_diag. reflexivity. }
  assert (Hbt : (pre ++ a :: b :: post) !! S (length pre) = Some b).
  { rewrite lookup_app_r by lia. replace (S (length pre) - length pre)%nat with 1%nat by lia.
    reflexivity. }
  destruct (Nat.eqb_spec index (length pre)) as [->|H1].
  - rewrite Hl, Hat. simpl. rewrite Hb', Hda. reflexivity.
  - destruct (Nat.eqb_spec index (S (length pre))) as [->|H2].
    + rewrite Hl, Hbt. simpl. rewrite Ha', Hdb. reflexivity.
    + rewrite Hl. destruct ((pre ++ a :: b :: post) !! index) as [id|] eqn:Hid; [|reflexivity].
      simpl. rewrite Ho; [reflexivity| |].
      * intros ->. rewrite Hl in Hnd. apply (NoDup_lookup _ _ _ _ Hnd Hid) in Hat. lia.
      * intros ->. rewrite Hl in Hnd. apply (NoDup_lookup _ _ _ _ Hnd Hid) in Hbt. lia.
Qed.

Lemma adjacent_drag_keeps_content_witness :
  exists e', reorderButtons 0 1 twoPads = Some e'
             /\ content <$> padAt e' 0 = content <$> padAt twoPads 0.
Proof.
  assert (Hr : exists e', reorderButtons 0 1 twoPads = Some e')
    by (eexists; vm_compute; reflexivity).
  destruct Hr as [e' Hr]. exists e'. split; [exact Hr|].
  apply (adjacent_drag_keeps_content 0 twoPads e').
  - apply (bool_decide_unpack _). vm_compute. exact I.
  - left. exact Hr.
Defined.

End LayoutExtras.


(** ** Properties of the start-up *)

Module StartupExtras.
Import Codec Engine Scenarios Observations Predicates Fixtures Startup Cases EngineProofs
  ArchiveExtras.

Lemma orString_nonempty_here (x : option string) (y : option string) (id : string) :
  orString x (orString y (padName id)) <> EmptyString.
Proof.
  assert (Hp : padName id <> EmptyString) by (unfold padName; discriminate).
  assert (Hy : orString y (padName id) <> EmptyString)
    by (destruct y as [[|c s]|]; simpl; congruence).
  destruct x as [[|c s]|]; simpl; congruence.
Qed.

Lemma orNumber_nonzero_here (x : option Q) : ~ orNumber x 1 == 0.
Proof.
  unfold orNumber. destruct x as [v|]; [|intros H; discriminate H].
  destruct (Qeq_bool v 0) eqn:E; [intros H; discriminate H|].
  intros H. apply Qeq_bool_iff in H. congruence.
Qed.

Lemma meditationPads_lookup (i : nat) :
  (1 <= i <= 36)%nat ->
  meditationPads !! decimal i
  = Some {| c_name := padName (decimal i); c_color := rowColors !! ((i - 1) / 6)%nat;
            c_volume := 75 # 100; c_balance := 0; c_echoDelay := 1 # 10;
            c_echoFeedback := 0 |}.
Proof.
  intros Hi. unfold meditationPads.
  apply (lookup_foldl_insert decimal
           (fun i => {| c_name := padName (decimal i); c_color := rowColors !! ((i - 1) / 6)%nat;
                        c_volume := 75 # 100; c_balance := 0; c_echoDelay := 1 # 10;
                        c_echoFeedback := 0 |})).
  - apply decimal_inj.
  - apply elem_of_seq. lia.
Qed.

Lemma rowColors_defined (i : nat) :
  (1 <= i <= 36)%nat -> exists c, rowColors !! ((i - 1) / 6)%nat = Some c /\ c <> EmptyString.
Proof.
  intros Hi. assert (Hr : ((i - 1) / 6 < 6)%nat) by (apply Nat.Div0.div_lt_upper_bound; lia).
  destruct ((i - 1) / 6)%nat as [|[|[|[|[|[|r]]]]]]; try lia;
    (eexists; split; [reflexivity | discriminate]).
Qed.

(** X25. After [loadData] exactly the ids 1 to 36 have an entry, whatever
    the storage held.  Each entry has a non-empty name, a speed other than
    0, defined echo settings and volume, and a non-empty colour (the saved
    one, else the colour of its row of six); clip and loop flag are the
    saved ones.  Without saved data pad i is the default pad of its row.
    The button order keeps 36 entries. *)
Theorem loadData_fills_grid (savedData : gmap string AudioData)
    (savedOrder : option (list string)) (e : Engine) :
  let e' := loadData savedData savedOrder e in
  (forall i, (1 <= i <= 36)%nat ->
     exists data c,
       audioData e' !! decimal i = Some data
       /\ padId data = decimal i
       /\ name data <> EmptyString
       /\ ~ speed data == 0
       /\ is_Some (echoDelay data) /\ is_Some (echoFeedback data) /\ is_Some (volume data)
       /\ color data = Some c /\ c <> EmptyString
       /\ audioBlob data = savedData !! decimal i ≫= audioBlob
       /\ loop data = savedData !! decimal i ≫= loop)
  /\ (forall id, is_Some (audioData e' !! id) -> exists i, (1 <= i <= 36)%nat /\ id = decimal i)
  /\ (savedData = ∅ -> forall i, (1 <= i <= 36)%nat ->
      audioData e' !! decimal i
      = Some {| padId := decimal i; name := padName (decimal i); audioBlob := None;
                speed := 1; balance := 0; echoDelay := Some (1 # 10);
                echoFeedback := Some 0%Q; volume := Some (75 # 100);
                color := rowColors !! ((i - 1) / 6)%nat; loop := None |})
  /\ (length (buttonOrder e) = 36%nat -> length (buttonOrder e') = 36%nat).
Proof.
  cbv zeta.
  assert (Hd : audioData (loadData savedData savedOrder e)
               = foldl (fun m i => <[decimal i := loadPad savedData i]> m) ∅ (seq 1 36)).
  { unfold loadData. cbv zeta. destruct savedOrder as [order|]; [|reflexivity].
    destruct (length order =? 36)%nat; reflexivity. }
  assert (Hpad : forall i, (1 <= i <= 36)%nat ->
            audioData (loadData savedData savedOrder e) !! decimal i
            = Some (loadPad savedData i)).
  { intros i Hi. rewrite Hd. apply (lookup_foldl_insert decimal (loadPad savedData)).
    - apply decimal_inj.
    - apply elem_of_seq. lia. }
  assert (Hex : forall id, (if hasSavedData savedData then savedData !! id else None)
                           = savedData !! id).
  { intros id. unfold hasSavedData. case_bool_decide as Hl; [|reflexivity]. simpl.
    apply map_to_list_empty_iff in Hl. subst savedData. rewrite lookup_empty. reflexivity. }
  split.
  { intros i Hi. destruct (rowColors_defined i Hi) as (c & Hc & Hcn).
    rewrite (Hpad i Hi). unfold loadPad. cbv zeta.
    rewrite Hex, (meditationPads_lookup i Hi).
    cbn [fmap option_fmap option_map mbind option_bind c_name c_color c_volume c_balance
         c_echoDelay c_echoFeedback]. rewrite Hc.
    destruct (savedData !! decimal i) as [saved|] eqn:Hs;
      cbn [fmap option_fmap option_map mbind option_bind].
    - destruct (color saved) as [[|ch rest]|] eqn:Hcol.
      + eexists _, c. split; [reflexivity|]. cbn [padId name speed echoDelay echoFeedback
          volume color loop audioBlob]. split; [reflexivity|].
        split; [apply orString_nonempty_here|]. split; [apply orNumber_nonzero_here|].
        split; [eexists; reflexivity|]. split; [eexists; reflexivity|].
        split; [eexists; reflexivity|]. split; [reflexivity|]. split; [exact Hcn|].
        split; reflexivity.
      + eexists _, (String ch rest). split; [reflexivity|]. cbn [padId name speed echoDelay
          echoFeedback volume color loop audioBlob]. split; [reflexivity|].
        split; [apply orString_nonempty_here|]. split; [apply orNumber_nonzero_here|].
        split; [eexists; reflexivity|]. split; [eexists; reflexivity|].
        split; [eexists; reflexivity|]. split; [reflexivity|]. split; [discriminate|].
        split; reflexivity.
      + eexists _, c. split; [reflexivity|]. cbn [padId name speed echoDelay echoFeedback
          volume color loop audioBlob]. split; [reflexivity|].
        split; [apply orString_nonempty_here|]. split; [apply orNumber_nonzero_here|].
        split; [eexists; reflexivity|]. split; [eexists; reflexivity|].
        split; [eexists; reflexivity|]. split; [reflexivity|]. split; [exact Hcn|].
        split; reflexivity.
    - eexists _, c. split; [reflexivity|]. cbn [padId name speed echoDelay echoFeedback
        volume color loop audioBlob]. split; [reflexivity|].
      split; [apply orString_nonempty_here|]. split; [apply orNumber_nonzero_here|].
      split; [eexists; reflexivity|]. split; [eexists; reflexivity|].
      split; [eexists; reflexivity|]. split; [reflexivity|]. split; [exact Hcn|].
      split; reflexivity. }
  split.
  { intros id [d Hid]. rewrite Hd in Hid.
    destruct (decide (Exists (fun i => decimal i = id) (seq 1 36))) as [Hyes|Hno].
    - apply Exists_exists in Hyes. destruct Hyes as (i & Hi & <-).
      exists i. split; [apply elem_of_seq in Hi; lia | reflexivity].
    - rewrite lookup_foldl_insert_other in Hid; [rewrite lookup_empty in Hid; discriminate|].
      intros i Hi E. apply Hno, Exists_exists. exists i. split; assumption. }
  split.
  { intros -> i Hi. rewrite (Hpad i Hi). f_equal. unfold loadPad. cbv zeta.
    rewrite Hex, lookup_empty, (meditationPads_lookup i Hi). reflexivity. }
  intros Hlen. unfold loadData. cbv zeta. destruct savedOrder as [order|]; [|exact Hlen].
  destruct (Nat.eqb_spec (length order) 36); [assumption | exact Hlen].
Qed.

End StartupExtras.


(** ** Reachable states *)

Module ReachExtras.
Import Codec Engine Scenarios Observations Predicates Fixtures Cases EngineProofs EngineExtras.

Lemma tracked_next (e e' : Engine) :
  tracked e ->
  (nextAudio e <= nextAudio e')%nat ->
  (forall h, live e' h <-> live e h \/ (nextAudio e <= h < nextAudio e')%nat) ->
  (forall id a u, cachedAudioRef e' !! id = Some (a, u) ->
     cachedAudioRef e !! id = Some (a, u) \/ live e' a) ->
  (forall id l' x, audioInstancesRefs e' !! id = Some l' -> x ∈ l' ->
     (exists l, audioInstancesRefs e !! id = Some l /\ x ∈ l) \/ live e' x) ->
  tracked e'.
Proof.
  intros (T1 & T2 & T3) Hn Hl Hc Hi. split; [|split].
  - intros id a u H. destruct (Hc id a u H) as [Ho|Hnew]; [|exact Hnew].
    apply Hl. left. exact (T1 id a u Ho).
  - intros id l' x H Hx. destruct (Hi id l' x H Hx) as [(l & Ho & Hxl)|Hnew]; [|exact Hnew].
    apply Hl. left. exact (T2 id l x Ho Hxl).
  - intros h Hh. apply Hl in Hh. destruct Hh as [Ho|Hr]; [|lia].
    specialize (T3 h Ho). lia.
Qed.

Lemma tracked_settle (e e' : Engine) :
  tracked e ->
  nextAudio e' = nextAudio e ->
  (forall h, live e' h <-> live e h) ->
  (forall id a u, cachedAudioRef e' !! id = Some (a, u) ->
     cachedAudioRef e !! id = Some (a, u)) ->
  (forall id l' x, audioInstancesRefs e' !! id = Some l' -> x ∈ l' ->
     exists l, audioInstancesRefs e !! id = Some l /\ x ∈ l) ->
  tracked e'.
Proof.
  intros T Hn Hl Hc Hi. apply (tracked_next e e' T); [lia| | |].
  - intros h. rewrite Hl. split; [auto|]. intros [H|H]; [exact H | lia].
  - intros id a u H. left. exact (Hc id a u H).
  - intros id l' x H Hx. left. exact (Hi id l' x H Hx).
Qed.

Lemma tracked_core (e e' : Engine) : core e' = core e -> tracked e -> tracked e'.
Proof.
  unfold core. intros H T. injection H as Hc Hi Hn He.
  apply (tracked_settle e e' T Hn).
  - intros h. unfold live. rewrite He. reflexivity.
  - intros id a u. rewrite Hc. auto.
  - intros id l' x. rewrite Hi. eauto.
Qed.

Lemma tracked_shell (e e' : Engine) :
  shell e' = shell e -> elements e' = elements e ->
  audioInstancesRefs e' = audioInstancesRefs e -> tracked e -> tracked e'.
Proof.
  unfold shell. intros Hs He Hi. injection Hs as _ _ _ _ _ Hc Hn _ _.
  apply tracked_core. unfold core. congruence.
Qed.

Lemma tracked_onElement (f : AudioElement -> AudioElement) (audio : nat) (e : Engine) :
  tracked e -> tracked (onElement f audio e).
Proof.
  intros T. apply (tracked_settle e _ T); [reflexivity| | |].
  - intros h. apply live_alter.
  - intros id a u H. exact H.
  - intros id l' x H Hx. exists l'. split; [exact H | exact Hx].
Qed.

Lemma tracked_setInstances (m : gmap string (list nat)) (e : Engine) :
  (forall id l' x, m !! id = Some l' -> x ∈ l' -> live e x) ->
  tracked e -> tracked (setInstances m e).
Proof.
  intros Hm (T1 & T2 & T3). split; [|split].
  - exact T1.
  - intros id l' x H Hx. exact (Hm id l' x H Hx).
  - exact T3.
Qed.

Lemma tracked_setCached (c : gmap string (nat * nat)) (e : Engine) :
  (forall id a u, c !! id = Some (a, u) -> live e a) ->
  tracked e -> tracked (setCached c e).
Proof.
  intros Hc (T1 & T2 & T3). split; [|split].
  - intros id a u H. exact (Hc id a u H).
  - exact T2.
  - exact T3.
Qed.

Lemma tracked_foldl {A : Type} (f : Engine -> A -> Engine) (l : list A) (e : Engine) :
  (forall e x, tracked e -> tracked (f e x)) -> tracked e -> tracked (foldl f e l).
Proof.
  intros Hf. revert e. induction l as [|x l IH]; intros e T; [exact T|].
  simpl. apply IH, Hf, T.
Qed.

Lemma tracked_stopAndRevoke (e : Engine) (audio url : nat) :
  tracked e -> tracked (stopAndRevoke e audio url).
Proof.
  intros T. unfold stopAndRevoke.
  apply (tracked_core (rewind audio (pause audio e))); [reflexivity|].
  apply tracked_onElement, tracked_onElement, T.
Qed.

Lemma tracked_stopInstance (e : Engine) (audio : nat) :
  tracked e -> tracked (stopInstance e audio).
Proof.
  intros T. unfold stopInstance. destruct (elements e !! audio); [|exact T].
  apply tracked_stopAndRevoke, T.
Qed.

Lemma tracked_evict (id : string) (e : Engine) (audio : nat) :
  tracked e -> tracked (evict id e audio).
Proof.
  intros T. destruct (shell_evict id e audio) as (Hs & Hl & Hi).
  remember (evict id e audio) as e' eqn:E'. clear E'.
  unfold shell in Hs. injection Hs as _ _ _ _ _ Hc Hn _ _.
  apply (tracked_settle e _ T Hn Hl).
  - intros i a u. rewrite Hc. auto.
  - intros i l' x. rewrite Hi. eauto.
Qed.

Lemma tracked_limitAudioInstances (id : string) (cap : nat) (e : Engine) :
  tracked e -> tracked (limitAudioInstances id cap e).
Proof.
  intros T. unfold limitAudioInstances.
  destruct (audioInstancesRefs e !! id) as [instances|] eqn:Hi; [|exact T].
  destruct (cap <=? length instances)%nat; [|exact T].
  cbv zeta. apply tracked_foldl; [intros x a; apply tracked_evict|].
  apply tracked_setInstances; [|exact T].
  intros i l' x H Hx. destruct T as (_ & T2 & _).
  destruct (decide (i = id)) as [->|Hne].
  - rewrite lookup_insert_eq in H. injection H as <-.
    apply (T2 id instances x Hi). apply (subseteq_drop _ _ _ Hx).
  - rewrite lookup_insert_ne in H by congruence. exact (T2 i l' x H Hx).
Qed.

Lemma removeFirst_subset (audio : nat) (l rest : list nat) :
  removeFirst audio l = Some rest -> forall x, x ∈ rest -> x ∈ l.
Proof.
  revert rest. induction l as [|y l IH]; intros rest H x Hx; [discriminate|].
  simpl in H. destruct (y =? audio)%nat.
  - injection H as <-. apply elem_of_cons. right. exact Hx.
  - destruct (removeFirst audio l) as [rest'|]; [|discriminate].
    injection H as <-. apply elem_of_cons in Hx. apply elem_of_cons.
    destruct Hx as [->|Hx]; [left; reflexivity | right; exact (IH rest' eq_refl x Hx)].
Qed.

Lemma tracked_markIdleIfEmpty (id : string) (e : Engine) :
  tracked e -> tracked (markIdleIfEmpty id e).
Proof.
  intros T. unfold markIdleIfEmpty.
  destruct (audioInstancesRefs e !! id) as [[|? ?]|]; [|exact T|exact T].
  apply (tracked_core e); [reflexivity | exact T].
Qed.

Lemma tracked_unregister (id : string) (audio : nat) (e : Engine) (count : bool) :
  tracked e ->
  tracked match audioInstancesRefs e !! id with
          | Some instances =>
              markIdleIfEmpty id
                match removeFirst audio instances with
                | Some rest =>
                    (if count then countElements decrement else fun x => x)
                      (setInstances (<[id := rest]> (audioInstancesRefs e)) e)
                | None => e
                end
          | None => e
          end.
Proof.
  intros T. destruct (audioInstancesRefs e !! id) as [instances|] eqn:Hi; [|exact T].
  apply tracked_markIdleIfEmpty.
  destruct (removeFirst audio instances) as [rest|] eqn:Hr; [|exact T].
  assert (T' : tracked (setInstances (<[id := rest]> (audioInstancesRefs e)) e)).
  { apply tracked_setInstances; [|exact T].
    intros i l' x H Hx. destruct T as (_ & T2 & _).
    destruct (decide (i = id)) as [->|Hne].
    - rewrite lookup_insert_eq in H. injection H as <-.
      apply (T2 id instances x Hi). exact (removeFirst_subset audio instances rest Hr x Hx).
    - rewrite lookup_insert_ne in H by congruence. exact (T2 i l' x H Hx). }
  destruct count; [|exact T'].
  apply (tracked_core (setInstances (<[id := rest]> (audioInstancesRefs e)) e));
    [reflexivity | exact T'].
Qed.

Lemma tracked_cleanupAudioNodes (id : string) (audio : nat) (e : Engine) :
  tracked e -> tracked (cleanupAudioNodes id audio e).
Proof.
  destruct (shell_cleanupAudioNodes id audio e) as (H1 & H2 & H3).
  apply tracked_shell; assumption.
Qed.

Lemma tracked_releaseUrl (audio : nat) (e : Engine) :
  tracked e -> tracked (releaseUrl audio e).
Proof.
  destruct (shell_releaseUrl audio e) as (H1 & H2 & H3).
  apply tracked_shell; assumption.
Qed.

Lemma tracked_ended (audio : nat) (e : Engine) : tracked e -> tracked (ended audio e).
Proof.
  intros T. unfold ended. destruct (elements e !! audio ≫= onended) as [[id|id]|]; [| |exact T].
  - unfold onEchoEnded. cbv zeta. apply tracked_releaseUrl.
    apply (tracked_unregister id audio _ true), tracked_cleanupAudioNodes, T.
  - unfold onCachedEnded. cbv zeta. apply tracked_cleanupAudioNodes, tracked_releaseUrl.
    apply (tracked_unregister id audio e false), T.
Qed.

Lemma tracked_updateAudioData (id : string) (data : PartialAudioData) (e : Engine) :
  tracked e -> tracked (updateAudioData id data e).
Proof.
  intros T. unfold updateAudioData. cbv zeta.
  match goal with
  | |- tracked (setAudioData ?m ?x) => apply (tracked_core x); [reflexivity|]
  end.
  destruct (cachedAudioRef e !! id) as [[audio url]|]; [|exact T].
  assert (T1 : tracked (revokeObjectURL url (pause audio e))).
  { apply (tracked_core (pause audio e)); [reflexivity|]. apply tracked_onElement, T. }
  apply tracked_setCached; [|exact T1].
  intros i a u H. apply lookup_delete_Some in H. destruct H as [_ H].
  destruct T1 as (T1 & _). exact (T1 i a u H).
Qed.

Lemma tracked_emptied (c : ResourceCount) (p : gmap string bool)
    (n : gmap string (list NodeSet)) (e : Engine) :
  tracked e ->
  tracked (setCount c
             (setIsPlaying p
                (setNodes n (setInstances ((fun _ => []) <$> audioInstancesRefs e) e)))).
Proof.
  intros T.
  apply (tracked_core (setInstances ((fun _ => []) <$> audioInstancesRefs e) e));
    [reflexivity|].
  apply tracked_setInstances; [|exact T].
  intros i l' x H Hx. rewrite lookup_fmap in H.
  destruct (audioInstancesRefs e !! i); [|discriminate]. injection H as <-. inversion Hx.
Qed.

Lemma tracked_forceCleanupAllAudio (e : Engine) : tracked e -> tracked (forceCleanupAllAudio e).
Proof.
  intros T. unfold forceCleanupAllAudio. cbv zeta.
  set (e1 := foldl _ e (map_to_list (cachedAudioRef e))).
  assert (T1 : tracked e1).
  { apply tracked_foldl; [|exact T]. intros x [? [? ?]]. apply tracked_stopAndRevoke. }
  clearbody e1.
  assert (T1' : tracked (setCached ∅ e1)).
  { apply tracked_setCached; [|exact T1]. intros i a u H. rewrite lookup_empty in H.
    discriminate. }
  set (e2 := foldl _ (setCached ∅ e1) _).
  assert (T2 : tracked e2).
  { apply tracked_foldl; [|exact T1']. intros x [? instances].
    apply tracked_foldl. apply tracked_stopInstance. }
  clearbody e2. apply tracked_emptied, T2.
Qed.

Lemma tracked_performPeriodicCleanup (e : Engine) :
  tracked e -> tracked (performPeriodicCleanup e).
Proof.
  intros T. unfold performPeriodicCleanup. cbv zeta.
  set (e0 := setCount _ e).
  assert (T0 : tracked e0) by (apply (tracked_core e); [reflexivity | exact T]).
  clearbody e0.
  set (e1 := if orb _ _ then forceCleanupAllAudio e0 else e0).
  assert (T1 : tracked e1)
    by (subst e1; destruct (_ || _); [apply tracked_forceCleanupAllAudio, T0 | exact T0]).
  clearbody e1.
  destruct (audioContextRef e1) as [[| |]|]; [exact T1 | exact T1 | | exact T1].
  apply (tracked_core e1); [reflexivity | exact T1].
Qed.

Lemma tracked_importData (file : File) (e : Engine) :
  tracked e -> tracked (snd (importData file e)).
Proof.
  intros T. unfold importData.
  destruct (negb (endsWith (fileName file) ".zip")); [exact T|].
  destruct (zipContent file) as [zip|]; [|exact T].
  destruct (settingsJson zip) as [[settings|]|]; try exact T.
  destruct (negb (truthy settings) || negb (typeofObject settings)); [exact T|].
  cbv zeta. cbn [snd].
  set (e0 := match asStrings (property settings "_buttonOrder") with
             | Some order => setButtonOrder order e
             | None => e
             end).
  assert (T0 : tracked e0).
  { subst e0. destruct (asStrings (property settings "_buttonOrder")); [|exact T].
    apply (tracked_core e); [reflexivity | exact T]. }
  clearbody e0.
  set (e1 := foldl _ e0 (map_to_list (cachedAudioRef e0))).
  assert (T1 : tracked e1).
  { apply tracked_foldl; [|exact T0]. intros x [? [? ?]]. apply tracked_stopAndRevoke. }
  clearbody e1.
  match goal with
  | |- tracked (setAudioData ?m ?x) => apply (tracked_core x); [reflexivity|]
  end.
  apply tracked_setCached; [|exact T1]. intros i a u H. rewrite lookup_empty in H.
  discriminate.
Qed.

Lemma quieter_forceCleanupAllAudio (e : Engine) : quieter e (forceCleanupAllAudio e).
Proof.
  destruct (forceCleanupAllAudio_stores e) as [He Hu]. cbv zeta in He, Hu.
  pose proof (quieter_stopCached e (map_to_list (cachedAudioRef e))) as Q1.
  set (e1 := foldl _ e (map_to_list (cachedAudioRef e))) in *.
  pose proof (quieter_stopInstances (setCached ∅ e1) (map_to_list (audioInstancesRefs e))) as Q2.
  set (e2 := foldl _ (setCached ∅ e1) _) in *.
  clearbody e2. clearbody e1.
  destruct Q1 as [A1 U1]. destruct Q2 as [A2 U2]. split.
  - intros h a Ha. destruct (A1 h a Ha) as (a1 & Ha1 & S1 & P1 & C1).
    destruct (A2 h a1 Ha1) as (a2 & Ha2 & S2 & P2 & C2).
    exists a2. rewrite He. split; [exact Ha2|]. split; [congruence|]. split; auto.
  - intros url. rewrite Hu. intros H. apply U1, U2, H.
Qed.

(** No operation destroys an element. *)
Lemma is_Some_alter (f : AudioElement -> AudioElement) (a h : nat)
    (m : gmap nat AudioElement) :
  is_Some (alter f a m !! h) <-> is_Some (m !! h).
Proof.
  rewrite lookup_alter. case_decide; [|reflexivity]. subst. apply fmap_is_Some.
Qed.

Lemma is_Some_insert (k h : nat) (v : AudioElement) (m : gmap nat AudioElement) :
  is_Some (m !! h) -> is_Some (<[k := v]> m !! h).
Proof.
  intros H. destruct (decide (k = h)) as [->|Hne].
  - rewrite lookup_insert_eq. eexists. reflexivity.
  - rewrite lookup_insert_ne by exact Hne. exact H.
Qed.

Ltac keep_live :=
  unfold live in *; fields;
  repeat first [ rewrite is_Some_alter | apply is_Some_insert ]; try assumption.

Lemma grows_same (e e' : Engine) (h : nat) :
  elements e' = elements e -> live e h -> live e' h.
Proof. unfold live. intros ->. auto. Qed.

Lemma grows_echoOpen (e : Engine) (h : nat) : live e h -> live (snd (echoOpen e)) h.
Proof. intros H. unfold echoOpen, createObjectURL, newAudio. cbn [snd]. keep_live. Qed.

Lemma grows_echoClose (env : Browser) (id : string) (data : AudioData) (device : string)
    (i audio : nat) (e : Engine) (h : nat) :
  live e h -> live (stateOf (echoClose env id data device i audio e)) h.
Proof.
  intros H. unfold echoClose. cbv zeta. destruct (volumeAccepted _); cbn [stateOf];
    [|keep_live].
  unfold live. fields.
  destruct (audioContextRef e) as [[| |]|]; try destruct (wiringOk env); keep_live.
Qed.

Lemma grows_echoTurns (env : Browser) (id : string) (data : AudioData) (device : string)
    (l : list nat) (h : nat) :
  forall e, live e h -> live (fst (echoTurns env id data device l e)) h.
Proof.
  induction l as [|i l IH]; intros e H; cbn [echoTurns]; [exact H|].
  pose proof (grows_echoOpen e h H) as Ho.
  destruct (echoOpen e) as [audio e1]. cbn [snd] in Ho.
  destruct device; [|exact Ho].
  pose proof (grows_echoClose env id data EmptyString i audio e1 h Ho) as Hc.
  destruct (echoClose _ _ _ _ _ _ _) as [e2|e2]; [apply IH|]; exact Hc.
Qed.

Lemma grows_acquireCached (id : string) (data : AudioData) (e : Engine) (h : nat) :
  live e h -> live (snd (acquireCached id data e)) h.
Proof.
  intros H. unfold acquireCached, createObjectURL, newAudio.
  destruct (cachedAudioRef e !! id) as [[audio url]|]; cbn [snd]; keep_live.
Qed.

Lemma grows_configure (data : AudioData) (audio : nat) (e : Engine) (h : nat) :
  live e h -> live (stateOf (configure data audio e)) h.
Proof.
  intros H. unfold configure. cbv zeta. destruct (volumeAccepted _); cbn [stateOf];
    keep_live.
Qed.

Lemma grows_registerCached (env : Browser) (id : string) (data : AudioData)
    (device : string) (web isNew : bool) (audio : nat) (e : Engine) (h : nat) :
  live e h -> live (registerCached env id data device web isNew audio e) h.
Proof.
  intros H. unfold registerCached, wireCached. cbv zeta. unfold live. fields.
  destruct isNew, (web && _); fields;
    try (destruct (audioContextRef e) as [[| |]|]; try destruct (wiringOk env)); keep_live.
Qed.

Lemma grows_callPlay (env : Browser) (audio : nat) (e : Engine) (h : nat) :
  live e h -> live (fst (callPlay env audio e)) h.
Proof. intros H. unfold callPlay. destruct (playOk env); cbn [fst]; keep_live. Qed.

Lemma grows_cachedTurn (env : Browser) (id : string) (data : AudioData) (device : string)
    (e : Engine) (h : nat) :
  live e h -> live (fst (cachedTurn env id data device e)) h.
Proof.
  intros H. unfold cachedTurn.
  pose proof (grows_acquireCached id data e h H) as Ha.
  destruct (acquireCached id data e) as [[audio isNew] e1]. cbn [snd] in Ha.
  pose proof (grows_configure data audio e1 h Ha) as Hc.
  destruct (configure data audio e1) as [e2|e2]; cbn [stateOf] in Hc; [|exact Hc].
  destruct device; [|exact Hc].
  apply grows_callPlay, grows_registerCached, Hc.
Qed.

Lemma grows_dispatch (env : Browser) (id : string) (data : AudioData) (device : string)
    (e : Engine) (h : nat) :
  live e h -> live (fst (dispatch env id data device e)) h.
Proof.
  intros H. unfold dispatch.
  destruct (hasEcho data); [apply grows_echoTurns | apply grows_cachedTurn]; exact H.
Qed.

Lemma grows_launch (env : Browser) (id : string) (e : Engine) (h : nat) :
  live e h -> live (fst (launch env id e)) h.
Proof.
  intros H. unfold launch.
  destruct (audioData e !! id) as [data|]; [|exact H].
  destruct (audioBlob data); [|exact H].
  destruct (_ && _).
  { cbn [fst]. destruct (cachedAudioRef e !! id) as [[audio url]|]; keep_live. }
  cbv zeta.
  assert (H1 : live (limitAudioInstances id maxInstances e) h)
    by (apply (proj1 (proj2 (limitAudioInstances_frame id maxInstances e))), H).
  remember (limitAudioInstances id maxInstances e) as e1 eqn:E1. clear E1.
  destruct (audioContextRef e1) as [st|] eqn:Hc.
  - rewrite Hc. destruct st; try exact H1; apply grows_dispatch, H1.
  - destruct (createContext env) as [st|]; [|exact H1].
    cbn [audioContextRef setContext].
    destruct st; try exact H1; apply grows_dispatch; exact H1.
Qed.

Lemma grows_continue (env : Browser) (task : Task) (e : Engine) (h : nat) :
  live e h -> live (fst (continue env task e)) h.
Proof.
  intros H. destruct task as [id data device|id data device i audio
                             |id data device isNew audio|audio|audio]; cbn [continue].
  - apply grows_dispatch. unfold resumed.
    destruct (resumeOk env); [|exact H]. destruct (audioContextRef e); exact H.
  - pose proof (grows_echoClose env id data device i audio e h H) as Hc.
    destruct (echoClose _ _ _ _ _ _ _) as [e2|e2]; [apply grows_echoTurns|]; exact Hc.
  - apply grows_callPlay, grows_registerCached, H.
  - destruct (audioContextRef e) as [[| |]|]; exact H.
  - cbn [fst]. unfold resumed.
    destruct (resumeOk env); [|exact H].
    destruct (retryOk env), (audioContextRef e); keep_live.
Qed.

Lemma elements_markIdleIfEmpty (id : string) (e : Engine) :
  elements (markIdleIfEmpty id e) = elements e.
Proof.
  unfold markIdleIfEmpty. destruct (audioInstancesRefs e !! id) as [[|? ?]|]; reflexivity.
Qed.

Lemma elements_ended (audio : nat) (e : Engine) : elements (ended audio e) = elements e.
Proof.
  unfold ended. destruct (elements e !! audio ≫= onended) as [[id|id]|]; [| |reflexivity].
  - unfold onEchoEnded. cbv zeta.
    rewrite (proj1 (proj2 (shell_releaseUrl audio _))).
    destruct (shell_cleanupAudioNodes id audio e) as (_ & He & _).
    remember (cleanupAudioNodes id audio e) as e1 eqn:E1. clear E1. rewrite <- He.
    destruct (audioInstancesRefs e1 !! id) as [instances|]; [|reflexivity].
    rewrite elements_markIdleIfEmpty. destruct (removeFirst audio instances); reflexivity.
  - unfold onCachedEnded. cbv zeta.
    rewrite (proj1 (proj2 (shell_cleanupAudioNodes id audio _))).
    rewrite (proj1 (proj2 (shell_releaseUrl audio _))).
    destruct (audioInstancesRefs e !! id) as [instances|]; [|reflexivity].
    rewrite elements_markIdleIfEmpty. destruct (removeFirst audio instances); reflexivity.
Qed.

Lemma grows_updateAudioData (id : string) (data : PartialAudioData) (e : Engine) (h : nat) :
  live e h -> live (updateAudioData id data e) h.
Proof.
  intros H. unfold updateAudioData. cbv zeta. unfold live. fields.
  destruct (cachedAudioRef e !! id) as [[audio url]|]; keep_live.
Qed.

Lemma grows_performPeriodicCleanup (e : Engine) (h : nat) :
  live e h -> live (performPeriodicCleanup e) h.
Proof.
  intros H. unfold performPeriodicCleanup. cbv zeta.
  set (e0 := setCount _ e).
  assert (H0 : live e0 h) by exact H.
  clearbody e0.
  set (e1 := if orb _ _ then forceCleanupAllAudio e0 else e0).
  assert (H1 : live e1 h).
  { subst e1. destruct (_ || _); [|exact H0].
    exact (quieter_live h _ _ (quieter_forceCleanupAllAudio e0) H0). }
  clearbody e1.
  destruct (audioContextRef e1) as [[| |]|]; exact H1.
Qed.

Lemma grows_importData (file : File) (e : Engine) (h : nat) :
  live e h -> live (snd (importData file e)) h.
Proof.
  intros H. unfold importData.
  destruct (negb (endsWith (fileName file) ".zip")); [exact H|].
  destruct (zipContent file) as [zip|]; [|exact H].
  destruct (settingsJson zip) as [[settings|]|]; try exact H.
  destruct (negb (truthy settings) || negb (typeofObject settings)); [exact H|].
  cbv zeta. cbn [snd].
  set (e0 := match asStrings (property settings "_buttonOrder") with
             | Some order => setButtonOrder order e
             | None => e
             end).
  assert (H0 : live e0 h)
    by (subst e0; destruct (asStrings (property settings "_buttonOrder")); exact H).
  clearbody e0.
  exact (quieter_live h _ _ (quieter_stopCached e0 (map_to_list (cachedAudioRef e0))) H0).
Qed.

Lemma grows_step (s : Session) (ev : Event) (h : nat) :
  live (engine s) h -> live (engine (step s ev)) h.
Proof.
  intros H. destruct ev; cbn [step park engine].
  - apply grows_launch, H.
  - destruct (pending s !! k) as [task|]; [|exact H].
    cbn [park engine]. apply grows_continue, H.
  - apply (grows_same (engine s)); [apply elements_ended | exact H].
  - unfold echoTimer. destruct accepted; keep_live.
  - apply grows_updateAudioData, H.
  - unfold handleDelete. apply grows_updateAudioData, H.
  - apply grows_performPeriodicCleanup, H.
  - exact (quieter_live h _ _ (quieter_forceCleanupAllAudio (engine s)) H).
  - apply grows_importData, H.
  - destruct (audioContextRef (engine s)); exact H.
Qed.

(** The pieces of a call keep the handles sound. *)
Lemma tracked_push (id : string) (audio : nat) (e : Engine) :
  live e audio -> tracked e ->
  tracked (setInstances (push id audio (audioInstancesRefs e)) e).
Proof.
  intros Hl T. apply tracked_setInstances; [|exact T].
  intros i l' x H Hx. unfold push in H. destruct T as (_ & T2 & _).
  destruct (decide (i = id)) as [->|Hne].
  - rewrite lookup_insert_eq in H. injection H as <-.
    apply elem_of_app in Hx. destruct Hx as [Hx|Hx].
    + destruct (audioInstancesRefs e !! id) as [l|] eqn:Hi; [|inversion Hx].
      exact (T2 id l x Hi Hx).
    + apply list_elem_of_singleton in Hx. subst x. exact Hl.
  - rewrite lookup_insert_ne in H by congruence. exact (T2 i l' x H Hx).
Qed.

Lemma tracked_newAudio (url : nat) (e : Engine) :
  tracked e ->
  tracked (snd (newAudio url 1 1 false EmptyString None e))
  /\ live (snd (newAudio url 1 1 false EmptyString None e)) (nextAudio e).
Proof.
  intros T. unfold newAudio. cbn [snd]. split.
  - apply (tracked_next e _ T).
    + fields. lia.
    + intros h. unfold live. fields.
      destruct (decide (h = nextAudio e)) as [->|Hne].
      * rewrite lookup_insert_eq. split; [intros _; right; lia | intros _; eexists; reflexivity].
      * rewrite lookup_insert_ne by congruence. split; [auto|]. intros [H|H]; [exact H | lia].
    + intros i a u H. left. exact H.
    + intros i l' x H Hx. left. exists l'. split; assumption.
  - unfold live. fields. rewrite lookup_insert_eq. eexists. reflexivity.
Qed.

Lemma tracked_echoOpen (e : Engine) :
  tracked e -> tracked (snd (echoOpen e)) /\ live (snd (echoOpen e)) (fst (echoOpen e)).
Proof.
  intros T. unfold echoOpen, createObjectURL.
  match goal with
  | |- context [newAudio ?u 1 1 false EmptyString None ?x] =>
      assert (Tx : tracked x) by (apply (tracked_core e); [reflexivity | exact T]);
      destruct (tracked_newAudio u x Tx) as [T1 L1]
  end.
  split; [exact T1 | exact L1].
Qed.

Lemma tracked_echoClose (env : Browser) (id : string) (data : AudioData) (device : string)
    (i audio : nat) (e : Engine) :
  live e audio -> tracked e -> tracked (stateOf (echoClose env id data device i audio e)).
Proof.
  intros Hl T. unfold echoClose. cbv zeta.
  set (e1 := setPlaybackRate (speed data) audio (countUrls Z.succ (setSink env device audio e))).
  assert (T1 : tracked e1).
  { subst e1. apply tracked_onElement.
    apply (tracked_core (setSink env device audio e)); [reflexivity|].
    apply tracked_onElement, T. }
  assert (L1 : live e1 audio) by (subst e1; keep_live).
  clearbody e1.
  destruct (volumeAccepted _); cbn [stateOf]; [|exact T1].
  set (e2 := setVolume _ audio e1).
  assert (T2 : tracked e2) by (apply tracked_onElement, T1).
  assert (L2 : live e2 audio) by (subst e2; keep_live).
  clearbody e2.
  set (e3 := match audioContextRef e2 with
             | Some running => if wiringOk env then wire id audio _ _ e2 else e2
             | _ => e2
             end).
  assert (T3 : tracked e3 /\ live e3 audio).
  { subst e3. destruct (audioContextRef e2) as [[| |]|]; try (split; assumption).
    destruct (wiringOk env); [|split; assumption].
    split; [apply (tracked_core e2); [reflexivity | exact T2] | exact L2]. }
  clearbody e3. destruct T3 as [T3 L3].
  apply tracked_onElement.
  match goal with
  | |- tracked (setTimers ?t ?x) => apply (tracked_core x); [reflexivity|]
  end.
  match goal with
  | |- tracked (countElements ?f ?x) => apply (tracked_core x); [reflexivity|]
  end.
  apply tracked_push; assumption.
Qed.

Lemma tracked_echoTurns (env : Browser) (id : string) (data : AudioData) (device : string)
    (l : list nat) :
  forall e, tracked e ->
    tracked (fst (echoTurns env id data device l e))
    /\ forall task, snd (echoTurns env id data device l e) = Some task ->
         taskLive (fst (echoTurns env id data device l e)) task.
Proof.
  induction l as [|i l IH]; intros e T; cbn [echoTurns].
  - cbn [fst snd]. split; [|discriminate].
    apply (tracked_core e); [reflexivity | exact T].
  - destruct (tracked_echoOpen e T) as [To Lo].
    destruct (echoOpen e) as [audio e1]. cbn [fst snd] in To, Lo.
    destruct device as [|c device].
    + pose proof (tracked_echoClose env id data EmptyString i audio e1 Lo To) as Tc.
      destruct (echoClose _ _ _ _ _ _ _) as [e2|e2]; cbn [stateOf] in Tc; [apply IH, Tc|].
      cbn [fst snd]. split; [exact Tc | discriminate].
    + cbn [fst snd]. split; [exact To|]. intros task [= <-]. exact Lo.
Qed.

Lemma tracked_acquireCached (id : string) (data : AudioData) (e : Engine) :
  tracked e ->
  tracked (snd (acquireCached id data e))
  /\ live (snd (acquireCached id data e)) (fst (fst (acquireCached id data e))).
Proof.
  intros T. unfold acquireCached.
  destruct (cachedAudioRef e !! id) as [[audio url]|] eqn:Hc; cbn [fst snd].
  - split; [apply tracked_onElement, T|].
    apply live_alter. destruct T as (T1 & _). exact (T1 id audio url Hc).
  - unfold createObjectURL. cbv beta iota zeta.
    match goal with
    | |- context [newAudio ?u 1 1 false EmptyString None ?x] =>
        assert (Tx : tracked x) by (apply (tracked_core e); [reflexivity | exact T]);
        destruct (tracked_newAudio u x Tx) as [T1 L1];
        assert (Hn : nextAudio x = nextAudio e) by reflexivity
    end.
    destruct (newAudio _ 1 1 false EmptyString None _) as [audio e1] eqn:En.
    assert (Ha : audio = nextAudio e) by (unfold newAudio in En; injection En as <- _; exact Hn).
    cbn [fst snd] in *. rewrite Hn in L1. subst audio.
    split; [|exact L1].
    match goal with
    | |- tracked (countUrls ?f ?x) => apply (tracked_core x); [reflexivity|]
    end.
    apply tracked_setCached; [|exact T1].
    intros i a u H. destruct (decide (i = id)) as [->|Hne].
    + rewrite lookup_insert_eq in H. injection H as <- <-. exact L1.
    + rewrite lookup_insert_ne in H by congruence.
      destruct T1 as (T1 & _). exact (T1 i a u H).
Qed.

Lemma tracked_configure (data : AudioData) (audio : nat) (e : Engine) :
  tracked e -> tracked (stateOf (configure data audio e)).
Proof.
  intros T. unfold configure. cbv zeta. destruct (volumeAccepted _); cbn [stateOf];
    repeat apply tracked_onElement; exact T.
Qed.

Lemma tracked_registerCached (env : Browser) (id : string) (data : AudioData)
    (device : string) (web isNew : bool) (audio : nat) (e : Engine) :
  live e audio -> tracked e -> tracked (registerCached env id data device web isNew audio e).
Proof.
  intros Hl T. unfold registerCached. cbv zeta.
  set (e1 := setSink env device audio e).
  assert (T1 : tracked e1) by (apply tracked_onElement, T).
  assert (L1 : live e1 audio) by (subst e1; keep_live).
  clearbody e1.
  set (e2 := if web && isNew then wireCached env id data audio e1 else e1).
  assert (T2 : tracked e2 /\ live e2 audio).
  { subst e2. destruct (web && isNew); [|split; assumption]. unfold wireCached.
    destruct (audioContextRef e1) as [[| |]|]; try (split; assumption).
    destruct (wiringOk env); [|split; assumption].
    split; [apply (tracked_core e1); [reflexivity | exact T1] | exact L1]. }
  clearbody e2. destruct T2 as [T2 L2].
  apply tracked_onElement.
  match goal with
  | |- tracked (setIsPlaying ?m ?x) => apply (tracked_core x); [reflexivity|]
  end.
  pose proof (tracked_push id audio e2 L2 T2) as T3.
  destruct isNew; [|exact T3].
  match goal with
  | |- tracked (countElements ?f ?x) => apply (tracked_core x); [reflexivity | exact T3]
  end.
Qed.

Lemma tracked_callPlay (env : Browser) (audio : nat) (e : Engine) :
  tracked e ->
  tracked (fst (callPlay env audio e))
  /\ forall task, snd (callPlay env audio e) = Some task ->
       taskLive (fst (callPlay env audio e)) task.
Proof.
  intros T. unfold callPlay. destruct (playOk env); cbn [fst snd].
  - split; [apply tracked_onElement, T | discriminate].
  - split; [exact T|]. intros task [= <-]. exact I.
Qed.

Lemma tracked_cachedTurn (env : Browser) (id : string) (data : AudioData) (device : string)
    (e : Engine) :
  tracked e ->
  tracked (fst (cachedTurn env id data device e))
  /\ forall task, snd (cachedTurn env id data device e) = Some task ->
       taskLive (fst (cachedTurn env id data device e)) task.
Proof.
  intros T. unfold cachedTurn.
  destruct (tracked_acquireCached id data e T) as [Ta La].
  destruct (acquireCached id data e) as [[audio isNew] e1]. cbn [fst snd] in Ta, La.
  pose proof (tracked_configure data audio e1 Ta) as Tc.
  pose proof (grows_configure data audio e1 audio La) as Lc.
  destruct (configure data audio e1) as [e2|e2]; cbn [stateOf] in Tc, Lc.
  - destruct device as [|c device].
    + apply tracked_callPlay, tracked_registerCached; assumption.
    + cbn [fst snd]. split; [exact Tc|]. intros task [= <-]. exact Lc.
  - cbn [fst snd]. split; [exact Tc | discriminate].
Qed.

Lemma tracked_dispatch (env : Browser) (id : string) (data : AudioData) (device : string)
    (e : Engine) :
  tracked e ->
  tracked (fst (dispatch env id data device e))
  /\ forall task, snd (dispatch env id data device e) = Some task ->
       taskLive (fst (dispatch env id data device e)) task.
Proof.
  intros T. unfold dispatch.
  destruct (hasEcho data); [apply tracked_echoTurns | apply tracked_cachedTurn]; exact T.
Qed.

Lemma tracked_launch (env : Browser) (id : string) (e : Engine) :
  tracked e ->
  tracked (fst (launch env id e))
  /\ forall task, snd (launch env id e) = Some task -> taskLive (fst (launch env id e)) task.
Proof.
  intros T. unfold launch.
  destruct (audioData e !! id) as [data|]; [|split; [exact T | discriminate]].
  destruct (audioBlob data); [|split; [exact T | discriminate]].
  destruct (_ && _).
  { cbn [fst snd]. split; [|discriminate].
    match goal with
    | |- tracked (setIsPlaying ?m ?x) => apply (tracked_core x); [reflexivity|]
    end.
    destruct (cachedAudioRef e !! id) as [[audio url]|]; [|exact T].
    apply tracked_onElement, tracked_onElement, T. }
  cbv zeta.
  pose proof (tracked_limitAudioInstances id maxInstances e T) as T1.
  remember (limitAudioInstances id maxInstances e) as e1 eqn:E1. clear E1.
  assert (Hgo : forall e2 : Engine, tracked e2 ->
            tracked (fst match audioContextRef e2 with
                         | Some suspended =>
                             (e2, Some (awaitingResume id data (outputDeviceId e)))
                         | _ => dispatch env id data (outputDeviceId e) e2
                         end)
            /\ forall task,
                 snd match audioContextRef e2 with
                     | Some suspended =>
                         (e2, Some (awaitingResume id data (outputDeviceId e)))
                     | _ => dispatch env id data (outputDeviceId e) e2
                     end = Some task ->
                 taskLive (fst match audioContextRef e2 with
                               | Some suspended =>
                                   (e2, Some (awaitingResume id data (outputDeviceId e)))
                               | _ => dispatch env id data (outputDeviceId e) e2
                               end) task).
  { intros e2 T2. destruct (audioContextRef e2) as [[| |]|];
      try (apply tracked_dispatch; exact T2).
    cbn [fst snd]. split; [exact T2|]. intros task [= <-]. exact I. }
  destruct (audioContextRef e1) as [st|] eqn:Hc.
  - apply Hgo, T1.
  - destruct (createContext env) as [st|]; [|split; [exact T1 | discriminate]].
    apply Hgo. apply (tracked_core e1); [reflexivity | exact T1].
Qed.

Lemma tracked_resumed (e : Engine) : tracked e -> tracked (resumed e).
Proof.
  intros T. unfold resumed. destruct (audioContextRef e); [|exact T].
  apply (tracked_core e); [reflexivity | exact T].
Qed.

Lemma tracked_continue (env : Browser) (task : Task) (e : Engine) :
  taskLive e task -> tracked e ->
  tracked (fst (continue env task e))
  /\ forall task', snd (continue env task e) = Some task' ->
       taskLive (fst (continue env task e)) task'.
Proof.
  intros Hl T. destruct task as [id data device|id data device i audio
                                |id data device isNew audio|audio|audio];
    cbn [continue taskLive] in *.
  - apply tracked_dispatch. destruct (resumeOk env); [apply tracked_resumed|]; exact T.
  - pose proof (tracked_echoClose env id data device i audio e Hl T) as Tc.
    destruct (echoClose _ _ _ _ _ _ _) as [e2|e2]; cbn [stateOf] in Tc;
      [apply tracked_echoTurns, Tc|].
    cbn [fst snd]. split; [exact Tc | discriminate].
  - apply tracked_callPlay, tracked_registerCached; assumption.
  - destruct (audioContextRef e) as [[| |]|]; cbn [fst snd];
      (split; [exact T|]); try discriminate.
    intros task' [= <-]. exact I.
  - cbn [fst snd]. split; [|discriminate].
    destruct (resumeOk env); [|exact T].
    destruct (retryOk env); [apply tracked_onElement|]; apply tracked_resumed, T.
Qed.

Lemma taskLive_grows (e e' : Engine) (task : Task) :
  (forall h, live e h -> live e' h) -> taskLive e task -> taskLive e' task.
Proof. intros H. destruct task; cbn [taskLive]; auto. Qed.

Lemma tracked_park (others : list Task) (p : Engine * option Task) (e : Engine) :
  (forall h, live e h -> live (fst p) h) ->
  Forall (taskLive e) others ->
  tracked (fst p) /\ (forall task, snd p = Some task -> taskLive (fst p) task) ->
  tracked (engine (park others p))
  /\ Forall (taskLive (engine (park others p))) (pending (park others p)).
Proof.
  intros Hg Ho [T Hn]. unfold park. cbn [engine pending]. split; [exact T|].
  apply Forall_app. split.
  - eapply Forall_impl; [exact Ho|]. intros task. apply taskLive_grows, Hg.
  - destruct (snd p) as [task|]; cbn [option_list]; [|constructor].
    constructor; [apply Hn; reflexivity | constructor].
Qed.

Lemma tracked_step (s : Session) (ev : Event) :
  tracked (engine s) /\ Forall (taskLive (engine s)) (pending s) ->
  tracked (engine (step s ev)) /\ Forall (taskLive (engine (step s ev))) (pending (step s ev)).
Proof.
  intros [T F].
  assert (Hrest : forall e', (forall h, live (engine s) h -> live e' h) -> tracked e' ->
            tracked (engine (mkSession e' (pending s)))
            /\ Forall (taskLive (engine (mkSession e' (pending s))))
                 (pending (mkSession e' (pending s)))).
  { intros e' Hg T'. cbn [engine pending]. split; [exact T'|].
    eapply Forall_impl; [exact F|]. intros task. apply taskLive_grows, Hg. }
  pose proof (grows_step s ev) as Hg.
  destruct ev; cbn [step] in *.
  - apply (tracked_park _ _ (engine s)); [exact Hg | exact F | apply tracked_launch, T].
  - destruct (pending s !! k) as [task|] eqn:Hk; [|split; assumption].
    apply (tracked_park _ _ (engine s)); [exact Hg | |].
    + apply Forall_delete, F.
    + apply tracked_continue; [|exact T].
      exact (proj1 (Forall_lookup _ _) F k task Hk).
  - apply Hrest; [exact Hg | apply tracked_ended, T].
  - apply Hrest; [exact Hg|].
    unfold echoTimer. destruct accepted; [apply tracked_onElement, T | exact T].
  - apply Hrest; [exact Hg | apply tracked_updateAudioData, T].
  - apply Hrest; [exact Hg | unfold handleDelete; apply tracked_updateAudioData, T].
  - apply Hrest; [exact Hg | apply tracked_performPeriodicCleanup, T].
  - apply Hrest; [exact Hg | apply tracked_forceCleanupAllAudio, T].
  - apply Hrest; [exact Hg | apply tracked_importData, T].
  - apply Hrest; [exact Hg|].
    destruct (audioContextRef (engine s)); [|exact T].
    apply (tracked_core (engine s)); [reflexivity | exact T].
Qed.

(** X26. In every state the engine can reach, however the suspended calls
    of [playAudio] interleave, the element named by a cache entry exists,
    every element in an instance list exists, and every existing element
    has a handle below the allocation counter, so that a new element never
    takes the place of an existing one. *)
Theorem reachable_handles_live (events : list Event) :
  let e := run events in
  (forall id audio url, cachedAudioRef e !! id = Some (audio, url) -> live e audio)
  /\ (forall id instances audio,
        audioInstancesRefs e !! id = Some instances -> audio ∈ instances -> live e audio)
  /\ (forall audio, live e audio -> (audio < nextAudio e)%nat).
Proof.
  cbv zeta. change (tracked (run events)). unfold run.
  apply (session_invariant
           (fun s => tracked (engine s) /\ Forall (taskLive (engine s)) (pending s))
           events tracked_step).
  split; [|constructor]. cbn [engine].
  split; [|split].
  - intros id audio url H. simpl in H. rewrite lookup_empty in H. discriminate.
  - intros id instances audio H. simpl in H. rewrite lookup_empty in H. discriminate.
  - intros audio [a H]. simpl in H. rewrite lookup_empty in H. discriminate.
Qed.

(** *** Timers *)

(** X27. Neither [limitAudioInstances] nor [forceCleanupAllAudio] nor
    [performPeriodicCleanup] cancels a timer set by the echo path.  When
    such a timer fires after a forced cleanup and the browser accepts
    [play], its element runs although every instance list is empty and no
    slot is marked playing. *)
Theorem cleanup_keeps_timers (e : Engine) :
  timers (forceCleanupAllAudio e) = timers e
  /\ timers (performPeriodicCleanup e) = timers e
  /\ (forall id cap, timers (limitAudioInstances id cap e) = timers e)
  /\ (forall audio, live e audio ->
      let e' := echoTimer audio true (forceCleanupAllAudio e) in
      (exists a, elements e' !! audio = Some a /\ paused a = false)
      /\ map_Forall (fun _ instances => instances = []) (audioInstancesRefs e')
      /\ isPlaying e' = ∅).
Proof.
  assert (Hf : forall x, timers (forceCleanupAllAudio x) = timers x).
  { intros x. pose proof (forceCleanupAllAudio_skeleton x) as H.
    remember (forceCleanupAllAudio x) as y eqn:Ey. clear Ey.
    unfold skeleton in H. injection H as _ _ _ _ _ _ _ _ _ _ _ H. exact H. }
  split; [apply Hf|]. split.
  { unfold performPeriodicCleanup. cbv zeta.
    set (e0 := setCount _ e).
    assert (H0 : timers e0 = timers e) by reflexivity.
    clearbody e0.
    set (e1 := if orb _ _ then forceCleanupAllAudio e0 else e0).
    assert (H1 : timers e1 = timers e)
      by (subst e1; destruct (_ || _); [rewrite Hf|]; exact H0).
    clearbody e1.
    destruct (audioContextRef e1) as [[| |]|]; exact H1. }
  split.
  { intros id cap. destruct (limitAudioInstances_frame id cap e) as (Hs & _).
    remember (limitAudioInstances id cap e) as y eqn:Ey. clear Ey.
    unfold shell in Hs. injection Hs as _ _ _ _ _ _ _ _ H. exact H. }
  intros audio [a Ha]. cbv zeta. unfold echoTimer.
  destruct (quieter_forceCleanupAllAudio e) as [Hq _].
  destruct (Hq audio a Ha) as (a' & Ha' & _).
  pose proof (forceCleanupAllAudio_skeleton e) as Hs.
  remember (forceCleanupAllAudio e) as y eqn:Ey. clear Ey.
  unfold skeleton in Hs. injection Hs as _ Hp _ _ Hi _ _ _ _ _ _ _.
  fields. split.
  - eexists. split; [rewrite lookup_alter_eq, Ha'; simpl; reflexivity | reflexivity].
  - split; [rewrite Hi; apply cleared_all | exact Hp].
Qed.

End ReachExtras.


(** ** Properties of the output device *)

Module DeviceExtras.
Import Codec Engine Scenarios Observations Predicates Fixtures Devices Cases EngineProofs
  EngineExtras.

Lemma boundSink_selected (env : Browser) (device current : string) :
  device <> EmptyString -> sinkOk env = true -> boundSink env device current = device.
Proof.
  intros Hne Hok. unfold boundSink. rewrite Hok.
  destruct device; [contradiction | reflexivity].
Qed.



End DeviceExtras.
